(** * Qyou API: refresh-token rotation and reuse detection

    A shallow embedding of [apps/api/auth/tokens.ts], [apps/api/models/Session.ts],
    [apps/api/models/User.ts], [apps/api/errors/AppError.ts] and the [/login] and
    [/refresh] handlers of [apps/api/routes/auth.ts].

    Conventions.
    - The [Session] collection is a list of documents in insertion order; the
      position of a document plays the role of its [_id].
    - Instants ([Date.now()], [new Date()], [expiresAt]) are milliseconds in [Z].
      A handler reads the clock again after each [await]; the code that runs
      between two [await]s observes one instant.
    - A text is the sequence of the bytes of its UTF-8 encoding; [jsLength]
      counts its UTF-16 code units, which is what [.length] returns.
    - An [ObjectId] is written as its hexadecimal string, which is what
      [String(user._id)] returns.  A string in a query on an [ObjectId] path is
      cast by Mongoose, which either gives the [ObjectId] or throws a
      [CastError].
    - [crypto.randomUUID()] is an input of the handler that draws it.
    - The libraries the code calls (jsonwebtoken's encoding, SHA-256, bcrypt,
      Mongoose's cast and the string built-ins) are the fields of the class
      [Externals]. *)

From Stdlib Require Import ZArith QArith String Ascii List Bool Lia DecimalString.
From stdpp Require Import base list strings gmap.

Open Scope string_scope.
Open Scope Z_scope.
Open Scope list_scope.

(** ** errors/AppError.ts *)

Record AppError := mkAppError {
  name : string;
  message : string;
  statusCode : Z;
  code : string;
  isOperational : bool
}.

(** [new AppError(message, statusCode, code)] *)
Definition newAppError (msg : string) (sc : Z) (c : string) : AppError :=
  mkAppError "AppError" msg sc c true.

(** [new ValidationError(message)] *)
Definition ValidationError (msg : string) : AppError :=
  mkAppError "ValidationError" msg 400 "VALIDATION_ERROR" true.

(** [new AuthError(message)] *)
Definition AuthError (msg : string) : AppError :=
  mkAppError "AuthError" msg 401 "AUTH_ERROR" true.

(** [error instanceof AuthError]: the constructor stores the class name. *)
Definition instanceofAuthError (e : AppError) : bool :=
  String.eqb (name e) "AuthError".

(** What can be thrown: an [AppError], an error of jsonwebtoken, the
    driver's duplicate-key error raised by the unique index on
    [refreshTokenHash], or the [CastError] of Mongoose for a query value that
    is no [ObjectId], with the path of the query it was given for. *)
Inductive Thrown :=
| ThrowApp (e : AppError)
| ThrowJwtError
| ThrowDuplicateKey (key : string)
| ThrowCastError (path : string).

Inductive Outcome (A : Type) :=
| Ok (a : A)
| Throw (e : Thrown).
Arguments Ok {A} a.
Arguments Throw {A} e.

(** ** models/User.ts and models/Session.ts *)

Inductive Role := USER | ADMIN.

Record User := mkUser {
  u_id : string;
  email : string;
  passwordHash : string;
  role : Role
}.

Inductive SessionStatus := active | consumed | revoked.

Definition status_eqb (a b : SessionStatus) : bool :=
  match a, b with
  | active, active | consumed, consumed | revoked, revoked => true
  | _, _ => false
  end.

Record Session := mkSession {
  userId : string;
  deviceId : string;
  familyId : string;
  tokenId : string;
  refreshTokenHash : string;
  parentTokenHash : option string;
  replacedByHash : option string;
  status : SessionStatus;
  consumedAt : option Z;
  revokedAt : option Z;
  revokedReason : option string;
  expiresAt : Z
}.

(** The collection. *)
Abbreviation Store := (list Session).

(** [$set: { status: 'revoked', revokedAt: new Date(), revokedReason: reason }] *)
Definition setRevoked (now : Z) (reason : string) (d : Session) : Session :=
  mkSession (userId d) (deviceId d) (familyId d) (tokenId d) (refreshTokenHash d)
            (parentTokenHash d) (replacedByHash d)
            revoked (consumedAt d) (Some now) (Some reason) (expiresAt d).

(** [status = 'consumed'; consumedAt = new Date(); replacedByHash = nextHash] *)
Definition setConsumed (now : Z) (nextHash : string) (d : Session) : Session :=
  mkSession (userId d) (deviceId d) (familyId d) (tokenId d) (refreshTokenHash d)
            (parentTokenHash d) (Some nextHash)
            consumed (Some now) (revokedAt d) (revokedReason d) (expiresAt d).

(** [Model.updateMany(filter, { $set })] *)
Definition updateMany (filter : Session -> bool) (set : Session -> Session)
  (s : Store) : Store :=
  (fun d => if filter d then set d else d) <$> s.

(** [Model.findOne(filter)]: the first matching document, with its position. *)
Fixpoint findOneFrom (filter : Session -> bool) (i : nat) (s : Store)
  : option (nat * Session) :=
  match s with
  | [] => None
  | d :: s' => if filter d then Some (i, d) else findOneFrom filter (S i) s'
  end.

Definition findOne (filter : Session -> bool) (s : Store) : option (nat * Session) :=
  findOneFrom filter 0 s.

(** [doc.save()] after assignments to a loaded document: the assigned paths are
    written to the stored document with the same [_id]; nothing is compared. *)
Definition save (i : nat) (set : Session -> Session) (s : Store) : Store :=
  alter set i s.

(** [Model.create(doc)] under the unique index on [refreshTokenHash]. *)
Definition create (d : Session) (s : Store) : Outcome Store :=
  if existsb (fun x => String.eqb (refreshTokenHash x) (refreshTokenHash d)) s
  then Throw (ThrowDuplicateKey (refreshTokenHash d))
  else Ok (s ++ [d]).

(** [User.findOne({ email })] and [User.findById(id)] *)
Definition findUserByEmail (e : string) (users : list User) : option User :=
  find (fun u => String.eqb (email u) e) users.

Definition findById (id : string) (users : list User) : option User :=
  find (fun u => String.eqb (u_id u) id) users.

(** ** auth/tokens.ts *)

Inductive Payload :=
| AccessPayload (sub : string) (r : Role)
| RefreshPayload (sub dev fam tok : string).

(** The verified payload of a long-lived credential. *)
Record RefreshClaims := mkRefreshClaims {
  p_sub : string;
  p_deviceId : string;
  p_familyId : string;
  p_tokenId : string
}.

(** What jsonwebtoken signs: the payload with [iat] and [exp], in seconds. *)
Record Claims := mkClaims {
  c_payload : Payload;
  c_iat : Z;
  c_exp : Z
}.

Class Externals := {
  (** the signed compact serialisation of the claims under a secret *)
  jwt_encode : Claims -> string -> string;
  (** signature check and decoding; [None] when malformed or tampered *)
  jwt_decode : string -> string -> option Claims;
  (** [crypto.createHash('sha256').update(token).digest('hex')] *)
  sha256_hex : string -> string;
  (** [bcrypt.compare(password, hash)] *)
  bcrypt_compare : string -> string -> bool;
  (** [String.prototype.trim] and [String.prototype.toLowerCase] *)
  js_trim : string -> string;
  js_toLowerCase : string -> string;
  (** the cast of a string to an [ObjectId], written as its hexadecimal
      string; [None] when Mongoose throws [CastError] *)
  castObjectId : string -> option string
}.

(** [text.length]: the UTF-16 code units of a text held as UTF-8 bytes.  A
    continuation byte adds none, the first byte of a four-byte sequence adds
    two (a surrogate pair), every other first byte adds one. *)
Fixpoint jsLength (text : string) : nat :=
  match text with
  | EmptyString => 0
  | String c rest =>
      let b := nat_of_ascii c in
      ((if (128 <=? b) && (b <? 192) then 0
        else if 240 <=? b then 2 else 1) + jsLength rest)%nat
  end.

Record Env := mkEnv {
  JWT_ACCESS_SECRET : option string;
  JWT_REFRESH_SECRET : option string
}.

Inductive SecretName := AccessSecret | RefreshSecret.

Definition secretNameString (n : SecretName) : string :=
  match n with
  | AccessSecret => "JWT_ACCESS_SECRET"
  | RefreshSecret => "JWT_REFRESH_SECRET"
  end.

Definition ACCESS_TOKEN_TTL : Z := 15 * 60.
Definition REFRESH_TOKEN_TTL : Z := 7 * 24 * 60 * 60.

Definition readSecret (env : Env) (n : SecretName) : Outcome string :=
  let secret := match n with
                | AccessSecret => JWT_ACCESS_SECRET env
                | RefreshSecret => JWT_REFRESH_SECRET env
                end in
  match secret with
  | Some sec =>
      if (Z.of_nat (jsLength sec) <? 32)
      then Throw (ThrowApp (newAppError (String.append (secretNameString n) " is not configured")
                                        500 "AUTH_CONFIG_ERROR"))
      else Ok sec
  | None => Throw (ThrowApp (newAppError (String.append (secretNameString n) " is not configured")
                                         500 "AUTH_CONFIG_ERROR"))
  end.

Record TokenPair := mkTokenPair {
  tp_accessToken : string;
  tp_refreshToken : string;
  tp_refreshExpiresAt : Z
}.

Record IssueParams := mkIssueParams {
  ip_userId : string;
  ip_role : Role;
  ip_deviceId : string;
  ip_familyId : string;
  ip_tokenId : string
}.

Section Tokens.
Context `{Externals}.

(** [jwt.sign(payload, secret, { expiresIn })] at instant [now] *)
Definition signToken (now : Z) (p : Payload) (secret : string) (expiresIn : Z)
  : string :=
  jwt_encode (mkClaims p (now / 1000) (now / 1000 + expiresIn)) secret.

(** [jwt.verify(token, secret)] at instant [now]: an empty string is refused
    ("jwt must be provided"), then decoding, then the [exp] claim against the
    clock in seconds. [None] stands for the library's exception. *)
Definition jwt_verify (now : Z) (token secret : string) : option Payload :=
  if String.eqb token "" then None
  else
    match jwt_decode token secret with
    | Some c => if (c_exp c <=? now / 1000) then None else Some (c_payload c)
    | None => None
    end.

Definition hashToken (token : string) : string := sha256_hex token.

Definition issueTokenPair (env : Env) (now : Z) (params : IssueParams)
  : Outcome TokenPair :=
  match readSecret env AccessSecret with
  | Throw e => Throw e
  | Ok accessSecret =>
    match readSecret env RefreshSecret with
    | Throw e => Throw e
    | Ok refreshSecret =>
      let accessToken :=
        signToken now (AccessPayload (ip_userId params) (ip_role params))
                  accessSecret ACCESS_TOKEN_TTL in
      let refreshToken :=
        signToken now (RefreshPayload (ip_userId params) (ip_deviceId params)
                                      (ip_familyId params) (ip_tokenId params))
                  refreshSecret REFRESH_TOKEN_TTL in
      Ok (mkTokenPair accessToken refreshToken
                      (now + 7 * 24 * 60 * 60 * 1000))
    end
  end.

(** The [try] block of [verifyRefreshToken]. *)
Definition verifyRefreshToken_try (env : Env) (now : Z) (token : string)
  : Outcome RefreshClaims :=
  match readSecret env RefreshSecret with
  | Throw e => Throw e
  | Ok secret =>
    match jwt_verify now token secret with
    | None => Throw ThrowJwtError
    | Some (RefreshPayload sub dev fam tok) => Ok (mkRefreshClaims sub dev fam tok)
    | Some (AccessPayload _ _) => Throw (ThrowApp (AuthError "Invalid token type"))
    end
  end.

(** [verifyRefreshToken]: an [AuthError] is rethrown, anything else becomes
    [AuthError('Invalid or expired refresh token')]. *)
Definition verifyRefreshToken (env : Env) (now : Z) (token : string)
  : Outcome RefreshClaims :=
  match verifyRefreshToken_try env now token with
  | Ok p => Ok p
  | Throw (ThrowApp e) =>
      if instanceofAuthError e then Throw (ThrowApp e)
      else Throw (ThrowApp (AuthError "Invalid or expired refresh token"))
  | Throw _ => Throw (ThrowApp (AuthError "Invalid or expired refresh token"))
  end.
End Tokens.

(** ** routes/auth.ts *)

Record LoginBody := mkLoginBody {
  lb_email : option string;
  lb_password : option string;
  lb_deviceId : option string
}.

Record RefreshBody := mkRefreshBody {
  rb_refreshToken : option string
}.

(** The [data] of a successful response of [/login] and [/refresh]. *)
Record TokenResponse := mkTokenResponse {
  accessToken : string;
  refreshToken : string;
  r_deviceId : string
}.

(** [String(v || '')] for an absent or string-valued body field *)
Definition orEmpty (v : option string) : string :=
  match v with
  | Some x => x
  | None => ""
  end.

(** [!str] *)
Definition isEmpty (str : string) : bool := String.eqb str "".

(** The values [crypto.randomUUID()] returns to one handler. *)
Record Uuids := mkUuids {
  newDeviceId : string;
  newFamilyId : string;
  newTokenId : string
}.

(** The instants at which one request to [/refresh] reads the clock: inside
    [jwt.verify] (line 130); when [Session.findOne] has resolved (lines 141,
    146 and 150-152); when [User.findById] has resolved (lines 160, 165 and
    175). *)
Record Clock := mkClock {
  atVerify : Z;
  atFound : Z;
  atUser : Z
}.

(** A request that reads the same instant throughout. *)
Definition instant (t : Z) : Clock := mkClock t t t.

(** The filter [{ userId, status: { $ne: 'revoked' } }] *)
Definition notRevokedOf (uid : string) (d : Session) : bool :=
  String.eqb (userId d) uid && negb (status_eqb (status d) revoked).

Definition revokeAllUserSessions (now : Z) (uid reason : string) (s : Store)
  : Store :=
  updateMany (notRevokedOf uid) (setRevoked now reason) s.

(** The filter [{ userId: user._id, deviceId, status: 'active' }] *)
Definition activeOnDevice (uid dev : string) (d : Session) : bool :=
  String.eqb (userId d) uid && String.eqb (deviceId d) dev
  && status_eqb (status d) active.

(** The [updateMany] of [/login], lines 93-102. *)
Definition revokeActiveForDevice (now : Z) (uid dev : string) (s : Store) : Store :=
  updateMany (activeOnDevice uid dev) (setRevoked now "DEVICE_RELOGIN") s.

(** The filter of the [findOne] of [/refresh]; [uid] is [payload.sub] cast
    to the [ObjectId] of the path [userId]. *)
Definition matchesCredential (tokenHash uid : string) (p : RefreshClaims)
  (d : Session) : bool :=
  String.eqb (refreshTokenHash d) tokenHash && String.eqb (userId d) uid
  && String.eqb (familyId d) (p_familyId p) && String.eqb (tokenId d) (p_tokenId p).

Section Handlers.
Context `{Externals}.
Variable env : Env.
Variable users : list User.

(** [router.post('/login')], served with no operation of another request
    between its own; [now] is the instant the handler reads when
    [bcrypt.compare] has resolved (lines 85 and 98).  The handler operation by
    operation is [loginStep]. *)
Definition login (now : Z) (rnd : Uuids) (body : LoginBody) (s : Store)
  : Store * Outcome TokenResponse :=
  let email := js_toLowerCase (js_trim (orEmpty (lb_email body))) in
  let password := orEmpty (lb_password body) in
  let providedDeviceId := js_trim (orEmpty (lb_deviceId body)) in
  if isEmpty email || isEmpty password
  then (s, Throw (ThrowApp (ValidationError "email and password are required")))
  else
    match findUserByEmail email users with
    | None => (s, Throw (ThrowApp (AuthError "Invalid email or password")))
    | Some user =>
      if negb (bcrypt_compare password (passwordHash user))
      then (s, Throw (ThrowApp (AuthError "Invalid email or password")))
      else
        let deviceId := if isEmpty providedDeviceId then newDeviceId rnd
                        else providedDeviceId in
        let familyId := newFamilyId rnd in
        let tokenId := newTokenId rnd in
        match issueTokenPair env now
                (mkIssueParams (u_id user) (role user) deviceId familyId tokenId) with
        | Throw e => (s, Throw e)
        | Ok tokenPair =>
          let s1 := revokeActiveForDevice now (u_id user) deviceId s in
          match create (mkSession (u_id user) deviceId familyId tokenId
                                  (hashToken (tp_refreshToken tokenPair))
                                  None None active None None None
                                  (tp_refreshExpiresAt tokenPair)) s1 with
          | Throw e => (s1, Throw e)
          | Ok s2 =>
              (s2, Ok (mkTokenResponse (tp_accessToken tokenPair)
                                       (tp_refreshToken tokenPair) deviceId))
          end
        end
    end.

(** [router.post('/refresh')], served with no operation of another request
    between its own.  The cast of [payload.sub] is made by [Session.findOne],
    before the query is sent; [revokeAllUserSessions] and [User.findById] cast
    the same string again and so to the same id.  The handler operation by
    operation is [refreshStep]. *)
Definition refresh (clock : Clock) (nextTokenId : string) (body : RefreshBody)
  (s : Store) : Store * Outcome TokenResponse :=
  let refreshToken := orEmpty (rb_refreshToken body) in
  if isEmpty refreshToken
  then (s, Throw (ThrowApp (ValidationError "refreshToken is required")))
  else
    match verifyRefreshToken env (atVerify clock) refreshToken with
    | Throw e => (s, Throw e)
    | Ok payload =>
      let tokenHash := hashToken refreshToken in
      match castObjectId (p_sub payload) with
      | None => (s, Throw (ThrowCastError "userId"))
      | Some uid =>
        match findOne (matchesCredential tokenHash uid payload) s with
        | None =>
            (revokeAllUserSessions (atFound clock) uid
                                   "REFRESH_TOKEN_REUSE_OR_UNKNOWN" s,
             Throw (ThrowApp (AuthError "Refresh token is invalid")))
        | Some (i, currentSession) =>
          if negb (status_eqb (status currentSession) active)
          then (revokeAllUserSessions (atFound clock) uid
                                      "REFRESH_TOKEN_REUSE_DETECTED" s,
                Throw (ThrowApp (AuthError
                         "Refresh token reuse detected. All sessions revoked.")))
          else if expiresAt currentSession <=? atFound clock
          then (save i (setRevoked (atFound clock) "REFRESH_TOKEN_EXPIRED") s,
                Throw (ThrowApp (AuthError "Refresh token is expired")))
          else
            match findById uid users with
            | None =>
                (revokeAllUserSessions (atUser clock) uid "USER_NOT_FOUND" s,
                 Throw (ThrowApp (AuthError "User account not found")))
            | Some user =>
              match issueTokenPair env (atUser clock)
                      (mkIssueParams (u_id user) (role user) (p_deviceId payload)
                                     (p_familyId payload) nextTokenId) with
              | Throw e => (s, Throw e)
              | Ok tokenPair =>
                let nextHash := hashToken (tp_refreshToken tokenPair) in
                let s1 := save i (setConsumed (atUser clock) nextHash) s in
                match create (mkSession (u_id user) (p_deviceId payload)
                                        (p_familyId payload) nextTokenId nextHash
                                        (Some tokenHash) None active None None None
                                        (tp_refreshExpiresAt tokenPair)) s1 with
                | Throw e => (s1, Throw e)
                | Ok s2 =>
                    (s2, Ok (mkTokenResponse (tp_accessToken tokenPair)
                                             (tp_refreshToken tokenPair)
                                             (p_deviceId payload)))
                end
              end
            end
        end
      end
    end.
End Handlers.

(** The active rows of one device of one user. *)
Definition activeLinks (uid dev : string) (s : Store) : list Session :=
  List.filter (activeOnDevice uid dev) s.

(** The row [/login] creates, lines 104-112. *)
Definition headLink `{Externals} (user : User) (dev fam tid : string)
  (pair : TokenPair) : Session :=
  mkSession (u_id user) dev fam tid (hashToken (tp_refreshToken pair))
            None None active None None None (tp_refreshExpiresAt pair).

(** [deviceId = providedDeviceId || generateDeviceId()], line 81. *)
Definition chosenDevice `{Externals} (rnd : Uuids) (body : LoginBody) : string :=
  let providedDeviceId := js_trim (orEmpty (lb_deviceId body)) in
  if isEmpty providedDeviceId then newDeviceId rnd else providedDeviceId.

(** The row [/refresh] creates on success, lines 179-188. *)
Definition successor `{Externals} (user : User) (p : RefreshClaims)
  (tid tokenHash : string) (pair : TokenPair) : Session :=
  mkSession (u_id user) (p_deviceId p) (p_familyId p) tid
            (hashToken (tp_refreshToken pair)) (Some tokenHash) None
            active None None None (tp_refreshExpiresAt pair).

(** ** The handlers as sequences of store operations

    Every [await] of a handler is one operation on the store or on the users.
    Between two operations of one request, operations of other requests may
    run; the request keeps what it has read ([payload], [currentSession],
    [user]) in its own variables. *)

Inductive RefreshPc :=
(** before [await Session.findOne] *)
| AtLookup
(** [findOne] has resolved *)
| AtBranch (payload : RefreshClaims) (uid tokenHash : string)
           (found : option (nat * Session))
(** [User.findById] has resolved *)
| AtRotate (payload : RefreshClaims) (uid tokenHash : string) (i : nat)
           (user : option User)
(** [currentSession.save()] has resolved, before [await Session.create] *)
| AtCreate (tokenPair : TokenPair) (deviceId : string) (doc : Session)
(** the response is sent or the error thrown *)
| Finished (r : Outcome TokenResponse).

(** One request to [/refresh] in flight. *)
Record Attempt := mkAttempt {
  a_clock : Clock;
  a_nextTokenId : string;
  a_body : RefreshBody;
  a_pc : RefreshPc
}.

Definition startAttempt (clock : Clock) (nextTokenId : string)
  (body : RefreshBody) : Attempt :=
  mkAttempt clock nextTokenId body AtLookup.

Definition withPc (a : Attempt) (pc : RefreshPc) : Attempt :=
  mkAttempt (a_clock a) (a_nextTokenId a) (a_body a) pc.

Inductive LoginPc :=
(** before [await User.findOne] *)
| AtFindUser
(** [User.findOne] has resolved, before [await bcrypt.compare] *)
| AtCompare (password providedDeviceId : string) (user : option User)
(** [bcrypt.compare] has resolved, before [await Session.updateMany] *)
| AtIssue (providedDeviceId : string) (user : User) (isValid : bool)
(** [Session.updateMany] has resolved, before [await Session.create] *)
| AtHead (tokenPair : TokenPair) (deviceId : string) (doc : Session)
(** the response is sent or the error thrown *)
| LoggedIn (r : Outcome TokenResponse).

(** One request to [/login] in flight. *)
Record LoginAttempt := mkLoginAttempt {
  l_now : Z;
  l_rnd : Uuids;
  l_body : LoginBody;
  l_pc : LoginPc
}.

Definition startLogin (now : Z) (rnd : Uuids) (body : LoginBody) : LoginAttempt :=
  mkLoginAttempt now rnd body AtFindUser.

Definition withLoginPc (l : LoginAttempt) (pc : LoginPc) : LoginAttempt :=
  mkLoginAttempt (l_now l) (l_rnd l) (l_body l) pc.

(** A request in flight. *)
Inductive Request :=
| Rotation (a : Attempt)
| Login (l : LoginAttempt).

Section Steps.
Context `{Externals}.
Variable env : Env.
Variable users : list User.

(** The code of [/refresh] up to and including its next [await]. *)
Definition refreshStep (a : Attempt) (s : Store) : Store * RefreshPc :=
  let clock := a_clock a in
  match a_pc a with
  | AtLookup =>
      let refreshToken := orEmpty (rb_refreshToken (a_body a)) in
      if isEmpty refreshToken
      then (s, Finished (Throw (ThrowApp
                           (ValidationError "refreshToken is required"))))
      else
        match verifyRefreshToken env (atVerify clock) refreshToken with
        | Throw e => (s, Finished (Throw e))
        | Ok payload =>
            let tokenHash := hashToken refreshToken in
            match castObjectId (p_sub payload) with
            | None => (s, Finished (Throw (ThrowCastError "userId")))
            | Some uid =>
                (s, AtBranch payload uid tokenHash
                             (findOne (matchesCredential tokenHash uid payload) s))
            end
        end
  | AtBranch payload uid tokenHash None =>
      (revokeAllUserSessions (atFound clock) uid
                             "REFRESH_TOKEN_REUSE_OR_UNKNOWN" s,
       Finished (Throw (ThrowApp (AuthError "Refresh token is invalid"))))
  | AtBranch payload uid tokenHash (Some (i, currentSession)) =>
      if negb (status_eqb (status currentSession) active)
      then (revokeAllUserSessions (atFound clock) uid
                                  "REFRESH_TOKEN_REUSE_DETECTED" s,
            Finished (Throw (ThrowApp (AuthError
                       "Refresh token reuse detected. All sessions revoked."))))
      else if expiresAt currentSession <=? atFound clock
      then (save i (setRevoked (atFound clock) "REFRESH_TOKEN_EXPIRED") s,
            Finished (Throw (ThrowApp (AuthError "Refresh token is expired"))))
      else (s, AtRotate payload uid tokenHash i (findById uid users))
  | AtRotate payload uid tokenHash i None =>
      (revokeAllUserSessions (atUser clock) uid "USER_NOT_FOUND" s,
       Finished (Throw (ThrowApp (AuthError "User account not found"))))
  | AtRotate payload uid tokenHash i (Some user) =>
      match issueTokenPair env (atUser clock)
              (mkIssueParams (u_id user) (role user) (p_deviceId payload)
                             (p_familyId payload) (a_nextTokenId a)) with
      | Throw e => (s, Finished (Throw e))
      | Ok tokenPair =>
          let nextHash := hashToken (tp_refreshToken tokenPair) in
          (save i (setConsumed (atUser clock) nextHash) s,
           AtCreate tokenPair (p_deviceId payload)
                    (mkSession (u_id user) (p_deviceId payload)
                               (p_familyId payload) (a_nextTokenId a) nextHash
                               (Some tokenHash) None active None None None
                               (tp_refreshExpiresAt tokenPair)))
      end
  | AtCreate tokenPair deviceId doc =>
      match create doc s with
      | Throw e => (s, Finished (Throw e))
      | Ok s2 =>
          (s2, Finished (Ok (mkTokenResponse (tp_accessToken tokenPair)
                                             (tp_refreshToken tokenPair)
                                             deviceId)))
      end
  | Finished r => (s, Finished r)
  end.

Definition stepAttempt (a : Attempt) (s : Store) : Store * Attempt :=
  let '(s', pc) := refreshStep a s in (s', withPc a pc).

(** The code of [/login] up to and including its next [await]. *)
Definition loginStep (l : LoginAttempt) (s : Store) : Store * LoginPc :=
  let now := l_now l in
  let rnd := l_rnd l in
  match l_pc l with
  | AtFindUser =>
      let email := js_toLowerCase (js_trim (orEmpty (lb_email (l_body l)))) in
      let password := orEmpty (lb_password (l_body l)) in
      let providedDeviceId := js_trim (orEmpty (lb_deviceId (l_body l))) in
      if isEmpty email || isEmpty password
      then (s, LoggedIn (Throw (ThrowApp
                           (ValidationError "email and password are required"))))
      else (s, AtCompare password providedDeviceId (findUserByEmail email users))
  | AtCompare password providedDeviceId None =>
      (s, LoggedIn (Throw (ThrowApp (AuthError "Invalid email or password"))))
  | AtCompare password providedDeviceId (Some user) =>
      (s, AtIssue providedDeviceId user
                  (bcrypt_compare password (passwordHash user)))
  | AtIssue providedDeviceId user isValid =>
      if negb isValid
      then (s, LoggedIn (Throw (ThrowApp (AuthError "Invalid email or password"))))
      else
        let deviceId := if isEmpty providedDeviceId then newDeviceId rnd
                        else providedDeviceId in
        let familyId := newFamilyId rnd in
        let tokenId := newTokenId rnd in
        match issueTokenPair env now
                (mkIssueParams (u_id user) (role user) deviceId familyId tokenId) with
        | Throw e => (s, LoggedIn (Throw e))
        | Ok tokenPair =>
            (revokeActiveForDevice now (u_id user) deviceId s,
             AtHead tokenPair deviceId
                    (mkSession (u_id user) deviceId familyId tokenId
                               (hashToken (tp_refreshToken tokenPair))
                               None None active None None None
                               (tp_refreshExpiresAt tokenPair)))
        end
  | AtHead tokenPair deviceId doc =>
      match create doc s with
      | Throw e => (s, LoggedIn (Throw e))
      | Ok s2 =>
          (s2, LoggedIn (Ok (mkTokenResponse (tp_accessToken tokenPair)
                                             (tp_refreshToken tokenPair)
                                             deviceId)))
      end
  | LoggedIn r => (s, LoggedIn r)
  end.

Definition stepLogin (l : LoginAttempt) (s : Store) : Store * LoginAttempt :=
  let '(s', pc) := loginStep l s in (s', withLoginPc l pc).

Definition stepRequest (r : Request) (s : Store) : Store * Request :=
  match r with
  | Rotation a => let '(s', a') := stepAttempt a s in (s', Rotation a')
  | Login l => let '(s', l') := stepLogin l s in (s', Login l')
  end.

(** [n] consecutive operations of one request. *)
Fixpoint runAttempt (n : nat) (a : Attempt) (s : Store) : Store * Attempt :=
  match n with
  | O => (s, a)
  | S n' => let '(s', a') := stepAttempt a s in runAttempt n' a' s'
  end.

Fixpoint runLogin (n : nat) (l : LoginAttempt) (s : Store) : Store * LoginAttempt :=
  match n with
  | O => (s, l)
  | S n' => let '(s', l') := stepLogin l s in runLogin n' l' s'
  end.

(** Two requests in flight; the schedule says whose operation runs next
    ([true]: the first request). *)
Fixpoint interleave (schedule : list bool) (a b : Attempt) (s : Store)
  : Store * Attempt * Attempt :=
  match schedule with
  | [] => (s, a, b)
  | true :: rest => let '(s', a') := stepAttempt a s in interleave rest a' b s'
  | false :: rest => let '(s', b') := stepAttempt b s in interleave rest a b' s'
  end.

(** Any number of requests in flight; the schedule names, by its place in
    the pool, the request whose operation runs next. *)
Fixpoint runPool (schedule : list nat) (pool : list Request) (s : Store)
  : Store * list Request :=
  match schedule with
  | [] => (s, pool)
  | k :: rest =>
      match pool !! k with
      | Some r =>
          let '(s', r') := stepRequest r s in
          runPool rest (<[k := r']> pool) s'
      | None => runPool rest pool s
      end
  end.

Definition succeeded (a : Attempt) : bool :=
  match a_pc a with
  | Finished (Ok _) => true
  | _ => false
  end.

(** The response of a request that has been answered. *)
Definition answer (r : Request) : option (Outcome TokenResponse) :=
  match r with
  | Rotation a => match a_pc a with
                  | Finished out => Some out
                  | _ => None
                  end
  | Login l => match l_pc l with
               | LoggedIn out => Some out
               | _ => None
               end
  end.

(** ** The operations of the core on the ledger *)

(** An operation is a whole request, served with no operation of another
    request between its own, or one of the two bulk revocations. *)
Inductive CoreOp :=
| OpLogin (now : Z) (rnd : Uuids) (body : LoginBody)
| OpRotate (clock : Clock) (nextTokenId : string) (body : RefreshBody)
| OpRevokeAll (now : Z) (uid reason : string)
| OpRevokeForDevice (now : Z) (uid dev : string).

Definition applyOp (op : CoreOp) (s : Store) : Store :=
  match op with
  | OpLogin now rnd body => fst (login env users now rnd body s)
  | OpRotate clock tid body => fst (refresh env users clock tid body s)
  | OpRevokeAll now uid reason => revokeAllUserSessions now uid reason s
  | OpRevokeForDevice now uid dev => revokeActiveForDevice now uid dev s
  end.

(** A ledger row is bound to its credential when every token with the row's
    hash that verifies carries the row's device. *)
Definition deviceBound (d : Session) : Prop :=
  forall now token p,
    hashToken token = refreshTokenHash d ->
    verifyRefreshToken env now token = Ok p ->
    p_deviceId p = deviceId d.

Definition ledgerBound (s : Store) : Prop :=
  forall d, d ∈ s -> deviceBound d.
End Steps.

(** [active] precedes [consumed] precedes [revoked]. *)
Definition status_rank (st : SessionStatus) : nat :=
  match st with
  | active => 0
  | consumed => 1
  | revoked => 2
  end.

Definition status_leb (a b : SessionStatus) : bool :=
  Nat.leb (status_rank a) (status_rank b).

(** The ledgers the core produces from the empty collection when it serves
    its requests one at a time. *)
Inductive reachable `{Externals} (env : Env) (users : list User) : Store -> Prop :=
| reachable_empty : reachable env users []
| reachable_step op s :
    reachable env users s -> reachable env users (applyOp env users op s).

(** Row by row, the ledger [s'] is [s] moved forward: every row of [s] is still
    at its place, its status has not gone back in the order above, and a
    revoked row is unchanged. *)
Definition ledgerAdvances (s s' : Store) : Prop :=
  forall i d, s !! i = Some d ->
    exists d', s' !! i = Some d'
               /\ status_leb (status d) (status d') = true
               /\ (status d = revoked -> d' = d).

(** The error of the reuse branch of [/refresh], lines 145-148. *)
Definition reuseDetected : Thrown :=
  ThrowApp (AuthError "Refresh token reuse detected. All sessions revoked.").

(** The first row of the ledger that matches the credential is at [i] and is
    no longer active. *)
Definition staleAt (h uid : string) (p : RefreshClaims) (i : nat) (s : Store)
  : Prop :=
  exists cur,
    s !! i = Some cur /\ matchesCredential h uid p cur = true
    /\ status cur <> active
    /\ forall j d, (j < i)%nat -> s !! j = Some d ->
                   matchesCredential h uid p d = false.

(** Where a request can be when it has looked the credential up only in
    ledgers in which it was stale: it has not looked up yet, or it holds a row
    that is not active, or it has failed, with the reuse error whenever
    its credential verifies. *)
Definition losing `{Externals} (env : Env) (h uid : string) (p : RefreshClaims)
  (i : nat) (b : Attempt) : Prop :=
  a_pc b = AtLookup
  \/ (exists c, a_pc b = AtBranch p uid h (Some (i, c)) /\ status c <> active)
  \/ (exists e, a_pc b = Finished (Throw e)
                /\ forall q, verifyRefreshToken env (atVerify (a_clock b))
                               (orEmpty (rb_refreshToken (a_body b))) = Ok q ->
                             e = reuseDetected).

(** A request that has nothing left to do but [Session.create]. *)
Definition pastSave (a : Attempt) : Prop :=
  match a_pc a with
  | AtCreate _ _ _ | Finished _ => True
  | _ => False
  end.

(** ** A reference implementation of the externals

    A self-delimiting serialisation stands for the signed token: every field
    is preceded by its length in unary, and the secret is the first field.
    The digest is a tagged copy of its input.  The examples use lower-case
    strings without surrounding blanks, on which [trim] and [toLowerCase] are
    the identity.  A string is cast to an [ObjectId] when it is 24 hexadecimal
    digits, and the [ObjectId] is written in lower case. *)

Module Reference.
Fixpoint tally (n : nat) : string :=
  match n with
  | O => ":"
  | S n' => String "x"%char (tally n')
  end.

Definition field (f : string) : string :=
  String.append (tally (String.length f)) f.

Fixpoint fields (l : list string) : string :=
  match l with
  | [] => ""
  | f :: l' => String.append (field f) (fields l')
  end.

Fixpoint untally (t : string) : option (nat * string) :=
  match t with
  | EmptyString => None
  | String c r =>
      if Ascii.eqb c ":"%char then Some (O, r)
      else if Ascii.eqb c "x"%char
           then match untally r with
                | Some (n, r') => Some (S n, r')
                | None => None
                end
           else None
  end.

Fixpoint chop (n : nat) (t : string) : option (string * string) :=
  match n with
  | O => Some ("", t)
  | S n' =>
      match t with
      | EmptyString => None
      | String c r =>
          match chop n' r with
          | Some (a, b) => Some (String c a, b)
          | None => None
          end
      end
  end.

Definition unfield (t : string) : option (string * string) :=
  match untally t with
  | Some (n, r) => chop n r
  | None => None
  end.

Fixpoint unfields (k : nat) (t : string) : option (list string) :=
  match k with
  | O => if String.eqb t "" then Some [] else None
  | S k' =>
      match unfield t with
      | Some (f, r) =>
          match unfields k' r with
          | Some l => Some (f :: l)
          | None => None
          end
      | None => None
      end
  end.

Fixpoint bits (p : positive) : string :=
  match p with
  | xH => ""
  | xO q => String "0"%char (bits q)
  | xI q => String "1"%char (bits q)
  end.

Fixpoint unbits (t : string) : option positive :=
  match t with
  | EmptyString => Some xH
  | String c r =>
      match unbits r with
      | Some q => if Ascii.eqb c "0"%char then Some (xO q)
                  else if Ascii.eqb c "1"%char then Some (xI q) else None
      | None => None
      end
  end.

Definition numeral (z : Z) : string :=
  match z with
  | Z0 => "z"
  | Zpos p => String "p"%char (bits p)
  | Zneg p => String "n"%char (bits p)
  end.

Definition unnumeral (t : string) : option Z :=
  match t with
  | EmptyString => None
  | String c r =>
      if Ascii.eqb c "z"%char then (if String.eqb r "" then Some Z0 else None)
      else if Ascii.eqb c "p"%char then Zpos <$> unbits r
      else if Ascii.eqb c "n"%char then Zneg <$> unbits r
      else None
  end.

Definition payloadFields (p : Payload) : list string :=
  match p with
  | AccessPayload sub USER => ["access"; sub; "USER"; ""; ""]
  | AccessPayload sub ADMIN => ["access"; sub; "ADMIN"; ""; ""]
  | RefreshPayload sub dev fam tok => ["refresh"; sub; dev; fam; tok]
  end.

Definition unpayload (ty a b c d : string) : option Payload :=
  if String.eqb ty "refresh" then Some (RefreshPayload a b c d)
  else if String.eqb ty "access" && String.eqb c "" && String.eqb d ""
  then (if String.eqb b "USER" then Some (AccessPayload a USER)
        else if String.eqb b "ADMIN" then Some (AccessPayload a ADMIN)
        else None)
  else None.

Definition encode (c : Claims) (secret : string) : string :=
  fields (secret :: payloadFields (c_payload c)
                 ++ [numeral (c_iat c); numeral (c_exp c)]).

Definition decode (token secret : string) : option Claims :=
  match unfields 8 token with
  | Some [sec; ty; a; b; c; d; i; e] =>
      if String.eqb sec secret
      then match unpayload ty a b c d, unnumeral i, unnumeral e with
           | Some p, Some iat, Some exp => Some (mkClaims p iat exp)
           | _, _, _ => None
           end
      else None
  | _ => None
  end.

Definition digest (t : string) : string := String "#"%char t.

Definition isHexDigit (c : ascii) : bool :=
  let n := nat_of_ascii c in
  ((48 <=? n) && (n <=? 57) || (65 <=? n) && (n <=? 70)
   || (97 <=? n) && (n <=? 102))%nat.

Definition lowerHexDigit (c : ascii) : ascii :=
  let n := nat_of_ascii c in
  if ((65 <=? n) && (n <=? 70))%nat then ascii_of_nat (n + 32) else c.

Fixpoint mapChars (f : ascii -> ascii) (t : string) : string :=
  match t with
  | EmptyString => EmptyString
  | String c r => String (f c) (mapChars f r)
  end.

Fixpoint forallChars (ok : ascii -> bool) (t : string) : bool :=
  match t with
  | EmptyString => true
  | String c r => ok c && forallChars ok r
  end.

Definition objectIdOf (t : string) : option string :=
  if Nat.eqb (String.length t) 24 && forallChars isHexDigit t
  then Some (mapChars lowerHexDigit t) else None.

#[export] Instance externals : Externals := {|
  jwt_encode := encode;
  jwt_decode := decode;
  sha256_hex := digest;
  bcrypt_compare := fun password hash => String.eqb hash (String "$"%char password);
  js_trim := fun x => x;
  js_toLowerCase := fun x => x;
  castObjectId := objectIdOf
|}.

(** The ids of the users of the examples. *)
Definition aliceId : string := "65a1f0c2b3d4e5f60718293a".
Definition bobId : string := "65a1f0c2b3d4e5f60718293b".
Definition carolId : string := "65a1f0c2b3d4e5f60718293c".
Definition daveId : string := "65a1f0c2b3d4e5f60718293d".

(** A deployment with two secrets of 32 characters and one user. *)
Definition env : Env :=
  mkEnv (Some "access-secret-0123456789abcdefgh")
        (Some "refresh-secret-0123456789abcdefg").

Definition alice : User := mkUser aliceId "alice@example.org" "$wonderland" USER.

Definition users : list User := [alice].

Definition aliceLogin (dev : option string) : LoginBody :=
  mkLoginBody (Some "alice@example.org") (Some "wonderland") dev.

(** The ledger and the response after Alice's first login at instant 0. *)
Definition afterLogin : Store * Outcome TokenResponse :=
  login env users 0 (mkUuids "d1" "f1" "t1") (aliceLogin None) [].

Definition ledger1 : Store := fst afterLogin.

Definition token1 : string :=
  match snd afterLogin with
  | Ok r => refreshToken r
  | Throw _ => ""
  end.

Definition present (token : string) : RefreshBody :=
  mkRefreshBody (Some token).

Definition noResponse : TokenResponse := mkTokenResponse "" "" "".

Definition response1 : TokenResponse :=
  match snd afterLogin with
  | Ok r => r
  | Throw _ => noResponse
  end.

(** What the payload of [token1] says. *)
Definition claims1 : RefreshClaims := mkRefreshClaims aliceId "d1" "f1" "t1".

(** Alice rotates [token1] at instant 5. *)
Definition afterRotation : Store * Outcome TokenResponse :=
  refresh env users (instant 5) "t2" (present token1) ledger1.

Definition ledger2 : Store := fst afterRotation.

Definition response2 : TokenResponse :=
  match snd afterRotation with
  | Ok r => r
  | Throw _ => noResponse
  end.

(** Alice logs in again on the same device at instant 7. *)
Definition afterRelogin : Store * Outcome TokenResponse :=
  login env users 7 (mkUuids "d9" "f2" "t5") (aliceLogin (Some "d1")) ledger1.

Definition ledger3 : Store := fst afterRelogin.

Definition response3 : TokenResponse :=
  match snd afterRelogin with
  | Ok r => r
  | Throw _ => noResponse
  end.

(** A token signed with the refresh secret for a link that was never
    issued. *)
Definition forged : string :=
  signToken 0 (RefreshPayload aliceId "d1" "f1" "t9")
            "refresh-secret-0123456789abcdefg" REFRESH_TOKEN_TTL.

Definition claimsForged : RefreshClaims := mkRefreshClaims aliceId "d1" "f1" "t9".

(** A ledger in which the row of [token1] expires at instant 3, next to
    another active row of Alice. *)
Definition shortLedger : Store :=
  [ mkSession aliceId "d2" "f7" "t7" "other" None None active None None None 900;
    mkSession aliceId "d1" "f1" "t1" (digest token1) None None active
              None None None 3 ].

Definition shortRow : Session :=
  mkSession aliceId "d1" "f1" "t1" (digest token1) None None active
            None None None 3.

(** Two requests with [token1], alternating operation by operation. *)
Definition alternating : list bool :=
  [true; false; true; false; true; false; true; false].

(** A token signed with the refresh secret whose subject is no [ObjectId]. *)
Definition forgedStranger : string :=
  signToken 0 (RefreshPayload "not-an-object-id" "d1" "f1" "t9")
            "refresh-secret-0123456789abcdefg" REFRESH_TOKEN_TTL.

Definition claimsStranger : RefreshClaims :=
  mkRefreshClaims "not-an-object-id" "d1" "f1" "t9".

(** A request whose token is verified in the last millisecond of its last
    second and whose row is checked one millisecond later. *)
Definition lateClock : Clock := mkClock 604799999 604800000 604800000.

(** Alice logs in again on device [d1] at instant 7 while a rotation of
    [token1] is in flight. *)
Definition reloginBesideRotation : list Request :=
  [ Login (startLogin 7 (mkUuids "d9" "f2" "t5") (aliceLogin (Some "d1")));
    Rotation (startAttempt (instant 5) "t2" (present token1)) ].

(** The rotation looks its row and its user up; the login runs up to its
    [updateMany]; the rotation saves and creates; the login creates. *)
Definition rotationAroundRelogin : list nat :=
  [1; 1; 0; 0; 0; 1; 1; 0]%nat.

(** The token the rotation of [token1] returns. *)
Definition token2 : string := refreshToken response2.

(** The rotation of [token2] looks its row and its user up; a replay of
    [token1] looks up and revokes; the rotation saves and creates. *)
Definition rotationAroundReplay : list bool :=
  [true; true; false; false; true; true].
End Reference.

(** ** routes/auth.ts: registration *)

Record RegisterBody := mkRegisterBody {
  gb_email : option string;
  gb_password : option string
}.

(** The [data] of the response of [/register]. *)
Record RegisterResponse := mkRegisterResponse {
  rr_userId : string;
  rr_email : string
}.

Section Registration.
Context `{Externals}.
(** [bcrypt.hash(password, rounds)] *)
Variable bcrypt_hash : string -> Z -> string.

(** [router.post('/register')]; [newId] is the [_id] the store gives the new
    document.  The document is created with the e-mail the handler has
    normalised, which the setters of the schema leave as it is. *)
Definition register (newId : string) (body : RegisterBody) (users : list User)
  : list User * Outcome RegisterResponse :=
  let email := js_toLowerCase (js_trim (orEmpty (gb_email body))) in
  let password := orEmpty (gb_password body) in
  if isEmpty email || isEmpty password
  then (users, Throw (ThrowApp (ValidationError "email and password are required")))
  else if Z.of_nat (jsLength password) <? 8
  then (users, Throw (ThrowApp (ValidationError
                        "password must be at least 8 characters")))
  else
    match findUserByEmail email users with
    | Some _ =>
        (users, Throw (ThrowApp (ValidationError "email is already registered")))
    | None =>
        let passwordHash := bcrypt_hash password 12 in
        (users ++ [mkUser newId email passwordHash USER],
         Ok (mkRegisterResponse newId email))
    end.
End Registration.

(** ** What a row never loses *)

(** The fields of a row that say whose it is, which credential it stands for
    and until when. *)
Definition sameIdentity (d d' : Session) : Prop :=
  userId d' = userId d /\ deviceId d' = deviceId d
  /\ familyId d' = familyId d /\ tokenId d' = tokenId d
  /\ refreshTokenHash d' = refreshTokenHash d
  /\ parentTokenHash d' = parentTokenHash d
  /\ expiresAt d' = expiresAt d.

(** Every row of [s] is still at its place in [s'], with the same identity. *)
Definition ledgerKeeps (s s' : Store) : Prop :=
  forall i d, s !! i = Some d ->
    exists d', s' !! i = Some d' /\ sameIdentity d d'.

(** Row by row, the ledger [s'] is [s] with nothing taken back: every row of
    [s] is still at its place with the same identity, and a row that was no
    longer active is not active. *)
Definition ledgerSettles (s s' : Store) : Prop :=
  forall i d, s !! i = Some d ->
    exists d', s' !! i = Some d'
               /\ sameIdentity d d'
               /\ (status d <> active -> status d' <> active).

(** The row [d'] is the row [d] revoked at [now] for [reason]: the three
    fields of the revocation are written and nothing else has changed. *)
Definition revokedFrom (now : Z) (reason : string) (d d' : Session) : Prop :=
  status d' = revoked /\ revokedAt d' = Some now /\ revokedReason d' = Some reason
  /\ sameIdentity d d'
  /\ replacedByHash d' = replacedByHash d /\ consumedAt d' = consumedAt d.

(** The row [d'] is the row [d] consumed at [now] in favour of the credential
    with hash [nextHash]. *)
Definition consumedFrom (now : Z) (nextHash : string) (d d' : Session) : Prop :=
  status d' = consumed /\ consumedAt d' = Some now
  /\ replacedByHash d' = Some nextHash
  /\ sameIdentity d d'
  /\ revokedAt d' = revokedAt d /\ revokedReason d' = revokedReason d.

(** A row outlives its credential when every token with the row's hash that
    verifies at an instant does so before the row's [expiresAt]. *)
Definition outlivesToken `{Externals} (env : Env) (d : Session) : Prop :=
  forall now token p,
    hashToken token = refreshTokenHash d ->
    verifyRefreshToken env now token = Ok p ->
    now < expiresAt d.

Definition ledgerOutlives `{Externals} (env : Env) (s : Store) : Prop :=
  forall d, d ∈ s -> outlivesToken env d.

(** ** middleware/errorHandler.ts and middleware/notFound.ts *)

(** What reaches the error handler: what a handler throws, the [CastError]
    of Mongoose among it, or the [ValidationError] of Mongoose. *)
Inductive Raised :=
| RaisedThrown (t : Thrown)
| RaisedMongooseValidation (msg : string).


Definition doubleQuote : ascii := ascii_of_nat 34.

(** [`Invalid value for field "${error.path}"`] *)
Definition invalidValue (path : string) : string :=
  String.append "Invalid value for field "
    (String doubleQuote (String.append path (String doubleQuote ""))).

Definition toAppError (error : Raised) : AppError :=
  match error with
  | RaisedThrown (ThrowApp e) => e
  | RaisedMongooseValidation msg => ValidationError msg
  | RaisedThrown (ThrowCastError path) => ValidationError (invalidValue path)
  | RaisedThrown _ =>
      mkAppError "AppError" "Internal server error" 500 "INTERNAL_SERVER_ERROR"
                 false
  end.

(** The status and the JSON body [{ success: false, error: { code, message } }]. *)
Record ErrorResponse := mkErrorResponse {
  er_status : Z;
  er_code : string;
  er_message : string
}.

Definition errorHandler (error : Raised) : ErrorResponse :=
  let appError := toAppError error in
  let statusCode := if statusCode appError =? 0 then 500 else statusCode appError in
  let isServerError := 500 <=? statusCode in
  let safeMessage := if isServerError then "Internal server error"
                     else message appError in
  let safeCode := if isServerError then "INTERNAL_SERVER_ERROR"
                  else code appError in
  mkErrorResponse statusCode safeCode safeMessage.

(** The answers the handlers of [routes/auth.ts] can end in. *)
Definition answeredAs (e : Thrown) : Prop :=
  let r := errorHandler (RaisedThrown e) in
  (er_status r = 400 /\ er_code r = "VALIDATION_ERROR"
   /\ exists m, e = ThrowApp (ValidationError m) /\ er_message r = m)
  \/ (er_status r = 400 /\ er_code r = "VALIDATION_ERROR"
      /\ e = ThrowCastError "userId"
      /\ er_message r = invalidValue "userId")
  \/ (er_status r = 401 /\ er_code r = "AUTH_ERROR"
      /\ exists m, e = ThrowApp (AuthError m) /\ er_message r = m)
  \/ (er_status r = 500 /\ er_code r = "INTERNAL_SERVER_ERROR"
      /\ er_message r = "Internal server error").

(** [next(new AppError(`Route ${method} ${originalUrl} not found`, 404, 'NOT_FOUND'))] *)
Definition notFoundHandler (method originalUrl : string) : AppError :=
  newAppError
    (String.append "Route "
       (String.append method
          (String.append " " (String.append originalUrl " not found"))))
    404 "NOT_FOUND".

(** ** middleware/adminAuth.ts *)

Definition readAccessSecret (env : Env) : Outcome string :=
  match JWT_ACCESS_SECRET env with
  | Some sec =>
      if (Z.of_nat (jsLength sec) <? 32)
      then Throw (ThrowApp (newAppError "JWT_ACCESS_SECRET is not configured"
                                        500 "AUTH_CONFIG_ERROR"))
      else Ok sec
  | None => Throw (ThrowApp (newAppError "JWT_ACCESS_SECRET is not configured"
                                         500 "AUTH_CONFIG_ERROR"))
  end.

(** [authorization.replace('Bearer ', '')] for a header that starts with
    ['Bearer ']: the first occurrence is the prefix. *)
Definition dropBearer (authorization : string) : string :=
  String.substring 7 (String.length authorization - 7) authorization.

Section AdminAuth.
Context `{Externals}.

(** [requireAdmin]: [None] is [next()], [Some e] is [next(e)]. *)
Definition requireAdmin (env : Env) (now : Z) (authorization : option string)
  : option AppError :=
  match authorization with
  | None => Some (AuthError "Missing bearer token")
  | Some header =>
      if isEmpty header || negb (String.prefix "Bearer " header)
      then Some (AuthError "Missing bearer token")
      else
        let token := js_trim (dropBearer header) in
        match readAccessSecret env with
        | Throw (ThrowApp e) => Some e
        | Throw _ => Some (AuthError "Invalid or expired access token")
        | Ok secret =>
            match jwt_verify now token secret with
            | None => Some (AuthError "Invalid or expired access token")
            | Some (AccessPayload _ ADMIN) => None
            | Some _ => Some (AuthError "Admin access required")
            end
        end
  end.
End AdminAuth.

(** ** JavaScript values at the edge of the program

    A JavaScript number is a rational, [NaN] or an infinity; the comparisons of
    the code are made on finite numbers only.  What a request or the
    environment hands over is an opaque value; [undefined] is the absence of
    one.  The conversions and tests the code applies to such values are the
    fields of [JsRuntime]. *)

Inductive JsNum :=
| JsFinite (q : Q)
| JsNaN
| JsPosInf
| JsNegInf.

Class JsRuntime := {
  JsValue : Type;
  (** [Number(value)] *)
  js_Number : JsValue -> JsNum;
  (** [String(value)] *)
  js_String : JsValue -> string;
  (** [value === null] *)
  js_isNull : JsValue -> bool;
  (** [value === ''] *)
  js_isEmptyString : JsValue -> bool;
  (** the truthiness of a value *)
  js_truthy : JsValue -> bool;
  (** [Array.isArray(value)], with the elements *)
  js_asArray : JsValue -> option (list JsValue);
  (** [Number(text)] for a string *)
  js_parseNumber : string -> JsNum;
  (** whether [new URL(text)] returns *)
  js_validUrl : string -> bool
}.

(** [Number(value)] for a value that may be [undefined] *)
Definition numberOf `{JsRuntime} (value : option JsValue) : JsNum :=
  match value with
  | Some v => js_Number v
  | None => JsNaN
  end.

(** [a < b] and [a <= b] on finite numbers *)
Definition Qltb (a b : Q) : bool := negb (Qle_bool b a).
Definition Qleb (a b : Q) : bool := Qle_bool a b.

(** [Number.isInteger] on a finite number *)
Definition Q_isInteger (q : Q) : bool := (Qnum q mod Zpos (Qden q) =? 0).

(** [Math.max] and [Math.min] on finite numbers *)
Definition Q_max (a b : Q) : Q := if Qle_bool a b then b else a.
Definition Q_min (a b : Q) : Q := if Qle_bool a b then a else b.

(** [values.join(', ')] *)
Fixpoint joinWith (sep : string) (values : list string) : string :=
  match values with
  | [] => ""
  | [v] => v
  | v :: rest => String.append v (String.append sep (joinWith sep rest))
  end.

(** The decimal writing of an integer inside a template string. *)
Definition showZ (z : Z) : string := NilZero.string_of_int (Z.to_int z).

(** ** libs/config/validate-env.cjs *)

(** A validator takes the key and the value, [undefined] when the variable is
    not set, and returns an error message or [null]. *)
Abbreviation Validator := (string -> option string -> option string).

(** [String(value)] for a value of the environment *)
Definition envString (value : option string) : string :=
  match value with
  | Some v => v
  | None => "undefined"
  end.

Definition isRequired : Validator :=
  fun key value =>
    match value with
    | Some v =>
        if isEmpty v
        then Some (String.append "❌ Missing Env Var: " (String.append key " is required"))
        else None
    | None => Some (String.append "❌ Missing Env Var: " (String.append key " is required"))
    end.

Definition isDigit (c : ascii) : bool :=
  (48 <=? nat_of_ascii c)%nat && (nat_of_ascii c <=? 57)%nat.

Fixpoint allChars (ok : ascii -> bool) (text : string) : bool :=
  match text with
  | EmptyString => true
  | String c rest => ok c && allChars ok rest
  end.

(** [/^\d+$/.test(text)] *)
Definition isDigits (text : string) : bool :=
  negb (isEmpty text) && allChars isDigit text.

Definition isWholeNumber : Validator :=
  fun key value =>
    if isDigits (envString value) then None
    else Some (String.append "❌ Invalid Env Var: "
                 (String.append key " must be a whole number")).

Definition isInRange `{JsRuntime} (min max : Z) : Validator :=
  fun key value =>
    let failure :=
      Some (String.append "❌ Invalid Env Var: "
              (String.append key
                 (String.append " must be between "
                    (String.append (showZ min)
                       (String.append " and " (showZ max)))))) in
    match (match value with
           | Some v => js_parseNumber v
           | None => JsNaN
           end) with
    | JsFinite number =>
        if Qltb number (inject_Z min) || Qltb (inject_Z max) number
        then failure else None
    | _ => failure
    end.

Definition isUrl `{JsRuntime} : Validator :=
  fun key value =>
    match value with
    | Some v =>
        if js_validUrl v then None
        else Some (String.append "❌ Invalid Env Var: "
                     (String.append key " must be a valid URL"))
    | None => Some (String.append "❌ Invalid Env Var: "
                      (String.append key " must be a valid URL"))
    end.

Definition minLength (length : Z) : Validator :=
  fun key value =>
    if Z.of_nat (jsLength (envString value)) <? length
    then Some (String.append "❌ Invalid Env Var: "
                 (String.append key
                    (String.append " must be at least "
                       (String.append (showZ length) " characters"))))
    else None.

Definition oneOf (values : list string) : Validator :=
  fun key value =>
    if existsb (String.eqb (envString value)) values then None
    else Some (String.append "❌ Invalid Env Var: "
                 (String.append key
                    (String.append " must be one of: " (joinWith ", " values)))).

(** [matches(regex, message)], the regular expression as its test *)
Definition matchesRegex (test : string -> bool) (message : string) : Validator :=
  fun key value =>
    if test (envString value) then None
    else Some (String.append "❌ Invalid Env Var: "
                 (String.append key (String.append " " message))).

Definition isBase32 (c : ascii) : bool :=
  ((65 <=? nat_of_ascii c)%nat && (nat_of_ascii c <=? 90)%nat)
  || ((50 <=? nat_of_ascii c)%nat && (nat_of_ascii c <=? 55)%nat).

(** [/^S[A-Z2-7]{55}$/.test(text)] *)
Definition isStellarSecret (text : string) : bool :=
  match text with
  | String c rest =>
      Ascii.eqb c "S"%char && Nat.eqb (String.length rest) 55
      && allChars isBase32 rest
  | EmptyString => false
  end.

Abbreviation Schema := (list (string * list Validator)).

(** The names every object literal answers to besides its own keys. *)
Definition objectPrototypeMembers : list string :=
  ["constructor"; "__proto__"; "hasOwnProperty"; "isPrototypeOf";
   "propertyIsEnumerable"; "toLocaleString"; "toString"; "valueOf";
   "__defineGetter__"; "__defineSetter__"; "__lookupGetter__";
   "__lookupSetter__"].

Section EnvSchemas.
Context `{JsRuntime}.

Definition stellarSchema : Schema :=
  [ ("STELLAR_NETWORK", [isRequired; oneOf ["TESTNET"; "MAINNET"]]);
    ("STELLAR_SECRET_KEY",
     [isRequired; matchesRegex isStellarSecret "must be a valid Stellar secret key"]) ].

Definition apiSchema : Schema :=
  [ ("API_PORT", [isRequired; isWholeNumber; isInRange 1 65535]);
    ("MONGO_URI", [isRequired; isUrl]);
    ("JWT_ACCESS_SECRET", [isRequired; minLength 32]);
    ("JWT_REFRESH_SECRET", [isRequired; minLength 32]) ]
  ++ stellarSchema.

Definition adminWebSchema : Schema :=
  [ ("NEXT_PUBLIC_API_URL", [isRequired; isUrl]);
    ("ADMIN_JWT_SECRET", [isRequired; minLength 32]) ].

Definition mobileSchema : Schema :=
  [ ("EXPO_PUBLIC_API_URL", [isRequired; isUrl]) ].

(** [envSchemas[target]]: the lookup on the object literal also finds what
    the object inherits from [Object.prototype]; each of these is truthy and
    has no entries of its own. *)
Definition envSchemas (target : string) : option Schema :=
  if String.eqb target "api" then Some apiSchema
  else if String.eqb target "admin-web" then Some adminWebSchema
  else if String.eqb target "mobile" then Some mobileSchema
  else if String.eqb target "stellar" then Some stellarSchema
  else if existsb (String.eqb target) objectPrototypeMembers then Some []
  else None.
End EnvSchemas.

Definition TARGETS : list string := ["api"; "admin-web"; "mobile"; "stellar"].

(** The inner loop of [validateSchema]: the first validator that returns a
    truthy error ends it. *)
Fixpoint firstError (key : string) (value : option string)
  (validators : list Validator) : option string :=
  match validators with
  | [] => None
  | validate :: rest =>
      match validate key value with
      | Some error => if isEmpty error then firstError key value rest
                      else Some error
      | None => firstError key value rest
      end
  end.

Fixpoint validateSchema (schema : Schema) (sourceEnv : gmap string string)
  : list string :=
  match schema with
  | [] => []
  | (key, validators) :: rest =>
      match firstError key (sourceEnv !! key) validators with
      | Some error => error :: validateSchema rest sourceEnv
      | None => validateSchema rest sourceEnv
      end
  end.

(** A validator lets a value pass when it returns [null] (or a falsy string). *)
Definition passes (validate : Validator) (key : string) (value : option string)
  : Prop :=
  validate key value = None \/ validate key value = Some "".

Definition newline : string := String (ascii_of_nat 10) "".

(** [validateTargetEnv]: [None] when it returns, [Some message] for the
    [Error] it throws. *)
Definition validateTargetEnv `{JsRuntime} (target : string)
  (sourceEnv : gmap string string) : option string :=
  match envSchemas target with
  | None =>
      Some (String.append "Unknown env validation target "
              (String doubleQuote
                 (String.append target
                    (String doubleQuote
                       (String.append ". Use one of: " (joinWith ", " TARGETS))))))
  | Some schema =>
      match validateSchema schema sourceEnv with
      | [] => None
      | errors =>
          Some (String.append "Environment validation failed for "
                  (String.append target
                     (String.append ":" (String.append newline
                                           (joinWith newline errors)))))
      end
  end.

(** The part of [process.env] that [auth/tokens.ts] reads. *)
Definition envOf (sourceEnv : gmap string string) : Env :=
  mkEnv (sourceEnv !! "JWT_ACCESS_SECRET") (sourceEnv !! "JWT_REFRESH_SECRET").

(** The number a string of digits writes. *)
Fixpoint decimalFrom (acc : Z) (text : string) : Z :=
  match text with
  | EmptyString => acc
  | String c rest => decimalFrom (10 * acc + (Z.of_nat (nat_of_ascii c) - 48)) rest
  end.

Definition decimal (text : string) : Z := decimalFrom 0 text.

(** ** routes/locations.ts: the query of [/nearby] *)

Definition andThen {A B : Type} (o : Outcome A) (k : A -> Outcome B) : Outcome B :=
  match o with
  | Ok a => k a
  | Throw e => Throw e
  end.

Definition VALID_TYPES : list string :=
  ["bank"; "hospital"; "atm"; "government"; "fuel_station"; "other"].

(** What the handler hands to the [$geoNear], [$limit] stages. *)
Record GeoNearQuery := mkGeoNearQuery {
  near_lng : Q;
  near_lat : Q;
  maxDistance : Q;
  query_status : string;
  query_type : option string;
  stage_limit : Q
}.

Section LocationsRoute.
Context `{JsRuntime}.

(** [req.query] of [/nearby]; a parameter that is not given is [undefined]. *)
Record NearbyRequest := mkNearbyRequest {
  q_lng : option JsValue;
  q_lat : option JsValue;
  q_radiusInMeters : option JsValue;
  q_limit : option JsValue;
  q_typeFilter : option JsValue
}.

Definition parseFiniteNumber (value : option JsValue) (name : string) : Outcome Q :=
  match numberOf value with
  | JsFinite parsed => Ok parsed
  | _ => Throw (ThrowApp (ValidationError
                  (String.append name " must be a valid number")))
  end.

Definition parseLimit (value : option JsValue) : Outcome Q :=
  match value with
  | None => Ok (inject_Z 50)
  | Some v =>
      match js_Number v with
      | JsFinite parsed =>
          if negb (Q_isInteger parsed) || Qltb parsed (inject_Z 1)
             || Qltb (inject_Z 200) parsed
          then Throw (ThrowApp (ValidationError
                        "limit must be an integer between 1 and 200"))
          else Ok parsed
      | _ => Throw (ThrowApp (ValidationError
                      "limit must be an integer between 1 and 200"))
      end
  end.

Definition parseTypeFilter (value : option JsValue) : Outcome (option string) :=
  match value with
  | None => Ok None
  | Some v =>
      if js_isNull v || js_isEmptyString v then Ok None
      else
        let type := js_String v in
        if existsb (String.eqb type) VALID_TYPES then Ok (Some type)
        else Throw (ThrowApp (ValidationError
                      (String.append "typeFilter must be one of: "
                                     (joinWith ", " VALID_TYPES))))
  end.

(** [value ?? fallback] followed by [parseFiniteNumber] *)
Definition parseFiniteNumberOr (value : option JsValue) (fallback : Q)
  (name : string) : Outcome Q :=
  match value with
  | None => Ok fallback
  | Some v => if js_isNull v then Ok fallback else parseFiniteNumber (Some v) name
  end.

(** [router.get('/nearby')] up to the call of [Location.aggregate]. *)
Definition nearbyQuery (req : NearbyRequest) : Outcome GeoNearQuery :=
  andThen (parseFiniteNumber (q_lng req) "lng") (fun lng =>
  andThen (parseFiniteNumber (q_lat req) "lat") (fun lat =>
  andThen (parseFiniteNumberOr (q_radiusInMeters req) (inject_Z 2000)
                               "radiusInMeters") (fun radiusInMeters =>
  andThen (parseLimit (q_limit req)) (fun limit =>
  andThen (parseTypeFilter (q_typeFilter req)) (fun typeFilter =>
    if Qltb lng (inject_Z (-180)) || Qltb (inject_Z 180) lng
    then Throw (ThrowApp (ValidationError "lng must be between -180 and 180"))
    else if Qltb lat (inject_Z (-90)) || Qltb (inject_Z 90) lat
    then Throw (ThrowApp (ValidationError "lat must be between -90 and 90"))
    else if Qleb radiusInMeters (inject_Z 0) || Qltb (inject_Z 50000) radiusInMeters
    then Throw (ThrowApp (ValidationError
                  "radiusInMeters must be between 1 and 50000"))
    else Ok (mkGeoNearQuery lng lat radiusInMeters "active" typeFilter limit)))))).
End LocationsRoute.

(** ** services/placeSeed.ts *)

Inductive Provider := google | osm.

Inductive PlaceSource := google_places | openstreetmap.

Definition sourceName (source : PlaceSource) : string :=
  match source with
  | google_places => "google_places"
  | openstreetmap => "openstreetmap"
  end.

Record ExternalPlace := mkExternalPlace {
  ep_source : PlaceSource;
  ep_placeId : string;
  ep_name : string;
  ep_type : string;
  ep_address : string;
  ep_lat : Q;
  ep_lng : Q
}.

Record PlaceSeedRequest := mkPlaceSeedRequest {
  neLat : Q;
  neLng : Q;
  swLat : Q;
  swLng : Q;
  provider : Provider;
  types : list string;
  radiusInMeters : Q
}.

(** [Array.from(new Set(values))]: the first occurrence of each value, in
    order. *)
Fixpoint setOf (seen values : list string) : list string :=
  match values with
  | [] => seen
  | v :: rest =>
      if existsb (String.eqb v) seen then setOf seen rest
      else setOf (seen ++ [v]) rest
  end.

Section PlaceSeed.
Context `{Externals} `{JsRuntime}.

(** The body of the seed request. *)
Record SeedBody := mkSeedBody {
  b_neLat : option JsValue;
  b_neLng : option JsValue;
  b_swLat : option JsValue;
  b_swLng : option JsValue;
  b_provider : option JsValue;
  b_types : option JsValue;
  b_radiusInMeters : option JsValue
}.

Definition toNumber (value : option JsValue) (name : string) : Outcome Q :=
  match numberOf value with
  | JsFinite num => Ok num
  | _ => Throw (ThrowApp (ValidationError
                  (String.append name " must be a valid number")))
  end.

Definition validateBoundingBox (neLat neLng swLat swLng : Q) : Outcome unit :=
  if Qltb neLat (inject_Z (-90)) || Qltb (inject_Z 90) neLat
     || Qltb swLat (inject_Z (-90)) || Qltb (inject_Z 90) swLat
  then Throw (ThrowApp (ValidationError "Latitude must be between -90 and 90"))
  else if Qltb neLng (inject_Z (-180)) || Qltb (inject_Z 180) neLng
          || Qltb swLng (inject_Z (-180)) || Qltb (inject_Z 180) swLng
  then Throw (ThrowApp (ValidationError "Longitude must be between -180 and 180"))
  else if Qleb neLat swLat || Qleb neLng swLng
  then Throw (ThrowApp (ValidationError
                "Bounding box must have neLat > swLat and neLng > swLng"))
  else Ok tt.

Definition normalizeTypes (input : option JsValue) : Outcome (list string) :=
  let defaults := ["bank"; "hospital"; "atm"] in
  match match input with
        | Some v => js_asArray v
        | None => None
        end with
  | None => Ok defaults
  | Some [] => Ok defaults
  | Some entries =>
      let allowed := ["bank"; "hospital"; "atm"; "government"; "fuel_station";
                      "other"] in
      let normalized := js_String <$> entries in
      if existsb (fun type => negb (existsb (String.eqb type) allowed)) normalized
      then Throw (ThrowApp (ValidationError
                    (String.append "types must be from: " (joinWith ", " allowed))))
      else Ok (setOf [] normalized)
  end.

Definition parseProvider (value : option JsValue) : Outcome Provider :=
  let provider :=
    js_toLowerCase (match value with
                    | Some v => if js_truthy v then js_String v else "google"
                    | None => "google"
                    end) in
  if String.eqb provider "google" then Ok google
  else if String.eqb provider "osm" then Ok osm
  else Throw (ThrowApp (ValidationError
                (String.append "provider must be either "
                   (String doubleQuote
                      (String.append "google"
                         (String doubleQuote
                            (String.append " or "
                               (String doubleQuote
                                  (String.append "osm"
                                     (String doubleQuote "")))))))))).

(** [body.radiusInMeters ?? 5000] followed by [toNumber] *)
Definition radiusOr5000 (value : option JsValue) : Outcome Q :=
  match value with
  | None => Ok (inject_Z 5000)
  | Some v => if js_isNull v then Ok (inject_Z 5000)
              else toNumber (Some v) "radiusInMeters"
  end.

Definition parseSeedRequest (body : SeedBody) : Outcome PlaceSeedRequest :=
  andThen (toNumber (b_neLat body) "neLat") (fun neLat =>
  andThen (toNumber (b_neLng body) "neLng") (fun neLng =>
  andThen (toNumber (b_swLat body) "swLat") (fun swLat =>
  andThen (toNumber (b_swLng body) "swLng") (fun swLng =>
  andThen (parseProvider (b_provider body)) (fun provider =>
  andThen (normalizeTypes (b_types body)) (fun types =>
  andThen (radiusOr5000 (b_radiusInMeters body)) (fun radius =>
    let radiusInMeters :=
      Q_min (Q_max radius (inject_Z 100)) (inject_Z 50000) in
    andThen (validateBoundingBox neLat neLng swLat swLng) (fun _ =>
      Ok (mkPlaceSeedRequest neLat neLng swLat swLng provider types
                             radiusInMeters))))))))).
End PlaceSeed.

(** The key of a place in the map of [dedupePlaces]. *)
Definition placeKey (place : ExternalPlace) : string :=
  String.append (sourceName (ep_source place))
                (String.append ":" (ep_placeId place)).

(** [map.set(key, value)] on a [Map] in insertion order: a key that is there
    keeps its position and takes the new value. *)
Fixpoint mapSet {A : Type} (key : string) (value : A) (m : list (string * A))
  : list (string * A) :=
  match m with
  | [] => [(key, value)]
  | (k, v) :: rest =>
      if String.eqb k key then (k, value) :: rest
      else (k, v) :: mapSet key value rest
  end.

Definition dedupePlaces (places : list ExternalPlace) : list ExternalPlace :=
  snd <$> foldl (fun m place => mapSet (placeKey place) place m) [] places.

(** The map of [dedupePlaces] after the places of a list have been set. *)
Definition placesMap (m : list (string * ExternalPlace))
  (places : list ExternalPlace) : list (string * ExternalPlace) :=
  foldl (fun acc place => mapSet (placeKey place) place acc) m places.

(** A map whose keys are distinct and are the keys of its places. *)
Definition keyed (m : list (string * ExternalPlace)) : Prop :=
  NoDup (fst <$> m) /\ forall k v, (k, v) ∈ m -> k = placeKey v.

(** ** StellarNetworkDiagnostics *)

(** What [pair.secret()] and [pair.publicKey()] return. *)
Record Keypair := mkKeypair {
  kp_secret : string;
  kp_publicKey : string
}.

Record Diagnostics := mkDiagnostics {
  diagnosticLog : gmap string Z;
  isMonitoring : bool
}.

(** [this.diagnosticLog.get(key) || 0] and [set] *)
Definition logDiagnostic (key : string) (value : Z) (diag : Diagnostics)
  : Diagnostics :=
  let current := default 0 (diagnosticLog diag !! key) in
  mkDiagnostics (<[key := current + value]> (diagnosticLog diag))
                (isMonitoring diag).

(** The constructor at instant [now]; the entropy buffer is not kept. *)
Definition newDiagnostics (now : Z) : Diagnostics :=
  logDiagnostic "ENTROPY_INIT" now (mkDiagnostics ∅ true).

Fixpoint charCodeSum (text : string) : Z :=
  match text with
  | EmptyString => 0
  | String c rest => Z.of_nat (nat_of_ascii c) + charCodeSum rest
  end.

Definition analyzeKeypairSecurity (pair : Keypair) (diag : Diagnostics)
  : Diagnostics * bool :=
  let secret := kp_secret pair in
  let pub := kp_publicKey pair in
  if negb (Nat.eqb (String.length secret) 56) || negb (String.prefix "G" pub)
  then (logDiagnostic "SECURITY_ALERT" 1 diag, false)
  else (diag, 0 <? charCodeSum pub).

(** A run of analyses on one monitor. *)
Fixpoint analyzeAll (pairs : list Keypair) (diag : Diagnostics)
  : Diagnostics * list bool :=
  match pairs with
  | [] => (diag, [])
  | keypair :: rest =>
      let '(diag1, ok) := analyzeKeypairSecurity keypair diag in
      let '(diag2, oks) := analyzeAll rest diag1 in
      (diag2, ok :: oks)
  end.

(** The first test of [analyzeKeypairSecurity] alone: the verdict without
    the checksum. *)
Definition wellFormed (keypair : Keypair) : bool :=
  Nat.eqb (String.length (kp_secret keypair)) 56
  && String.prefix "G" (kp_publicKey keypair).

(** ** More of the reference deployment *)

Module Samples.
Import Reference.

(** A stand-in for [bcrypt.hash] whose hashes the reference [bcrypt.compare]
    accepts. *)
Definition hashPassword (password : string) (rounds : Z) : string :=
  String "$"%char password.

(** A deployment whose refresh secret is too short. *)
Definition envShortRefresh : Env :=
  mkEnv (Some "access-secret-0123456789abcdefgh") (Some "too-short").

Definition bobRegistration : RegisterBody :=
  mkRegisterBody (Some "bob@example.org") (Some "s3cret-pass").

Definition afterRegistration : list User * Outcome RegisterResponse :=
  register hashPassword bobId bobRegistration users.

Definition users2 : list User := fst afterRegistration.

Definition bobResponse : RegisterResponse := mkRegisterResponse bobId "bob@example.org".

Definition carol : User := mkUser carolId "carol@example.org" "$opensesame" ADMIN.

Definition adminParams : IssueParams := mkIssueParams carolId ADMIN "d3" "f3" "t3".

Definition adminPair : TokenPair :=
  match issueTokenPair env 0 adminParams with
  | Ok issued => issued
  | Throw _ => mkTokenPair "" "" 0
  end.

Definition pair1 : TokenPair :=
  mkTokenPair (accessToken response1) (refreshToken response1) 604800000.

Definition params1 : IssueParams := mkIssueParams aliceId USER "d1" "f1" "t1".

(** A row of another user next to Alice's rotated chain. *)
Definition daveRow : Session :=
  mkSession daveId "d4" "f4" "t4" "dave-hash" None None active None None None 900.

Definition sharedLedger : Store := ledger2 ++ [daveRow].
End Samples.

(** ** A small runtime for the values of requests

    The values of the sample requests are strings, integers, [null] and arrays
    of strings.  [Number] reads the empty string as 0 and a string of digits
    as the integer it writes; the sample inputs use no other numeral, and
    none beyond [2^53]. *)

Module SampleRuntime.
Import Reference Samples.

Inductive SampleValue :=
| VText (text : string)
| VInt (z : Z)
| VNull
| VTexts (entries : list string).

Definition readNumber (text : string) : JsNum :=
  if isEmpty text then JsFinite (inject_Z 0)
  else if isDigits text then JsFinite (inject_Z (decimal text))
  else JsNaN.

#[export] Instance jsRuntime : JsRuntime := {|
  JsValue := SampleValue;
  js_Number := fun value =>
    match value with
    | VText text => readNumber text
    | VInt z => JsFinite (inject_Z z)
    | VNull => JsFinite (inject_Z 0)
    | VTexts entries => readNumber (joinWith "," entries)
    end;
  js_String := fun value =>
    match value with
    | VText text => text
    | VInt z => showZ z
    | VNull => "null"
    | VTexts entries => joinWith "," entries
    end;
  js_isNull := fun value =>
    match value with
    | VNull => true
    | _ => false
    end;
  js_isEmptyString := fun value =>
    match value with
    | VText text => isEmpty text
    | _ => false
    end;
  js_truthy := fun value =>
    match value with
    | VText text => negb (isEmpty text)
    | VInt z => negb (z =? 0)
    | VNull => false
    | VTexts _ => true
    end;
  js_asArray := fun value =>
    match value with
    | VTexts entries => Some (VText <$> entries)
    | _ => None
    end;
  js_parseNumber := readNumber;
  js_validUrl := fun text =>
    String.prefix "mongodb://" text || String.prefix "http://" text
    || String.prefix "https://" text
|}.

(** The environment of an API process. *)
Definition apiEnv : gmap string string :=
  list_to_map
    [ ("API_PORT", "3000");
      ("MONGO_URI", "mongodb://localhost:27017/qyou");
      ("JWT_ACCESS_SECRET", "access-secret-0123456789abcdefgh");
      ("JWT_REFRESH_SECRET", "refresh-secret-0123456789abcdefg");
      ("STELLAR_NETWORK", "TESTNET");
      ("STELLAR_SECRET_KEY", "SABCDEFGHIJKLMNOPQRSTUVWXYZ234567ABCDEFGHIJKLMNOPQRSTUVW") ].

(** [/nearby?lng=3&lat=6&limit=20&typeFilter=bank] *)
Definition nearbyRequest : NearbyRequest :=
  mkNearbyRequest (Some (VText "3")) (Some (VText "6")) None
                  (Some (VText "20")) (Some (VText "bank")).

Definition nearbyAsked : GeoNearQuery :=
  mkGeoNearQuery (inject_Z 3) (inject_Z 6) (inject_Z 2000) "active"
                 (Some "bank") (inject_Z 20).

(** A seed request for a box of one degree, with a radius that is too large. *)
Definition seedBody : SeedBody :=
  mkSeedBody (Some (VInt 7)) (Some (VInt 4)) (Some (VInt 6)) (Some (VInt 3))
             (Some (VText "osm")) (Some (VTexts ["atm"; "bank"; "atm"]))
             (Some (VInt 60000)).

Definition seedAsked : PlaceSeedRequest :=
  mkPlaceSeedRequest (inject_Z 7) (inject_Z 4) (inject_Z 6) (inject_Z 3) osm
                     ["atm"; "bank"] (inject_Z 50000).
End SampleRuntime.

(** ** The ledger primitives *)

Section LedgerFacts.
Implicit Types (s : Store) (d : Session) (i j : nat).

Lemma updateMany_lookup filter set s i :
  updateMany filter set s !! i
  = (fun d => if filter d then set d else d) <$> s !! i.
Proof. unfold updateMany. apply list_lookup_fmap. Qed.

Lemma updateMany_length filter set s :
  length (updateMany filter set s) = length s.
Proof. unfold updateMany. apply length_fmap. Qed.

Lemma findOneFrom_Some filter k s i d :
  findOneFrom filter k s = Some (i, d) ->
  exists j, i = (k + j)%nat /\ s !! j = Some d /\ filter d = true
            /\ forall j' d', (j' < j)%nat -> s !! j' = Some d' -> filter d' = false.
Proof.
  revert k. induction s as [|x s IH]; intros k Hf; simpl in Hf; [discriminate|].
  destruct (filter x) eqn:Hx.
  - injection Hf as <- <-. exists 0%nat. repeat split; auto with lia.
  - apply IH in Hf as (j & -> & Hj & Hd & Hmin).
    exists (S j). repeat split; auto with lia.
    intros [|j'] d' Hlt Hl; simpl in Hl.
    + congruence.
    + apply (Hmin j'); [lia | exact Hl].
Qed.

Lemma findOne_Some filter s i d :
  findOne filter s = Some (i, d) ->
  s !! i = Some d /\ filter d = true
  /\ forall j' d', (j' < i)%nat -> s !! j' = Some d' -> filter d' = false.
Proof.
  intros Hf. apply findOneFrom_Some in Hf as (j & -> & Hrest). exact Hrest.
Qed.

Lemma findOneFrom_None filter k s :
  findOneFrom filter k s = None <-> forall d, d ∈ s -> filter d = false.
Proof.
  revert k. induction s as [|x s IH]; intros k; simpl.
  - split; [intros _ d Hd; inversion Hd | reflexivity].
  - destruct (filter x) eqn:Hx.
    + split; [discriminate|]. intros Hall.
      rewrite (Hall x) in Hx; [discriminate | apply list_elem_of_here].
    + rewrite IH. split.
      * intros Hall d Hd. apply elem_of_cons in Hd as [->|Hd]; auto.
      * intros Hall d Hd. apply Hall. apply list_elem_of_further, Hd.
Qed.

Lemma findOne_None filter s :
  findOne filter s = None <-> forall d, d ∈ s -> filter d = false.
Proof. apply findOneFrom_None. Qed.

(** The first match is found again when the documents before it still fail
    the filter and the document at its place still passes. *)
Lemma findOneFrom_first filter k s j d :
  s !! j = Some d -> filter d = true ->
  (forall j' d', (j' < j)%nat -> s !! j' = Some d' -> filter d' = false) ->
  findOneFrom filter k s = Some ((k + j)%nat, d).
Proof.
  revert k j. induction s as [|x s IH]; intros k j Hj Hd Hmin; [discriminate|].
  destruct j as [|j]; simpl in *.
  - injection Hj as ->. rewrite Hd. do 2 f_equal. lia.
  - rewrite (Hmin 0%nat x); [|lia|reflexivity].
    rewrite (IH (S k) j Hj Hd).
    + do 2 f_equal. lia.
    + intros j' d' Hlt Hl. apply (Hmin (S j')); [lia | exact Hl].
Qed.

Lemma findOne_first filter s j d :
  s !! j = Some d -> filter d = true ->
  (forall j' d', (j' < j)%nat -> s !! j' = Some d' -> filter d' = false) ->
  findOne filter s = Some (j, d).
Proof. intros. unfold findOne. by rewrite (findOneFrom_first filter 0 s j d). Qed.

Lemma save_lookup_eq i set s : save i set s !! i = set <$> s !! i.
Proof. apply list_lookup_alter_eq. Qed.

Lemma save_lookup_ne i j set s : i <> j -> save i set s !! j = s !! j.
Proof. apply list_lookup_alter_ne. Qed.

Lemma save_length i set s : length (save i set s) = length s.
Proof. apply length_alter. Qed.

Lemma create_Ok d s s' : create d s = Ok s' -> s' = s ++ [d].
Proof. unfold create. case existsb; congruence. Qed.
End LedgerFacts.

(** ** Credential verification *)

Section VerifyFacts.
Context `{Externals}.
Variable env : Env.

Lemma verify_Ok_inv now token p :
  verifyRefreshToken env now token = Ok p ->
  exists secret c,
    readSecret env RefreshSecret = Ok secret
    /\ isEmpty token = false
    /\ jwt_decode token secret = Some c
    /\ (now / 1000 < c_exp c)
    /\ c_payload c = RefreshPayload (p_sub p) (p_deviceId p)
                                    (p_familyId p) (p_tokenId p).
Proof.
  unfold verifyRefreshToken, verifyRefreshToken_try, jwt_verify, isEmpty.
  destruct (readSecret env RefreshSecret) as [secret|e]; simpl.
  - destruct (String.eqb token "") eqn:Hne; simpl; [discriminate|].
    destruct (jwt_decode token secret) as [c|] eqn:Hdec; [|discriminate].
    destruct (c_exp c <=? now / 1000) eqn:Hexp; [discriminate|].
    destruct (c_payload c) as [sub r|sub dev fam tok] eqn:Hp; simpl; [discriminate|].
    intros [= <-]. exists secret, c. repeat split; auto.
    apply Z.leb_gt in Hexp. exact Hexp.
  - destruct e as [e| |k|path]; [destruct (instanceofAuthError e)|..]; discriminate.
Qed.

Lemma verify_nonempty now token p :
  verifyRefreshToken env now token = Ok p -> isEmpty token = false.
Proof. intros Hv. apply verify_Ok_inv in Hv as (? & ? & ? & ? & ?). assumption. Qed.

(** The payload of a token does not depend on when it is verified. *)
Lemma verify_same_payload now1 now2 token p1 p2 :
  verifyRefreshToken env now1 token = Ok p1 ->
  verifyRefreshToken env now2 token = Ok p2 ->
  p1 = p2.
Proof.
  intros H1 H2.
  apply verify_Ok_inv in H1 as (s1 & c1 & Hs1 & _ & Hd1 & _ & Hp1).
  apply verify_Ok_inv in H2 as (s2 & c2 & Hs2 & _ & Hd2 & _ & Hp2).
  assert (s1 = s2) as <- by congruence.
  assert (c1 = c2) as <- by congruence.
  rewrite Hp1 in Hp2. destruct p1, p2; simpl in *. congruence.
Qed.

(** Every failure of [verifyRefreshToken] is one of two [AuthError]s. *)
Lemma verify_Throw_inv now token e :
  verifyRefreshToken env now token = Throw e ->
  e = ThrowApp (AuthError "Invalid or expired refresh token")
  \/ e = ThrowApp (AuthError "Invalid token type").
Proof.
  unfold verifyRefreshToken, verifyRefreshToken_try.
  destruct (readSecret env RefreshSecret) as [secret|e'] eqn:Hs.
  - destruct (jwt_verify now token secret) as [[sub r|sub dev fam tok]|];
      simpl; intros [= <-]; auto.
  - unfold readSecret in Hs.
    destruct (JWT_REFRESH_SECRET env) as [sec|];
      [destruct (Z.of_nat (jsLength sec) <? 32)|];
      inversion Hs; subst; simpl; intros [= <-]; auto.
Qed.
End VerifyFacts.

(** ** Bulk revocation *)

Section Revocation.
Implicit Types (s : Store) (d : Session).

Lemma notRevokedOf_setRevoked uid now reason d :
  notRevokedOf uid (setRevoked now reason d) = false.
Proof. unfold notRevokedOf. simpl. apply andb_false_r. Qed.

Lemma notRevokedOf_false_revoked uid d :
  notRevokedOf uid d = false -> userId d = uid -> status d = revoked.
Proof.
  unfold notRevokedOf. intros Hf <-. rewrite String.eqb_refl in Hf. simpl in Hf.
  destruct (status d); simpl in Hf; congruence.
Qed.

Lemma revokeAll_lookup now uid reason s i :
  revokeAllUserSessions now uid reason s !! i
  = (fun d => if notRevokedOf uid d then setRevoked now reason d else d)
      <$> s !! i.
Proof. apply updateMany_lookup. Qed.

(** After the bulk revocation every row of the user is revoked. *)
Lemma revokeAll_all_revoked now uid reason s d :
  d ∈ revokeAllUserSessions now uid reason s -> userId d = uid ->
  status d = revoked.
Proof.
  unfold revokeAllUserSessions, updateMany.
  intros (x & -> & _)%list_elem_of_fmap.
  destruct (notRevokedOf uid x) eqn:Hx; [reflexivity|].
  apply notRevokedOf_false_revoked, Hx.
Qed.

(** Rows of other users, and rows already revoked, are left as they are. *)
Lemma revokeAll_other now uid reason s i d :
  s !! i = Some d -> userId d <> uid \/ status d = revoked ->
  revokeAllUserSessions now uid reason s !! i = Some d.
Proof.
  intros Hi Hd. rewrite revokeAll_lookup, Hi. simpl.
  unfold notRevokedOf. destruct Hd as [Hne | ->].
  - apply String.eqb_neq in Hne. by rewrite Hne.
  - simpl. by rewrite andb_false_r.
Qed.

Lemma revokedFrom_setRevoked now reason d :
  revokedFrom now reason d (setRevoked now reason d).
Proof. by repeat split. Qed.

Lemma consumedFrom_setConsumed now h d :
  consumedFrom now h d (setConsumed now h d).
Proof. by repeat split. Qed.

(** The rows of the user that were not revoked are revoked, at their
    places. *)
Lemma revokeAll_revokes now uid reason s i d :
  s !! i = Some d -> userId d = uid -> status d <> revoked ->
  exists d', revokeAllUserSessions now uid reason s !! i = Some d'
             /\ revokedFrom now reason d d'.
Proof.
  intros Hi Hu Hst. exists (setRevoked now reason d).
  split; [|apply revokedFrom_setRevoked].
  rewrite revokeAll_lookup, Hi. simpl. unfold notRevokedOf.
  rewrite Hu, String.eqb_refl. by destruct (status d).
Qed.

Lemma revokeAll_length now uid reason s :
  length (revokeAllUserSessions now uid reason s) = length s.
Proof. apply updateMany_length. Qed.
End Revocation.

(** C9. [revokeAllUserSessions] is idempotent: a second call for the same user,
    whatever its reason and instant, returns the ledger the first call left,
    row for row; the function is total, so neither call fails. *)
Theorem revokeAllUserSessions_idempotent :
  forall (now1 now2 : Z) (uid reason1 reason2 : string) (s : Store),
    revokeAllUserSessions now2 uid reason2
      (revokeAllUserSessions now1 uid reason1 s)
    = revokeAllUserSessions now1 uid reason1 s.
Proof.
  intros. unfold revokeAllUserSessions, updateMany.
  rewrite <- list_fmap_compose. apply list_fmap_ext.
  intros i d _. simpl.
  destruct (notRevokedOf uid d) eqn:Hd.
  - by rewrite notRevokedOf_setRevoked.
  - by rewrite Hd.
Qed.

(** ** The lookup of a credential *)

Section Lookup.
Implicit Types (s : Store) (d : Session) (p : RefreshClaims).

(** The row [d] is the row of the credential: it has the hash, the user, the
    family and the token id. *)
Lemma matchesCredential_iff h uid p d :
  matchesCredential h uid p d = true
  <-> refreshTokenHash d = h /\ userId d = uid
      /\ familyId d = p_familyId p /\ tokenId d = p_tokenId p.
Proof.
  unfold matchesCredential. rewrite !andb_true_iff, !String.eqb_eq. tauto.
Qed.

Lemma matchesCredential_true h uid p d :
  matchesCredential h uid p d = true ->
  refreshTokenHash d = h /\ userId d = uid
  /\ familyId d = p_familyId p /\ tokenId d = p_tokenId p.
Proof. apply matchesCredential_iff. Qed.

(** No row has the four values of the credential: the lookup finds nothing. *)
Lemma findOne_no_match h uid p s :
  (forall d, d ∈ s ->
     ~ (refreshTokenHash d = h /\ userId d = uid
        /\ familyId d = p_familyId p /\ tokenId d = p_tokenId p)) ->
  findOne (matchesCredential h uid p) s = None.
Proof.
  intros Hnone. apply findOne_None. intros d Hd.
  destruct (matchesCredential h uid p d) eqn:Hm; [|reflexivity].
  apply matchesCredential_iff in Hm. by apply Hnone in Hd.
Qed.

(** Under the unique index, the row with the four values of the credential
    is the one the lookup finds. *)
Lemma findOne_the_match h uid p s i cur :
  NoDup (refreshTokenHash <$> s) ->
  s !! i = Some cur ->
  refreshTokenHash cur = h -> userId cur = uid ->
  familyId cur = p_familyId p -> tokenId cur = p_tokenId p ->
  findOne (matchesCredential h uid p) s = Some (i, cur).
Proof.
  intros Hnd Hi Hh Hu Hf Ht. apply findOne_first; [exact Hi| |].
  - by apply matchesCredential_iff.
  - intros j d Hj Hd.
    destruct (matchesCredential h uid p d) eqn:Hm; [|reflexivity].
    apply matchesCredential_iff in Hm as (Hh' & _).
    assert (j = i); [|lia].
    apply (NoDup_lookup _ j i h Hnd); rewrite list_lookup_fmap.
    + by rewrite Hd; simpl; rewrite Hh'.
    + by rewrite Hi; simpl; rewrite Hh.
Qed.
End Lookup.

(** ** Rotation: the failing branches *)

Section RotationFailures.
Context `{Externals}.
Variable env : Env.
Variable users : list User.
Implicit Types (s : Store) (d : Session) (body : RefreshBody) (clock : Clock).

(** C8. When [verifyRefreshToken] refuses the token of the request, [/refresh]
    fails and returns the ledger as it was; for a presented (non-empty) token
    it throws that refusal, which is an [AuthError] with one of two messages.
    An absent or empty token stops at the guard of line 126. *)
Theorem refresh_invalid_credential :
  forall clock tid body s e,
    verifyRefreshToken env (atVerify clock) (orEmpty (rb_refreshToken body))
    = Throw e ->
    fst (refresh env users clock tid body s) = s
    /\ (exists e', snd (refresh env users clock tid body s) = Throw e')
    /\ (orEmpty (rb_refreshToken body) <> "" ->
        refresh env users clock tid body s = (s, Throw e)
        /\ (e = ThrowApp (AuthError "Invalid or expired refresh token")
            \/ e = ThrowApp (AuthError "Invalid token type"))).
Proof.
  intros clock tid body s e Hv. unfold refresh, isEmpty.
  destruct (String.eqb (orEmpty (rb_refreshToken body)) "") eqn:Hempty.
  - apply String.eqb_eq in Hempty. simpl. split; [reflexivity|].
    split; [eauto|]. intros Hne. contradiction.
  - rewrite Hv. simpl. split; [reflexivity|]. split; [eauto|].
    intros _. split; [reflexivity|]. exact (verify_Throw_inv env _ _ _ Hv).
Qed.

(** A credential that verifies and whose subject is no [ObjectId] stops at the
    cast of [Session.findOne]: no row is written. *)
Lemma refresh_subject_not_cast clock tid body s p :
  verifyRefreshToken env (atVerify clock) (orEmpty (rb_refreshToken body)) = Ok p ->
  castObjectId (p_sub p) = None ->
  refresh env users clock tid body s = (s, Throw (ThrowCastError "userId")).
Proof.
  intros Hv Hcast. unfold refresh.
  by rewrite (verify_nonempty env _ _ _ Hv), Hv, Hcast.
Qed.

(** C6, as the code has it. A credential that verifies, whose subject is an
    [ObjectId] and for which no row of the ledger has its hash, user, family
    and token id makes [/refresh] throw [AuthError('Refresh token is
    invalid')]; in the ledger it leaves, every row of that subject that was
    not revoked, the active ones among them, is revoked at the instant of the
    request with reason [REFRESH_TOKEN_REUSE_OR_UNKNOWN], at its place and
    otherwise unchanged, and every other row is as it was.  A credential that
    verifies and whose subject is no [ObjectId] makes [/refresh] throw the
    [CastError] of the lookup, and the ledger is as it was. *)
Theorem refresh_unknown_credential :
  forall clock tid body s p,
    verifyRefreshToken env (atVerify clock) (orEmpty (rb_refreshToken body))
    = Ok p ->
    (forall uid,
       castObjectId (p_sub p) = Some uid ->
       (forall d, d ∈ s ->
          ~ (refreshTokenHash d = hashToken (orEmpty (rb_refreshToken body))
             /\ userId d = uid
             /\ familyId d = p_familyId p /\ tokenId d = p_tokenId p)) ->
       exists s',
         refresh env users clock tid body s
         = (s', Throw (ThrowApp (AuthError "Refresh token is invalid")))
         /\ length s' = length s
         /\ (forall i d, s !! i = Some d -> userId d = uid ->
               status d <> revoked ->
               exists d', s' !! i = Some d'
                          /\ status d' = revoked
                          /\ revokedReason d' = Some "REFRESH_TOKEN_REUSE_OR_UNKNOWN"
                          /\ revokedAt d' = Some (atFound clock)
                          /\ revokedFrom (atFound clock)
                                         "REFRESH_TOKEN_REUSE_OR_UNKNOWN" d d')
         /\ (forall i d, s !! i = Some d ->
               userId d <> uid \/ status d = revoked -> s' !! i = Some d)
         /\ (forall d, d ∈ s' -> userId d = uid -> status d = revoked))
    /\ (castObjectId (p_sub p) = None ->
        refresh env users clock tid body s = (s, Throw (ThrowCastError "userId"))).
Proof.
  intros clock tid body s p Hv. split.
  - intros uid Hcast Hnone.
    exists (revokeAllUserSessions (atFound clock) uid
              "REFRESH_TOKEN_REUSE_OR_UNKNOWN" s).
    split; [|split; [|split; [|split]]].
    + unfold refresh. rewrite (verify_nonempty env _ _ _ Hv), Hv, Hcast.
      by rewrite (findOne_no_match _ _ _ _ Hnone).
    + apply revokeAll_length.
    + intros i d Hi Hd Hst.
      destruct (revokeAll_revokes (atFound clock) uid
                  "REFRESH_TOKEN_REUSE_OR_UNKNOWN" s i d Hi Hd Hst)
        as (d' & Hd' & Hfrom).
      exists d'. split; [exact Hd'|].
      pose proof Hfrom as (Hs1 & Hs2 & Hs3 & _).
      do 3 (split; [assumption|]). exact Hfrom.
    + intros i d. apply revokeAll_other.
    + intros d. apply revokeAll_all_revoked.
  - by apply refresh_subject_not_cast.
Qed.

(** C7. A credential that verifies and whose ledger row (the row with its
    hash, user, family and token id, in a ledger whose hashes are distinct) is
    active with [expiresAt] not after the instant at which the handler checks
    it makes [/refresh] throw [AuthError('Refresh token is expired')]; that
    row becomes revoked with reason [REFRESH_TOKEN_EXPIRED] at that instant,
    otherwise unchanged, and every other row is left as it was. *)
Theorem refresh_expired_credential :
  forall clock tid body s p uid i cur,
    verifyRefreshToken env (atVerify clock) (orEmpty (rb_refreshToken body))
    = Ok p ->
    castObjectId (p_sub p) = Some uid ->
    NoDup (refreshTokenHash <$> s) ->
    s !! i = Some cur ->
    refreshTokenHash cur = hashToken (orEmpty (rb_refreshToken body)) ->
    userId cur = uid ->
    familyId cur = p_familyId p ->
    tokenId cur = p_tokenId p ->
    status cur = active ->
    expiresAt cur <= atFound clock ->
    exists s' cur',
      refresh env users clock tid body s
      = (s', Throw (ThrowApp (AuthError "Refresh token is expired")))
      /\ s' !! i = Some cur'
      /\ status cur' = revoked
      /\ revokedReason cur' = Some "REFRESH_TOKEN_EXPIRED"
      /\ revokedAt cur' = Some (atFound clock)
      /\ revokedFrom (atFound clock) "REFRESH_TOKEN_EXPIRED" cur cur'
      /\ (forall j, j <> i -> s' !! j = s !! j)
      /\ length s' = length s.
Proof.
  intros clock tid body s p uid i cur Hv Hcast Hnd Hi Hh Hu Hfam Htid Hact Hexp.
  pose proof (findOne_the_match _ uid p s i cur Hnd Hi Hh Hu Hfam Htid) as Hf.
  exists (save i (setRevoked (atFound clock) "REFRESH_TOKEN_EXPIRED") s),
    (setRevoked (atFound clock) "REFRESH_TOKEN_EXPIRED" cur).
  apply Z.leb_le in Hexp.
  split; [|split; [|split; [|split; [|split; [|split; [|split]]]]]].
  - unfold refresh. rewrite (verify_nonempty env _ _ _ Hv), Hv, Hcast, Hf, Hact.
    simpl. rewrite Hexp. reflexivity.
  - by rewrite save_lookup_eq, Hi.
  - reflexivity.
  - reflexivity.
  - reflexivity.
  - apply revokedFrom_setRevoked.
  - intros j Hj. apply save_lookup_ne. congruence.
  - apply save_length.
Qed.

(** C10. A credential that verifies and whose ledger row (the row with its
    hash, user, family and token id, in a ledger whose hashes are distinct) is
    active and not expired, while no user has the subject's id, makes
    [/refresh] throw [AuthError('User account not found')]; in the ledger it
    leaves, every row of the subject that was not revoked is revoked with
    reason [USER_NOT_FOUND], at its place and otherwise unchanged, the row of
    the credential among them, and every other row is as it was. *)
Theorem refresh_user_not_found :
  forall clock tid body s p uid i cur,
    verifyRefreshToken env (atVerify clock) (orEmpty (rb_refreshToken body))
    = Ok p ->
    castObjectId (p_sub p) = Some uid ->
    NoDup (refreshTokenHash <$> s) ->
    s !! i = Some cur ->
    refreshTokenHash cur = hashToken (orEmpty (rb_refreshToken body)) ->
    userId cur = uid ->
    familyId cur = p_familyId p ->
    tokenId cur = p_tokenId p ->
    status cur = active ->
    atFound clock < expiresAt cur ->
    (forall u, u ∈ users -> u_id u <> uid) ->
    exists s',
      refresh env users clock tid body s
      = (s', Throw (ThrowApp (AuthError "User account not found")))
      /\ length s' = length s
      /\ (forall j d, s !! j = Some d -> userId d = uid ->
            status d <> revoked ->
            exists d', s' !! j = Some d'
                       /\ status d' = revoked
                       /\ revokedReason d' = Some "USER_NOT_FOUND"
                       /\ revokedAt d' = Some (atUser clock)
                       /\ revokedFrom (atUser clock) "USER_NOT_FOUND" d d')
      /\ (exists cur', s' !! i = Some cur' /\ status cur' = revoked
                       /\ revokedReason cur' = Some "USER_NOT_FOUND")
      /\ (forall j d, s !! j = Some d ->
            userId d <> uid \/ status d = revoked ->
            s' !! j = Some d).
Proof.
  intros clock tid body s p uid i cur Hv Hcast Hnd Hi Hh Hcur Hfam Htid Hact Hexp
         Hnouser.
  pose proof (findOne_the_match _ uid p s i cur Hnd Hi Hh Hcur Hfam Htid) as Hf.
  assert (findById uid users = None) as Hu.
  { unfold findById. destruct (find _ users) as [u|] eqn:Hfind; [|reflexivity].
    apply find_some in Hfind as [Hin Heq]. apply String.eqb_eq in Heq.
    apply list_elem_of_In in Hin. by apply Hnouser in Hin. }
  exists (revokeAllUserSessions (atUser clock) uid "USER_NOT_FOUND" s).
  apply Z.leb_gt in Hexp.
  assert (forall j d, s !! j = Some d -> userId d = uid -> status d <> revoked ->
            exists d', revokeAllUserSessions (atUser clock) uid "USER_NOT_FOUND" s
                       !! j = Some d'
                       /\ status d' = revoked
                       /\ revokedReason d' = Some "USER_NOT_FOUND"
                       /\ revokedAt d' = Some (atUser clock)
                       /\ revokedFrom (atUser clock) "USER_NOT_FOUND" d d') as Hrows.
  { intros j d Hj Hd Hst.
    destruct (revokeAll_revokes (atUser clock) uid "USER_NOT_FOUND" s j d Hj Hd Hst)
      as (d' & Hd' & Hfrom).
    exists d'. split; [exact Hd'|].
    pose proof Hfrom as (Hs1 & Hs2 & Hs3 & _).
    do 3 (split; [assumption|]). exact Hfrom. }
  split; [|split; [|split; [|split]]].
  - unfold refresh. rewrite (verify_nonempty env _ _ _ Hv), Hv, Hcast, Hf, Hact.
    simpl. rewrite Hexp, Hu. reflexivity.
  - apply revokeAll_length.
  - exact Hrows.
  - destruct (Hrows i cur Hi Hcur) as (cur' & ? & ? & ? & _);
      [rewrite Hact; discriminate|].
    exists cur'. auto.
  - intros j d. apply revokeAll_other.
Qed.
End RotationFailures.

(** ** Rotation: the successful branch *)

Section RotationSuccess.
Context `{Externals}.
Variable env : Env.
Implicit Types (s : Store) (d : Session) (body : RefreshBody) (clock : Clock).

Lemma refresh_Ok_inv users clock tid body s s' r :
  refresh env users clock tid body s = (s', Ok r) ->
  exists p uid i cur user pair,
    let token := orEmpty (rb_refreshToken body) in
    verifyRefreshToken env (atVerify clock) token = Ok p
    /\ castObjectId (p_sub p) = Some uid
    /\ findOne (matchesCredential (hashToken token) uid p) s = Some (i, cur)
    /\ status cur = active
    /\ atFound clock < expiresAt cur
    /\ findById uid users = Some user
    /\ issueTokenPair env (atUser clock)
         (mkIssueParams (u_id user) (role user) (p_deviceId p)
                        (p_familyId p) tid) = Ok pair
    /\ s' = save i (setConsumed (atUser clock)
                                (hashToken (tp_refreshToken pair))) s
            ++ [successor user p tid (hashToken token) pair]
    /\ r = mkTokenResponse (tp_accessToken pair) (tp_refreshToken pair)
                           (p_deviceId p).
Proof.
  unfold refresh. intros Hr.
  destruct (isEmpty _); [discriminate|].
  destruct (verifyRefreshToken env _ _) as [p|e] eqn:Hv; [|discriminate].
  destruct (castObjectId (p_sub p)) as [uid|] eqn:Hcast; [|discriminate].
  destruct (findOne _ s) as [[i cur]|] eqn:Hf; [|discriminate].
  destruct (status cur) eqn:Hst; simpl in Hr; try discriminate.
  destruct (expiresAt cur <=? atFound clock) eqn:Hexp; [discriminate|].
  destruct (findById uid users) as [user|] eqn:Hu; [|discriminate].
  destruct (issueTokenPair env _ _) as [pair|e] eqn:Hpair; [|discriminate].
  destruct (create _ _) as [s2|e] eqn:Hc; [|discriminate].
  apply create_Ok in Hc. injection Hr as <- <-.
  exists p, uid, i, cur, user, pair. apply Z.leb_gt in Hexp.
  repeat split; auto.
Qed.


Lemma findById_Some id users user :
  findById id users = Some user -> u_id user = id.
Proof.
  unfold findById. intros Hf. apply find_some in Hf as [_ Heq].
  by apply String.eqb_eq in Heq.
Qed.



(** C4, as the code has it. A rotation that succeeds with no operation of
    another request between its lookup and its create, under a ledger whose
    rows are bound to their credentials: the row of the presented credential,
    which was active, is consumed with [replacedByHash] the hash of the
    refresh token returned; the row appended is active, has that hash, has
    the consumed row's hash as [parentTokenHash], the consumed row's user,
    family and device, and the token id drawn for this request; no other row
    is touched. *)
Theorem refresh_chain_integrity :
  forall users clock tid body s s' r,
    ledgerBound env s ->
    refresh env users clock tid body s = (s', Ok r) ->
    exists i cur cur' next,
      s !! i = Some cur /\ status cur = active
      /\ refreshTokenHash cur = hashToken (orEmpty (rb_refreshToken body))
      /\ s' !! i = Some cur'
      /\ consumedFrom (atUser clock) (hashToken (refreshToken r)) cur cur'
      /\ status cur' = consumed
      /\ replacedByHash cur' = Some (hashToken (refreshToken r))
      /\ s' !! length s = Some next
      /\ length s' = S (length s)
      /\ (forall j, j <> i -> (j < length s)%nat -> s' !! j = s !! j)
      /\ status next = active
      /\ refreshTokenHash next = hashToken (refreshToken r)
      /\ parentTokenHash next = Some (refreshTokenHash cur)
      /\ replacedByHash next = None
      /\ userId next = userId cur
      /\ familyId next = familyId cur
      /\ deviceId next = deviceId cur
      /\ tokenId next = tid.
Proof.
  intros users clock tid body s s' r Hbound Hr.
  apply refresh_Ok_inv in Hr
    as (p & uid & i & cur & user & pair & Hv & _ & Hf & Hact & _ & Hu & _ & -> & ->).
  apply findOne_Some in Hf as (Hi & Hm & _).
  apply matchesCredential_true in Hm as (Hh & Huid & Hfam & _).
  apply findById_Some in Hu.
  assert (p_deviceId p = deviceId cur) as Hdev.
  { eapply Hbound; eauto. apply list_elem_of_lookup. eauto. }
  exists i, cur, (setConsumed (atUser clock) (hashToken (tp_refreshToken pair)) cur),
    (successor user p tid (hashToken (orEmpty (rb_refreshToken body))) pair).
  simpl.
  split; [exact Hi|]. split; [exact Hact|]. split; [exact Hh|].
  split; [apply lookup_app_l_Some; by rewrite save_lookup_eq, Hi|].
  split; [apply consumedFrom_setConsumed|].
  do 2 (split; [reflexivity|]).
  split; [rewrite lookup_app_r by (rewrite save_length; lia);
          by rewrite save_length, Nat.sub_diag|].
  split; [by rewrite length_app, save_length, Nat.add_1_r|].
  split.
  { intros j Hj Hlt. rewrite lookup_app_l by (rewrite save_length; lia).
    apply save_lookup_ne. congruence. }
  repeat split; congruence.
Qed.
End RotationSuccess.

(** ** Login *)

Section Login.
Context `{Externals}.
Variable env : Env.
Implicit Types (s : Store) (d : Session) (body : LoginBody).

Lemma login_Ok_inv users now rnd body s s' r :
  login env users now rnd body s = (s', Ok r) ->
  exists user pair,
    let dev := chosenDevice rnd body in
    findUserByEmail (js_toLowerCase (js_trim (orEmpty (lb_email body)))) users
    = Some user
    /\ bcrypt_compare (orEmpty (lb_password body)) (passwordHash user) = true
    /\ issueTokenPair env now
         (mkIssueParams (u_id user) (role user) dev (newFamilyId rnd)
                        (newTokenId rnd)) = Ok pair
    /\ s' = revokeActiveForDevice now (u_id user) dev s
            ++ [headLink user dev (newFamilyId rnd) (newTokenId rnd) pair]
    /\ r = mkTokenResponse (tp_accessToken pair) (tp_refreshToken pair) dev.
Proof.
  unfold login. intros Hl. fold (chosenDevice rnd body) in Hl.
  destruct (isEmpty _ || isEmpty _); [discriminate|].
  destruct (findUserByEmail _ users) as [user|] eqn:Hu; [|discriminate].
  destruct (bcrypt_compare _ _) eqn:Hpw; simpl in Hl; [|discriminate].
  destruct (issueTokenPair env now _) as [pair|e] eqn:Hpair; [|discriminate].
  destruct (create _ _) as [s2|e] eqn:Hc; [|discriminate].
  apply create_Ok in Hc. injection Hl as <- <-.
  exists user, pair. repeat split; auto.
Qed.

Lemma activeOnDevice_setRevoked uid dev now reason d :
  activeOnDevice uid dev (setRevoked now reason d) = false.
Proof. unfold activeOnDevice. simpl. apply andb_false_r. Qed.

Lemma activeLinks_revokeActiveForDevice now uid dev s :
  activeLinks uid dev (revokeActiveForDevice now uid dev s) = [].
Proof.
  unfold activeLinks, revokeActiveForDevice, updateMany.
  induction s as [|d s IH]; [reflexivity|]. simpl.
  destruct (activeOnDevice uid dev d) eqn:Hd.
  - by rewrite activeOnDevice_setRevoked.
  - by rewrite Hd.
Qed.

(** C5, as the code has it. After a login that succeeds with no operation of
    another request between its [updateMany] and its [create], for the user
    and the device of the response: the only active row is the one just
    created; every row that was active for that device is revoked with reason
    [DEVICE_RELOGIN] at the instant of the login, at its place and otherwise
    unchanged, and the other rows are left as they were; the device is the
    generated one when the request supplies none; the new row has the
    generated family, no parent, and the hash of the refresh token
    returned. *)
Theorem login_single_active_link :
  forall users now rnd body s s' r,
    login env users now rnd body s = (s', Ok r) ->
    exists user head,
      findUserByEmail (js_toLowerCase (js_trim (orEmpty (lb_email body)))) users
      = Some user
      /\ activeLinks (u_id user) (r_deviceId r) s' = [head]
      /\ length s' = S (length s)
      /\ s' !! length s = Some head
      /\ (forall i d, s !! i = Some d ->
            activeOnDevice (u_id user) (r_deviceId r) d = true ->
            exists d', s' !! i = Some d'
                       /\ status d' = revoked
                       /\ revokedReason d' = Some "DEVICE_RELOGIN"
                       /\ revokedAt d' = Some now
                       /\ revokedFrom now "DEVICE_RELOGIN" d d')
      /\ (forall i d, s !! i = Some d ->
            activeOnDevice (u_id user) (r_deviceId r) d = false ->
            s' !! i = Some d)
      /\ (js_trim (orEmpty (lb_deviceId body)) = "" ->
            r_deviceId r = newDeviceId rnd)
      /\ (js_trim (orEmpty (lb_deviceId body)) <> "" ->
            r_deviceId r = js_trim (orEmpty (lb_deviceId body)))
      /\ userId head = u_id user /\ deviceId head = r_deviceId r
      /\ status head = active
      /\ familyId head = newFamilyId rnd /\ tokenId head = newTokenId rnd
      /\ parentTokenHash head = None
      /\ refreshTokenHash head = hashToken (refreshToken r).
Proof.
  intros users now rnd body s s' r Hl.
  apply login_Ok_inv in Hl as (user & pair & Hu & _ & _ & -> & ->).
  simpl. set (dev := chosenDevice rnd body).
  exists user, (headLink user dev (newFamilyId rnd) (newTokenId rnd) pair).
  assert (forall i d, s !! i = Some d ->
            (revokeActiveForDevice now (u_id user) dev s ++
             [headLink user dev (newFamilyId rnd) (newTokenId rnd) pair]) !! i
            = Some (if activeOnDevice (u_id user) dev d
                    then setRevoked now "DEVICE_RELOGIN" d else d)) as Hrow.
  { intros i d Hi. apply lookup_app_l_Some.
    unfold revokeActiveForDevice. by rewrite updateMany_lookup, Hi. }
  assert (length (revokeActiveForDevice now (u_id user) dev s) = length s) as Hlen
    by apply updateMany_length.
  split; [exact Hu|]. split; [|split; [|split; [|split; [|split]]]].
  - unfold activeLinks. rewrite List.filter_app.
    fold (activeLinks (u_id user) dev
            (revokeActiveForDevice now (u_id user) dev s)).
    rewrite activeLinks_revokeActiveForDevice. simpl.
    unfold activeOnDevice. simpl. by rewrite !String.eqb_refl.
  - by rewrite length_app, Hlen, Nat.add_1_r.
  - rewrite lookup_app_r by lia. by rewrite Hlen, Nat.sub_diag.
  - intros i d Hi Hd. rewrite (Hrow i d Hi), Hd. eexists. split; [reflexivity|].
    do 3 (split; [reflexivity|]). apply revokedFrom_setRevoked.
  - intros i d Hi Hd. by rewrite (Hrow i d Hi), Hd.
  - repeat split; auto.
    + intros He. unfold dev, chosenDevice, isEmpty. by rewrite He.
    + intros He. unfold dev, chosenDevice, isEmpty.
      apply String.eqb_neq in He. by rewrite He.
Qed.
End Login.

(** ** Monotonicity of the status *)

Section Monotone.
Context `{Externals}.
Variable env : Env.
Variable users : list User.
Implicit Types (s : Store) (d : Session).

Lemma status_leb_refl st : status_leb st st = true.
Proof. by destruct st. Qed.

Lemma status_leb_revoked st : status_leb st revoked = true.
Proof. by destruct st. Qed.

Lemma status_leb_trans a b c :
  status_leb a b = true -> status_leb b c = true -> status_leb a c = true.
Proof. by destruct a, b, c. Qed.

Lemma status_leb_revoked_inv st : status_leb revoked st = true -> st = revoked.
Proof. by destruct st. Qed.

Lemma ledgerAdvances_refl s : ledgerAdvances s s.
Proof.
  intros i d Hi. exists d. split; [exact Hi|]. split; [apply status_leb_refl|auto].
Qed.

Lemma ledgerAdvances_trans s1 s2 s3 :
  ledgerAdvances s1 s2 -> ledgerAdvances s2 s3 -> ledgerAdvances s1 s3.
Proof.
  intros H12 H23 i d Hi.
  destruct (H12 i d Hi) as (d2 & Hi2 & Hle2 & Hrev2).
  destruct (H23 i d2 Hi2) as (d3 & Hi3 & Hle3 & Hrev3).
  exists d3. split; [exact Hi3|]. split.
  - eapply status_leb_trans; eauto.
  - intros Hd. specialize (Hrev2 Hd). subst d2. auto.
Qed.

Lemma ledgerAdvances_create s d : ledgerAdvances s (s ++ [d]).
Proof.
  intros i x Hi. exists x. split; [by apply lookup_app_l_Some|].
  split; [apply status_leb_refl|auto].
Qed.

(** A bulk revocation whose filter leaves revoked rows out. *)
Lemma ledgerAdvances_updateMany filter now reason s :
  (forall d, filter d = true -> status d <> revoked) ->
  ledgerAdvances s (updateMany filter (setRevoked now reason) s).
Proof.
  intros Hfilter i d Hi. rewrite updateMany_lookup, Hi. simpl.
  destruct (filter d) eqn:Hd.
  - exists (setRevoked now reason d). split; [reflexivity|].
    split; [apply status_leb_revoked|]. intros Hrev. by apply Hfilter in Hd.
  - exists d. split; [reflexivity|]. split; [apply status_leb_refl|auto].
Qed.

Lemma ledgerAdvances_revokeAll now uid reason s :
  ledgerAdvances s (revokeAllUserSessions now uid reason s).
Proof.
  apply ledgerAdvances_updateMany. intros d. unfold notRevokedOf.
  rewrite andb_true_iff. intros [_ Hst] Hrev. rewrite Hrev in Hst. discriminate.
Qed.

Lemma ledgerAdvances_revokeDevice now uid dev s :
  ledgerAdvances s (revokeActiveForDevice now uid dev s).
Proof.
  apply ledgerAdvances_updateMany. intros d. unfold activeOnDevice.
  rewrite !andb_true_iff. intros [_ Hst] Hrev. rewrite Hrev in Hst. discriminate.
Qed.

(** Saving a row that the request has found active. *)
Lemma ledgerAdvances_save i cur set s :
  s !! i = Some cur -> status cur = active ->
  ledgerAdvances s (save i set s).
Proof.
  intros Hi Hact j d Hj. destruct (decide (i = j)) as [<-|Hne].
  - rewrite save_lookup_eq, Hi. simpl. exists (set cur).
    assert (d = cur) as -> by congruence. rewrite Hact.
    split; [reflexivity|]. split; [by destruct (status (set cur))|discriminate].
  - rewrite save_lookup_ne by exact Hne. exists d.
    split; [exact Hj|]. split; [apply status_leb_refl|auto].
Qed.

Lemma ledgerAdvances_login now rnd body s :
  ledgerAdvances s (fst (login env users now rnd body s)).
Proof.
  unfold login.
  destruct (isEmpty _ || isEmpty _); [apply ledgerAdvances_refl|].
  destruct (findUserByEmail _ users) as [user|]; [|apply ledgerAdvances_refl].
  destruct (negb _); [apply ledgerAdvances_refl|].
  destruct (issueTokenPair env now _) as [pair|e]; [|apply ledgerAdvances_refl].
  unfold create. destruct (existsb _ _); simpl.
  - apply ledgerAdvances_revokeDevice.
  - eapply ledgerAdvances_trans;
      [apply ledgerAdvances_revokeDevice | apply ledgerAdvances_create].
Qed.

Lemma ledgerAdvances_refresh clock tid body s :
  ledgerAdvances s (fst (refresh env users clock tid body s)).
Proof.
  unfold refresh.
  destruct (isEmpty _); [apply ledgerAdvances_refl|].
  destruct (verifyRefreshToken env _ _) as [p|e]; [|apply ledgerAdvances_refl].
  destruct (castObjectId _) as [uid|]; [|apply ledgerAdvances_refl].
  destruct (findOne _ s) as [[i cur]|] eqn:Hf; [|apply ledgerAdvances_revokeAll].
  apply findOne_Some in Hf as (Hi & _).
  destruct (status cur) eqn:Hst; simpl; try apply ledgerAdvances_revokeAll.
  destruct (expiresAt cur <=? _); [by eapply ledgerAdvances_save|].
  destruct (findById _ users) as [user|]; [|apply ledgerAdvances_revokeAll].
  destruct (issueTokenPair env _ _) as [pair|e]; [|apply ledgerAdvances_refl].
  unfold create. destruct (existsb _ _); simpl.
  - by eapply ledgerAdvances_save.
  - eapply ledgerAdvances_trans;
      [by eapply ledgerAdvances_save | apply ledgerAdvances_create].
Qed.

Lemma ledgerSettles_refl s : ledgerSettles s s.
Proof. intros i d Hi. exists d. repeat split; auto. Qed.

Lemma ledgerSettles_trans s1 s2 s3 :
  ledgerSettles s1 s2 -> ledgerSettles s2 s3 -> ledgerSettles s1 s3.
Proof.
  intros H12 H23 i d Hi.
  destruct (H12 i d Hi) as (d2 & Hi2 & Hid2 & Hst2).
  destruct (H23 i d2 Hi2) as (d3 & Hi3 & Hid3 & Hst3).
  exists d3. split; [exact Hi3|]. split; [|auto].
  unfold sameIdentity in *. intuition congruence.
Qed.

Lemma ledgerSettles_create s d : ledgerSettles s (s ++ [d]).
Proof.
  intros i x Hi. exists x. split; [by apply lookup_app_l_Some|].
  repeat split; auto.
Qed.

(** Updates that keep the identity of a row and write a status other than
    [active]. *)
Lemma ledgerSettles_updateMany filter set s :
  (forall d, sameIdentity d (set d) /\ status (set d) <> active) ->
  ledgerSettles s (updateMany filter set s).
Proof.
  intros Hset i d Hi. rewrite updateMany_lookup, Hi. simpl.
  destruct (filter d).
  - exists (set d). split; [reflexivity|]. destruct (Hset d). auto.
  - exists d. repeat split; auto.
Qed.

Lemma ledgerSettles_save i set s :
  (forall d, sameIdentity d (set d) /\ status (set d) <> active) ->
  ledgerSettles s (save i set s).
Proof.
  intros Hset j d Hj. destruct (decide (i = j)) as [<-|Hne].
  - rewrite save_lookup_eq, Hj. simpl. exists (set d).
    split; [reflexivity|]. destruct (Hset d). auto.
  - rewrite save_lookup_ne by exact Hne. exists d. repeat split; auto.
Qed.

Lemma settled_setRevoked now reason d :
  sameIdentity d (setRevoked now reason d) /\ status (setRevoked now reason d) <> active.
Proof. by repeat split. Qed.

Lemma settled_setConsumed now h d :
  sameIdentity d (setConsumed now h d) /\ status (setConsumed now h d) <> active.
Proof. by repeat split. Qed.

Lemma ledgerSettles_revokeAll now uid reason s :
  ledgerSettles s (revokeAllUserSessions now uid reason s).
Proof. apply ledgerSettles_updateMany, settled_setRevoked. Qed.

(** One operation of a rotation in flight, whatever the request holds from
    its earlier reads. *)
Lemma stepAttempt_settles a s : ledgerSettles s (fst (stepAttempt env users a s)).
Proof.
  unfold stepAttempt, refreshStep.
  destruct (a_pc a) as [|p uid h [[i cur]|]|p uid h i [user|]|pair dev doc|r];
    simpl.
  - destruct (isEmpty _); [apply ledgerSettles_refl|].
    destruct (verifyRefreshToken env _ _) as [p|e]; [|apply ledgerSettles_refl].
    destruct (castObjectId _); apply ledgerSettles_refl.
  - destruct (negb _); [apply ledgerSettles_revokeAll|].
    destruct (expiresAt cur <=? _); simpl; [|apply ledgerSettles_refl].
    apply ledgerSettles_save, settled_setRevoked.
  - apply ledgerSettles_revokeAll.
  - destruct (issueTokenPair env _ _) as [pair|e]; simpl;
      [|apply ledgerSettles_refl].
    apply ledgerSettles_save, settled_setConsumed.
  - apply ledgerSettles_revokeAll.
  - unfold create. destruct (existsb _ _); simpl;
      [apply ledgerSettles_refl | apply ledgerSettles_create].
  - apply ledgerSettles_refl.
Qed.

(** One operation of a login in flight. *)
Lemma stepLogin_settles l s : ledgerSettles s (fst (stepLogin env users l s)).
Proof.
  unfold stepLogin, loginStep.
  destruct (l_pc l) as [|pw dev [user|]|dev user ok|pair dev doc|r]; simpl.
  - destruct (isEmpty _ || isEmpty _); apply ledgerSettles_refl.
  - apply ledgerSettles_refl.
  - apply ledgerSettles_refl.
  - destruct (negb ok); [apply ledgerSettles_refl|].
    destruct (issueTokenPair env _ _) as [pair|e]; simpl;
      [|apply ledgerSettles_refl].
    apply ledgerSettles_updateMany, settled_setRevoked.
  - unfold create. destruct (existsb _ _); simpl;
      [apply ledgerSettles_refl | apply ledgerSettles_create].
  - apply ledgerSettles_refl.
Qed.

Lemma stepRequest_settles r s : ledgerSettles s (fst (stepRequest env users r s)).
Proof.
  destruct r as [a|l]; simpl.
  - pose proof (stepAttempt_settles a s) as Hs.
    by destruct (stepAttempt env users a s).
  - pose proof (stepLogin_settles l s) as Hs.
    by destruct (stepLogin env users l s).
Qed.

(** Any number of requests in flight, under every schedule. *)
Lemma runPool_settles schedule pool s :
  ledgerSettles s (fst (runPool env users schedule pool s)).
Proof.
  revert pool s. induction schedule as [|k rest IH]; intros pool s; simpl.
  - apply ledgerSettles_refl.
  - destruct (pool !! k) as [r|]; [|apply IH].
    pose proof (stepRequest_settles r s) as Hstep.
    destruct (stepRequest env users r s) as [s1 r1]. simpl in Hstep.
    eapply ledgerSettles_trans; [exact Hstep | apply IH].
Qed.

(** C3, as the code has it. Under every operation of the core that runs with
    no operation of another request between its own, each row keeps its
    place and its status moves forward in the order active, consumed,
    revoked: a revoked row is left exactly as it was, and a consumed row is
    never active again (it stays consumed or becomes revoked).  With any
    number of logins and rotations in flight, under every schedule of their
    operations, each row keeps its place and its identity and a row that is
    no longer active is never active again. *)
Theorem status_moves_forward :
  forall s i d,
    s !! i = Some d ->
    (forall op,
       exists d', applyOp env users op s !! i = Some d'
                  /\ status_leb (status d) (status d') = true
                  /\ (status d = revoked -> d' = d)
                  /\ (status d = consumed -> status d' <> active))
    /\ (forall schedule pool,
          exists d', fst (runPool env users schedule pool s) !! i = Some d'
                     /\ sameIdentity d d'
                     /\ (status d <> active -> status d' <> active)).
Proof.
  intros s i d Hi. split.
  - intros op.
    assert (ledgerAdvances s (applyOp env users op s)) as Hadv.
    { destruct op; simpl.
      - apply ledgerAdvances_login.
      - apply ledgerAdvances_refresh.
      - apply ledgerAdvances_revokeAll.
      - apply ledgerAdvances_revokeDevice. }
    destruct (Hadv i d Hi) as (d' & Hi' & Hle & Hrev).
    exists d'. repeat split; auto.
    intros Hc Ha. rewrite Hc, Ha in Hle. discriminate.
  - intros schedule pool. exact (runPool_settles schedule pool s i d Hi).
Qed.
End Monotone.

(** ** Requests in flight *)

Section Interleaving.
Context `{Externals}.
Variable env : Env.
Variable users : list User.
Implicit Types (s : Store) (d : Session) (body : RefreshBody) (a b : Attempt)
               (clock : Clock).

(** Run alone, the four operations of a request are the handler. *)
Lemma runAttempt_refresh clock tid body s :
  runAttempt env users 4 (startAttempt clock tid body) s
  = (fst (refresh env users clock tid body s),
     withPc (startAttempt clock tid body)
            (Finished (snd (refresh env users clock tid body s)))).
Proof.
  unfold refresh, startAttempt, runAttempt, stepAttempt, refreshStep, withPc.
  simpl.
  destruct (isEmpty _); [reflexivity|].
  destruct (verifyRefreshToken env _ _) as [p|e]; [|reflexivity].
  simpl. destruct (castObjectId _) as [uid|]; [|reflexivity].
  simpl. destruct (findOne _ s) as [[i cur]|]; [|reflexivity].
  destruct (status cur); simpl; try reflexivity.
  destruct (expiresAt cur <=? _); [reflexivity|]. simpl.
  destruct (findById _ users) as [user|]; [|reflexivity].
  destruct (issueTokenPair env _ _) as [pair|e]; [|reflexivity].
  simpl. destruct (create _ _); reflexivity.
Qed.

(** So are the four operations of a login. *)
Lemma runLogin_login now rnd lbody s :
  runLogin env users 4 (startLogin now rnd lbody) s
  = (fst (login env users now rnd lbody s),
     withLoginPc (startLogin now rnd lbody)
                 (LoggedIn (snd (login env users now rnd lbody s)))).
Proof.
  unfold login, startLogin, runLogin, stepLogin, loginStep, withLoginPc.
  simpl.
  destruct (isEmpty _ || isEmpty _); [reflexivity|].
  simpl. destruct (findUserByEmail _ users) as [user|]; [|reflexivity].
  simpl. destruct (bcrypt_compare _ _); simpl; [|reflexivity].
  destruct (issueTokenPair env _ _) as [pair|e]; [|reflexivity].
  simpl. destruct (create _ _); reflexivity.
Qed.

Lemma matchesCredential_setRevoked h uid p now reason d :
  matchesCredential h uid p (setRevoked now reason d)
  = matchesCredential h uid p d.
Proof. reflexivity. Qed.

Lemma staleAt_create h uid p i s d :
  staleAt h uid p i s -> staleAt h uid p i (s ++ [d]).
Proof.
  intros (cur & Hi & Hm & Hst & Hmin).
  assert (i < length s)%nat as Hlt by (eapply lookup_lt_Some; eauto).
  exists cur. split; [by apply lookup_app_l_Some|]. do 2 (split; [assumption|]).
  intros j x Hj Hl. rewrite lookup_app_l in Hl by lia. eauto.
Qed.

Lemma staleAt_revokeAll h uid p i now uid' reason s :
  staleAt h uid p i s -> staleAt h uid p i (revokeAllUserSessions now uid' reason s).
Proof.
  intros (cur & Hi & Hm & Hst & Hmin).
  exists (if notRevokedOf uid' cur then setRevoked now reason cur else cur).
  split; [by rewrite revokeAll_lookup, Hi|].
  split; [by destruct (notRevokedOf uid' cur)|].
  split; [by destruct (notRevokedOf uid' cur)|].
  intros j x Hj. rewrite revokeAll_lookup.
  destruct (s !! j) as [y|] eqn:Hy; simpl; [|discriminate].
  intros [= <-]. specialize (Hmin j y Hj Hy).
  by destruct (notRevokedOf uid' y).
Qed.

Lemma staleAt_findOne h uid p i s :
  staleAt h uid p i s ->
  exists cur, findOne (matchesCredential h uid p) s = Some (i, cur)
              /\ status cur <> active.
Proof.
  intros (cur & Hi & Hm & Hst & Hmin). exists cur.
  split; [by apply findOne_first | assumption].
Qed.

(** What three operations of a request leave: a failure, or the consumed
    row in the ledger and [Session.create] still to run. *)
Lemma runAttempt_three clock tid body s s3 a3 :
  runAttempt env users 3 (startAttempt clock tid body) s = (s3, a3) ->
  a_clock a3 = clock /\ a_body a3 = body
  /\ ((exists e, a_pc a3 = Finished (Throw e))
      \/ (exists pair dev doc p uid,
            a_pc a3 = AtCreate pair dev doc
            /\ verifyRefreshToken env (atVerify clock)
                 (orEmpty (rb_refreshToken body)) = Ok p
            /\ castObjectId (p_sub p) = Some uid
            /\ exists i, staleAt (hashToken (orEmpty (rb_refreshToken body)))
                                 uid p i s3)).
Proof.
  unfold startAttempt, runAttempt, stepAttempt, refreshStep, withPc. simpl.
  destruct (isEmpty _); [intros [= <- <-]; simpl; eauto 10|].
  destruct (verifyRefreshToken env _ _) as [p|e] eqn:Hv;
    [|intros [= <- <-]; simpl; eauto 10].
  simpl. destruct (castObjectId _) as [uid|] eqn:Hcast;
    [|intros [= <- <-]; simpl; eauto 10].
  simpl. destruct (findOne _ s) as [[i cur]|] eqn:Hf;
    [|intros [= <- <-]; simpl; eauto 10].
  destruct (status cur) eqn:Hst; simpl; try (intros [= <- <-]; simpl; eauto 10).
  destruct (expiresAt cur <=? _); [intros [= <- <-]; simpl; eauto 10|]. simpl.
  destruct (findById _ users) as [user|]; [|intros [= <- <-]; simpl; eauto 10].
  destruct (issueTokenPair env _ _) as [pair|e];
    [|intros [= <- <-]; simpl; eauto 10].
  intros [= <- <-]. simpl. do 2 (split; [reflexivity|]). right.
  do 5 eexists. split; [reflexivity|]. split; [reflexivity|].
  split; [exact Hcast|]. exists i.
  apply findOne_Some in Hf as (Hi & Hm & Hmin).
  exists (setConsumed (atUser clock) (hashToken (tp_refreshToken pair)) cur).
  split; [by rewrite save_lookup_eq, Hi|].
  split; [assumption|]. split; [discriminate|].
  intros j x Hj Hl. rewrite save_lookup_ne in Hl by lia. eauto.
Qed.

(** A request past its save keeps the credential stale and stays there. *)
Lemma stepAttempt_pastSave h uid p i a s s' a' :
  pastSave a -> staleAt h uid p i s ->
  stepAttempt env users a s = (s', a') ->
  pastSave a' /\ staleAt h uid p i s'
  /\ a_clock a' = a_clock a /\ a_body a' = a_body a.
Proof.
  unfold pastSave, stepAttempt, refreshStep.
  destruct (a_pc a) as [| | |pair dev doc|r]; try contradiction; intros _ Hs.
  - unfold create. destruct (existsb _ s); intros [= <- <-]; simpl; auto.
    repeat split; auto. by apply staleAt_create.
  - intros [= <- <-]. simpl. auto.
Qed.

(** A losing request keeps the credential stale and keeps losing. *)
Lemma stepAttempt_losing uid p b s s' b' i :
  let h := hashToken (orEmpty (rb_refreshToken (a_body b))) in
  (forall q, verifyRefreshToken env (atVerify (a_clock b))
               (orEmpty (rb_refreshToken (a_body b))) = Ok q -> q = p) ->
  castObjectId (p_sub p) = Some uid ->
  losing env h uid p i b -> staleAt h uid p i s ->
  stepAttempt env users b s = (s', b') ->
  losing env h uid p i b' /\ staleAt h uid p i s'
  /\ a_clock b' = a_clock b /\ a_body b' = a_body b.
Proof.
  intros h Hp Hcast Hlose Hs. unfold stepAttempt, refreshStep.
  destruct Hlose as [Hpc | [(c & Hpc & Hc) | (e & Hpc & He)]]; rewrite Hpc.
  - destruct (isEmpty _) eqn:Hempty.
    { intros [= <- <-]. repeat split; auto. right; right. eexists.
      split; [reflexivity|]. simpl. intros q Hq.
      apply verify_nonempty in Hq. congruence. }
    destruct (verifyRefreshToken env _ _) as [q|e] eqn:Hv.
    + rewrite (Hp q eq_refl), Hcast.
      intros [= <- <-]. repeat split; auto. right; left. fold h.
      destruct (staleAt_findOne _ _ _ _ _ Hs) as (cur & -> & Hcur).
      exists cur. split; [reflexivity | assumption].
    + intros [= <- <-]. repeat split; auto. right; right. eexists.
      split; [reflexivity|]. simpl. intros q Hq. congruence.
  - destruct (status c) eqn:Hst; [contradiction|..]; simpl;
      intros [= <- <-]; repeat split; auto using staleAt_revokeAll;
      right; right; eexists; (split; [reflexivity|]); reflexivity.
  - intros [= <- <-]. repeat split; auto. right; right. exists e. auto.
Qed.

Lemma interleave_three rest a b s :
  interleave env users (true :: true :: true :: rest) a b s
  = let '(s3, a3) := runAttempt env users 3 a s in
    interleave env users rest a3 b s3.
Proof.
  simpl. destruct (stepAttempt env users a s) as [s1 a1].
  destruct (stepAttempt env users a1 s1) as [s2 a2].
  destruct (stepAttempt env users a2 s2) as [s3 a3]. reflexivity.
Qed.

Lemma stepAttempt_finished a s r :
  a_pc a = Finished r ->
  exists a', stepAttempt env users a s = (s, a') /\ a_pc a' = Finished r.
Proof.
  intros Hpc. unfold stepAttempt, refreshStep. rewrite Hpc.
  eexists. split; reflexivity.
Qed.

(** A finished request stays finished, whatever runs next. *)
Lemma interleave_finished_left schedule a b s s' a' b' r :
  a_pc a = Finished r ->
  interleave env users schedule a b s = (s', a', b') ->
  a_pc a' = Finished r.
Proof.
  revert a b s. induction schedule as [|[|] rest IH]; intros a b s Hpc; simpl.
  - intros [= _ <- _]. exact Hpc.
  - destruct (stepAttempt_finished a s r Hpc) as (a1 & -> & Hpc1). eauto.
  - destruct (stepAttempt env users b s) as [s1 b1]. eauto.
Qed.

(** Once one request is past its save and the credential is stale, the other
    request loses under every schedule. *)
Lemma interleave_losing schedule uid p i :
  forall a b s s' a' b',
    let h := hashToken (orEmpty (rb_refreshToken (a_body b))) in
    (forall q, verifyRefreshToken env (atVerify (a_clock b))
                 (orEmpty (rb_refreshToken (a_body b))) = Ok q -> q = p) ->
    castObjectId (p_sub p) = Some uid ->
    pastSave a -> losing env h uid p i b -> staleAt h uid p i s ->
    interleave env users schedule a b s = (s', a', b') ->
    losing env h uid p i b' /\ a_clock b' = a_clock b /\ a_body b' = a_body b.
Proof.
  induction schedule as [|[|] rest IH];
    intros a b s s' a' b' h Hp Hcast Ha Hb Hs; simpl.
  - intros [= _ _ <-]. auto.
  - destruct (stepAttempt env users a s) as [s1 a1] eqn:Hstep.
    destruct (stepAttempt_pastSave h uid p i a s s1 a1 Ha Hs Hstep)
      as (Ha1 & Hs1 & _ & _).
    intros Hrun. exact (IH a1 b s1 s' a' b' Hp Hcast Ha1 Hb Hs1 Hrun).
  - destruct (stepAttempt env users b s) as [s1 b1] eqn:Hstep.
    destruct (stepAttempt_losing uid p b s s1 b1 i Hp Hcast Hb Hs Hstep)
      as (Hb1 & Hs1 & Hnow & Hbody).
    intros Hrun.
    assert (losing env (hashToken (orEmpty (rb_refreshToken (a_body b1))))
                   uid p i b1) as Hb1' by (rewrite Hbody; exact Hb1).
    assert (staleAt (hashToken (orEmpty (rb_refreshToken (a_body b1)))) uid p i s1)
      as Hs1' by (rewrite Hbody; exact Hs1).
    assert (forall q, verifyRefreshToken env (atVerify (a_clock b1))
              (orEmpty (rb_refreshToken (a_body b1))) = Ok q -> q = p) as Hp1
      by (rewrite Hnow, Hbody; exact Hp).
    destruct (IH a b1 s1 s' a' b' Hp1 Hcast Ha Hb1' Hs1' Hrun) as (Hl & Hn & Hbd).
    rewrite Hbody in Hl. rewrite Hn, Hbd. auto.
Qed.

Lemma losing_not_succeeded h uid p i b :
  losing env h uid p i b -> succeeded b = false.
Proof.
  unfold succeeded.
  intros [-> | [(c & -> & _) | (e & -> & _)]]; reflexivity.
Qed.

(** C2, as the code has it. Two requests present the same credential; the
    first runs its lookup, its user lookup and its save before the second
    runs anything, and from there on the two are scheduled in any order.
    If the first succeeds, the second does not, and if the second has
    finished with a credential that verifies at its instant, it has thrown
    the reuse error. *)
Theorem rotation_after_save_loses :
  forall clock1 clock2 tid1 tid2 body rest s s' a' b',
    interleave env users (true :: true :: true :: rest)
               (startAttempt clock1 tid1 body) (startAttempt clock2 tid2 body) s
    = (s', a', b') ->
    succeeded a' = true ->
    succeeded b' = false
    /\ (forall r q,
          a_pc b' = Finished r ->
          verifyRefreshToken env (atVerify clock2)
            (orEmpty (rb_refreshToken body)) = Ok q ->
          r = Throw reuseDetected).
Proof.
  intros clock1 clock2 tid1 tid2 body rest s s' a' b' Hrun Hwin.
  rewrite interleave_three in Hrun.
  destruct (runAttempt env users 3 (startAttempt clock1 tid1 body) s)
    as [s3 a3] eqn:H3.
  apply runAttempt_three in H3 as (_ & _ & [(e & Hfail) | Hsaved]).
  { apply (interleave_finished_left _ _ _ _ _ _ _ _ Hfail) in Hrun.
    unfold succeeded in Hwin. rewrite Hrun in Hwin. discriminate. }
  destruct Hsaved as (pair & dev & doc & p & uid & Hpc & Hv1 & Hcast & i & Hstale).
  destruct (interleave_losing rest uid p i a3 (startAttempt clock2 tid2 body)
              s3 s' a' b') as (Hlose & Hnow & Hbody); simpl; auto.
  - intros q Hq. symmetry. eapply verify_same_payload; eauto.
  - unfold pastSave. by rewrite Hpc.
  - by left.
  - split; [eapply losing_not_succeeded; eauto|].
    intros r q Hr Hq. simpl in Hlose, Hnow, Hbody.
    destruct Hlose as [Hpc' | [(c & Hpc' & _) | (e & Hpc' & He)]];
      try congruence.
    rewrite Hpc' in Hr. injection Hr as <-. f_equal.
    apply (He q). by rewrite Hnow, Hbody.
Qed.
End Interleaving.

(** ** The ledger stays bound to the credentials issued

    With a digest without collisions and a decoder that returns what was
    signed, every row the core creates is bound to its credential, so the
    hypothesis of [refresh_chain_integrity] holds of every reachable ledger. *)

Section Binding.
Context `{Externals}.
Variable env : Env.
Variable users : list User.
Hypothesis sha256_inj : forall a b, sha256_hex a = sha256_hex b -> a = b.
Hypothesis jwt_decode_encode :
  forall c secret c', jwt_decode (jwt_encode c secret) secret = Some c' -> c' = c.
Implicit Types (s : Store) (d : Session).

Lemma issueTokenPair_refreshToken now params pair :
  issueTokenPair env now params = Ok pair ->
  exists secret,
    readSecret env RefreshSecret = Ok secret
    /\ tp_refreshToken pair
       = signToken now (RefreshPayload (ip_userId params) (ip_deviceId params)
                                       (ip_familyId params) (ip_tokenId params))
                   secret REFRESH_TOKEN_TTL.
Proof.
  unfold issueTokenPair.
  destruct (readSecret env AccessSecret) as [asec|]; [|discriminate].
  destruct (readSecret env RefreshSecret) as [rsec|]; [|discriminate].
  intros [= <-]. exists rsec. split; reflexivity.
Qed.

(** A row whose hash is that of a token issued for its device is bound. *)
Lemma deviceBound_issued now params pair d :
  issueTokenPair env now params = Ok pair ->
  refreshTokenHash d = hashToken (tp_refreshToken pair) ->
  deviceId d = ip_deviceId params ->
  deviceBound env d.
Proof.
  intros Hpair Hhash Hdev now' token p Htok Hv.
  apply issueTokenPair_refreshToken in Hpair as (secret & Hs & Hpair).
  rewrite Hhash in Htok. apply sha256_inj in Htok. subst token.
  apply verify_Ok_inv in Hv as (secret' & c & Hs' & _ & Hdec & _ & Hp).
  assert (secret' = secret) as -> by congruence.
  rewrite Hpair in Hdec. unfold signToken in Hdec.
  apply jwt_decode_encode in Hdec. subst c. simpl in Hp. congruence.
Qed.

Lemma ledgerBound_nil : ledgerBound env [].
Proof. intros d Hd. inversion Hd. Qed.

Lemma ledgerBound_snoc s d :
  ledgerBound env s -> deviceBound env d -> ledgerBound env (s ++ [d]).
Proof.
  intros Hs Hd x [Hx | ->%list_elem_of_singleton]%elem_of_app; auto.
Qed.

(** Updates that keep the hash and the device of every row. *)
Lemma ledgerBound_updateMany filter now reason s :
  ledgerBound env s -> ledgerBound env (updateMany filter (setRevoked now reason) s).
Proof.
  intros Hs d (x & -> & Hx)%list_elem_of_fmap.
  destruct (filter x); [|by apply Hs].
  intros now' token p. apply (Hs x Hx).
Qed.

Lemma ledgerBound_save i set s :
  (forall d, refreshTokenHash (set d) = refreshTokenHash d
             /\ deviceId (set d) = deviceId d) ->
  ledgerBound env s -> ledgerBound env (save i set s).
Proof.
  intros Hset Hs d (j & Hj)%list_elem_of_lookup.
  destruct (decide (i = j)) as [<-|Hne].
  - rewrite save_lookup_eq in Hj.
    destruct (s !! i) as [x|] eqn:Hx; [|discriminate]. injection Hj as <-.
    destruct (Hset x) as [Hh Hd]. intros now' token p.
    rewrite Hh, Hd. apply (Hs x). apply list_elem_of_lookup. eauto.
  - rewrite save_lookup_ne in Hj by exact Hne.
    apply Hs. apply list_elem_of_lookup. eauto.
Qed.

Lemma ledgerBound_login now rnd body s :
  ledgerBound env s -> ledgerBound env (fst (login env users now rnd body s)).
Proof.
  intros Hs. unfold login.
  destruct (isEmpty _ || isEmpty _); [exact Hs|].
  destruct (findUserByEmail _ users) as [user|]; [|exact Hs].
  destruct (negb _); [exact Hs|].
  destruct (issueTokenPair env now _) as [pair|e] eqn:Hpair; [|exact Hs].
  unfold create. destruct (existsb _ _); simpl.
  - by apply ledgerBound_updateMany.
  - apply ledgerBound_snoc; [by apply ledgerBound_updateMany|].
    eapply deviceBound_issued; eauto.
Qed.

Lemma ledgerBound_refresh clock tid body s :
  ledgerBound env s -> ledgerBound env (fst (refresh env users clock tid body s)).
Proof.
  intros Hs. unfold refresh.
  destruct (isEmpty _); [exact Hs|].
  destruct (verifyRefreshToken env _ _) as [p|e]; [|exact Hs].
  destruct (castObjectId _) as [uid|]; [|exact Hs].
  destruct (findOne _ s) as [[i cur]|]; [|by apply ledgerBound_updateMany].
  destruct (negb _); [by apply ledgerBound_updateMany|].
  destruct (expiresAt cur <=? _); [by apply ledgerBound_save|].
  destruct (findById _ users) as [user|]; [|by apply ledgerBound_updateMany].
  destruct (issueTokenPair env _ _) as [pair|e] eqn:Hpair; [|exact Hs].
  unfold create. destruct (existsb _ _); simpl.
  - by apply ledgerBound_save.
  - apply ledgerBound_snoc; [by apply ledgerBound_save|].
    eapply deviceBound_issued; eauto.
Qed.

Lemma reachable_ledgerBound s : reachable env users s -> ledgerBound env s.
Proof.
  induction 1 as [|op s _ IH]; [apply ledgerBound_nil|].
  destruct op; simpl.
  - by apply ledgerBound_login.
  - by apply ledgerBound_refresh.
  - by apply ledgerBound_updateMany.
  - by apply ledgerBound_updateMany.
Qed.
End Binding.

(** ** The reference externals are a codec and an injective digest *)

Module ReferenceFacts.
Import Reference.

Lemma untally_tally n r : untally (String.append (tally n) r) = Some (n, r).
Proof. induction n as [|n IH]; simpl; [reflexivity | by rewrite IH]. Qed.

Lemma chop_append f r : chop (String.length f) (String.append f r) = Some (f, r).
Proof. induction f as [|c f IH]; simpl; [reflexivity | by rewrite IH]. Qed.

Lemma append_assoc (a b c : string) :
  String.append (String.append a b) c = String.append a (String.append b c).
Proof.
  induction a as [|x a IH]; [reflexivity|].
  change (String x (String.append (String.append a b) c)
          = String x (String.append a (String.append b c))).
  by rewrite IH.
Qed.

Lemma unfield_field f r : unfield (String.append (field f) r) = Some (f, r).
Proof.
  unfold unfield, field. rewrite append_assoc, untally_tally. apply chop_append.
Qed.

Lemma unfields_fields l : unfields (length l) (fields l) = Some l.
Proof.
  induction l as [|f l IH]; simpl; [reflexivity|].
  by rewrite unfield_field, IH.
Qed.

Lemma unbits_bits p : unbits (bits p) = Some p.
Proof. induction p as [p IH|p IH|]; simpl; [by rewrite IH..|reflexivity]. Qed.

Lemma unnumeral_numeral z : unnumeral (numeral z) = Some z.
Proof. destruct z as [|p|p]; simpl; [reflexivity|by rewrite unbits_bits..]. Qed.

Lemma unpayload_fields p :
  match payloadFields p with
  | [ty; a; b; c; d] => unpayload ty a b c d = Some p
  | _ => False
  end.
Proof. destruct p as [sub [|]|sub dev fam tok]; reflexivity. Qed.

(** Decoding what was encoded under the same secret gives the claims back. *)
Lemma decode_encode c secret : decode (encode c secret) secret = Some c.
Proof.
  unfold decode, encode. pose proof (unpayload_fields (c_payload c)) as Hp.
  destruct (payloadFields (c_payload c)) as [|ty [|a [|b [|x [|d [|]]]]]];
    try contradiction.
  change 8%nat with (length [secret; ty; a; b; x; d;
                              numeral (c_iat c); numeral (c_exp c)]).
  simpl app. rewrite unfields_fields, String.eqb_refl, Hp, !unnumeral_numeral.
  by destruct c.
Qed.

Lemma digest_inj a b : digest a = digest b -> a = b.
Proof. unfold digest. congruence. Qed.
End ReferenceFacts.

(** ** The scenario of the reference deployment *)

Section Scenario.
Import Reference ReferenceFacts.

Lemma ledger1_reachable : reachable env users ledger1.
Proof.
  apply (reachable_step env users
           (OpLogin 0 (mkUuids "d1" "f1" "t1") (aliceLogin None)) []).
  apply reachable_empty.
Qed.

Lemma ledger1_bound : ledgerBound env ledger1.
Proof.
  apply (reachable_ledgerBound env users).
  - exact digest_inj.
  - intros c secret c' Hd. simpl in Hd. rewrite decode_encode in Hd. congruence.
  - exact ledger1_reachable.
Qed.


Lemma refresh_chain_integrity_witness :
  ledgerBound env ledger1
  /\ refresh env users (instant 5) "t2" (present token1) ledger1
     = (ledger2, Ok response2)
  /\ exists cur' next,
       ledger2 !! 0%nat = Some cur' /\ ledger2 !! 1%nat = Some next
       /\ status cur' = consumed
       /\ replacedByHash cur' = Some (hashToken (refreshToken response2))
       /\ status next = active
       /\ refreshTokenHash next = hashToken (refreshToken response2)
       /\ parentTokenHash next = Some (hashToken token1)
       /\ tokenId next = "t2".
Proof.
  assert (refresh env users (instant 5) "t2" (present token1) ledger1
          = (ledger2, Ok response2)) as H1 by (vm_compute; reflexivity).
  split; [exact ledger1_bound|]. split; [exact H1|].
  destruct (refresh_chain_integrity env users (instant 5) "t2" (present token1)
              ledger1 ledger2 response2 ledger1_bound H1)
    as (i & cur & cur' & next & Hi & _ & Hh & Hi' & _ & Hst & Hrep & Hnext & _ & _
        & Hact & Hnh & Hpar & _ & _ & _ & _ & Htid).
  assert (i = 0%nat) as ->.
  { apply lookup_lt_Some in Hi. change (length ledger1) with 1%nat in Hi. lia. }
  exists cur', next. change (length ledger1) with 1%nat in Hnext.
  repeat split; auto. rewrite Hpar. f_equal. exact Hh.
Defined.

Lemma login_single_active_link_witness :
  login env users 7 (mkUuids "d9" "f2" "t5") (aliceLogin (Some "d1")) ledger1
  = (ledger3, Ok response3)
  /\ (status <$> ledger1) = [active]
  /\ (status <$> ledger3) = [revoked; active]
  /\ (revokedReason <$> ledger3) = [Some "DEVICE_RELOGIN"; None]
  /\ exists head,
       activeLinks aliceId "d1" ledger3 = [head]
       /\ ledger3 !! 1%nat = Some head
       /\ familyId head = "f2" /\ tokenId head = "t5"
       /\ parentTokenHash head = None.
Proof.
  assert (login env users 7 (mkUuids "d9" "f2" "t5") (aliceLogin (Some "d1"))
                ledger1 = (ledger3, Ok response3)) as H1
    by (vm_compute; reflexivity).
  split; [exact H1|]. do 3 (split; [vm_compute; reflexivity|]).
  destruct (login_single_active_link env users 7 (mkUuids "d9" "f2" "t5")
              (aliceLogin (Some "d1")) ledger1 ledger3 response3 H1)
    as (user & head & Hu & Hone & _ & Hat & _ & _ & _ & _ & _ & _ & _ & Hfam & Htid
        & Hpar & _).
  assert (user = alice) as ->
    by (vm_compute in Hu; injection Hu as <-; reflexivity).
  exists head. repeat split; auto.
Defined.

Lemma refresh_unknown_credential_witness :
  verifyRefreshToken env 5 forged = Ok claimsForged
  /\ castObjectId aliceId = Some aliceId
  /\ (forall d, d ∈ ledger1 -> refreshTokenHash d <> hashToken forged)
  /\ exists s',
       refresh env users (instant 5) "t2" (present forged) ledger1
       = (s', Throw (ThrowApp (AuthError "Refresh token is invalid")))
       /\ (status <$> ledger1) = [active]
       /\ length s' = length ledger1
       /\ (forall d, d ∈ s' -> userId d = aliceId -> status d = revoked).
Proof.
  assert (verifyRefreshToken env (atVerify (instant 5))
            (orEmpty (rb_refreshToken (present forged)))
          = Ok claimsForged) as H1 by (vm_compute; reflexivity).
  assert (castObjectId (p_sub claimsForged) = Some aliceId) as H0
    by (vm_compute; reflexivity).
  assert (forall d, d ∈ ledger1 -> refreshTokenHash d <> hashToken forged) as H2.
  { intros d Hd. apply list_elem_of_lookup in Hd as [[|i] Hi];
      vm_compute in Hi; [|discriminate].
    injection Hi as <-. vm_compute. discriminate. }
  split; [exact H1|]. split; [exact H0|]. split; [exact H2|].
  destruct (proj1 (refresh_unknown_credential env users (instant 5) "t2"
                     (present forged) ledger1 claimsForged H1) aliceId H0)
    as (s' & Hr & Hlen & _ & _ & Hall).
  { intros d Hd [Hh _]. exact (H2 d Hd Hh). }
  exists s'. split; [exact Hr|]. split; [vm_compute; reflexivity|].
  split; [exact Hlen | exact Hall].
Defined.

Lemma refresh_expired_credential_witness :
  verifyRefreshToken env 5 token1 = Ok claims1
  /\ shortLedger !! 1%nat = Some shortRow
  /\ (status <$> shortLedger) = [active; active]
  /\ exists s' cur',
       refresh env users (instant 5) "t2" (present token1) shortLedger
       = (s', Throw (ThrowApp (AuthError "Refresh token is expired")))
       /\ s' !! 1%nat = Some cur'
       /\ status cur' = revoked
       /\ revokedReason cur' = Some "REFRESH_TOKEN_EXPIRED"
       /\ revokedAt cur' = Some 5
       /\ s' !! 0%nat = shortLedger !! 0%nat
       /\ length s' = length shortLedger.
Proof.
  assert (verifyRefreshToken env (atVerify (instant 5))
            (orEmpty (rb_refreshToken (present token1)))
          = Ok claims1) as H1 by (vm_compute; reflexivity).
  assert (castObjectId (p_sub claims1) = Some aliceId) as H0
    by (vm_compute; reflexivity).
  assert (NoDup (refreshTokenHash <$> shortLedger)) as Hnd.
  { apply NoDup_cons. split; [|apply NoDup_singleton].
    intros Hin%list_elem_of_singleton. vm_compute in Hin. discriminate. }
  assert (shortLedger !! 1%nat = Some shortRow) as H2 by reflexivity.
  split; [exact H1|]. split; [exact H2|]. split; [reflexivity|].
  destruct (refresh_expired_credential env users (instant 5) "t2" (present token1)
              shortLedger claims1 aliceId 1%nat shortRow H1 H0 Hnd H2)
    as (s' & cur' & Hr & Hi & Hst & Hreason & Hat & _ & Hother & Hlen);
    [reflexivity | reflexivity | reflexivity | reflexivity | reflexivity
    | simpl; lia |].
  exists s', cur'. repeat split; auto.
Defined.

Lemma refresh_invalid_credential_witness :
  verifyRefreshToken env 5 "garbage"
  = Throw (ThrowApp (AuthError "Invalid or expired refresh token"))
  /\ orEmpty (rb_refreshToken (present "garbage")) <> ""
  /\ refresh env users (instant 5) "t2" (present "garbage") ledger1
     = (ledger1, Throw (ThrowApp (AuthError "Invalid or expired refresh token"))).
Proof.
  assert (verifyRefreshToken env (atVerify (instant 5))
            (orEmpty (rb_refreshToken (present "garbage")))
          = Throw (ThrowApp (AuthError "Invalid or expired refresh token")))
    as H1 by (vm_compute; reflexivity).
  assert (orEmpty (rb_refreshToken (present "garbage")) <> "") as H0
    by (simpl; discriminate).
  split; [exact H1|]. split; [exact H0|].
  exact (proj1 (proj2 (proj2 (refresh_invalid_credential env users (instant 5)
                                "t2" (present "garbage") ledger1 _ H1)) H0)).
Defined.

Lemma refresh_user_not_found_witness :
  verifyRefreshToken env 5 token1 = Ok claims1
  /\ (status <$> ledger1) = [active]
  /\ exists s',
       refresh env [] (instant 5) "t2" (present token1) ledger1
       = (s', Throw (ThrowApp (AuthError "User account not found")))
       /\ exists cur', s' !! 0%nat = Some cur' /\ status cur' = revoked
                       /\ revokedReason cur' = Some "USER_NOT_FOUND".
Proof.
  assert (verifyRefreshToken env (atVerify (instant 5))
            (orEmpty (rb_refreshToken (present token1)))
          = Ok claims1) as H1 by (vm_compute; reflexivity).
  assert (castObjectId (p_sub claims1) = Some aliceId) as H0
    by (vm_compute; reflexivity).
  assert (NoDup (refreshTokenHash <$> ledger1)) as Hnd by apply NoDup_singleton.
  assert (exists cur, ledger1 !! 0%nat = Some cur
                      /\ refreshTokenHash cur
                         = hashToken (orEmpty (rb_refreshToken (present token1)))
                      /\ userId cur = aliceId
                      /\ familyId cur = p_familyId claims1
                      /\ tokenId cur = p_tokenId claims1
                      /\ status cur = active
                      /\ atFound (instant 5) < expiresAt cur)
    as (cur & H2 & H3 & H4 & H5 & H6 & H7 & H8)
    by (eexists; vm_compute; repeat split; reflexivity).
  split; [exact H1|]. split; [reflexivity|].
  destruct (refresh_user_not_found env [] (instant 5) "t2" (present token1)
              ledger1 claims1 aliceId 0%nat cur H1 H0 Hnd H2 H3 H4 H5 H6 H7 H8)
    as (s' & Hr & _ & _ & Hcur & _).
  { intros u Hu. inversion Hu. }
  exists s'. split; [exact Hr | exact Hcur].
Defined.

Lemma rotation_after_save_loses_witness :
  exists s' a' b',
    interleave env users [true; true; true; false; true; false]
               (startAttempt (instant 5) "t2" (present token1))
               (startAttempt (instant 6) "t3" (present token1)) ledger1
    = (s', a', b')
    /\ succeeded a' = true
    /\ succeeded b' = false
    /\ a_pc b' = Finished (Throw reuseDetected).
Proof.
  destruct (interleave env users [true; true; true; false; true; false]
              (startAttempt (instant 5) "t2" (present token1))
              (startAttempt (instant 6) "t3" (present token1)) ledger1)
    as [[s' a'] b'] eqn:Hrun.
  assert (succeeded a' = true) as Hwin.
  { apply (f_equal (fun x => succeeded (snd (fst x)))) in Hrun.
    simpl in Hrun. rewrite <- Hrun. vm_compute. reflexivity. }
  assert (a_pc b' = Finished (Throw reuseDetected)) as Hb.
  { apply (f_equal (fun x => a_pc (snd x))) in Hrun.
    simpl in Hrun. rewrite <- Hrun. vm_compute. reflexivity. }
  exists s', a', b'. split; [reflexivity|]. split; [exact Hwin|].
  split; [|exact Hb].
  exact (proj1 (rotation_after_save_loses env users (instant 5) (instant 6)
                  "t2" "t3" (present token1) [false; true; false] ledger1
                  s' a' b' Hrun Hwin)).
Defined.

Lemma status_moves_forward_witness :
  status <$> ledger2 !! 0%nat = Some consumed
  /\ exists d,
       ledger2 !! 0%nat = Some d
       /\ (exists d',
             applyOp env users (OpRotate (instant 6) "t3" (present token1)) ledger2
             !! 0%nat = Some d'
             /\ status_leb (status d) (status d') = true
             /\ (status d = consumed -> status d' <> active))
       /\ (exists d',
             fst (runPool env users rotationAroundRelogin reloginBesideRotation
                          ledger2) !! 0%nat = Some d'
             /\ sameIdentity d d'
             /\ (status d <> active -> status d' <> active)).
Proof.
  split; [vm_compute; reflexivity|].
  destruct (ledger2 !! 0%nat) as [d|] eqn:Hd;
    [|exfalso; vm_compute in Hd; discriminate].
  destruct (status_moves_forward env users ledger2 0%nat d Hd) as [Hseq Hpool].
  destruct (Hseq (OpRotate (instant 6) "t3" (present token1)))
    as (d' & H1 & H2 & _ & H4).
  exists d. split; [reflexivity|]. split; [eauto|].
  exact (Hpool rotationAroundRelogin reloginBesideRotation).
Defined.

(** The consumed row of the rotated credential is revoked when the
    credential is presented again: a consumed row does change state. *)
Lemma consumed_row_is_revoked_on_replay :
  status <$> ledger2 !! 0%nat = Some consumed
  /\ status <$> applyOp env users (OpRotate (instant 6) "t3" (present token1)) ledger2
                !! 0%nat = Some revoked
  /\ status <$> applyOp env users
                  (OpRevokeAll 6 aliceId "REFRESH_TOKEN_REUSE_DETECTED") ledger2
                !! 0%nat = Some revoked.
Proof. vm_compute. repeat split; reflexivity. Qed.

(** With requests in flight a revoked row changes too: the rotation of
    [token2] has looked its row up when a replay of [token1] revokes every
    row of Alice, and its save then writes [consumed] over [revoked]. *)
Lemma revoked_row_is_consumed_by_stale_save :
  (status <$> ledger2) = [consumed; active]
  /\ (status <$> fst (runAttempt env users 2
                        (startAttempt (instant 7) "t4" (present token1)) ledger2))
     = [revoked; revoked]
  /\ let '(s', a', b') :=
       interleave env users rotationAroundReplay
                  (startAttempt (instant 6) "t3" (present token2))
                  (startAttempt (instant 7) "t4" (present token1)) ledger2 in
     succeeded a' = true
     /\ a_pc b' = Finished (Throw reuseDetected)
     /\ (status <$> s') = [revoked; consumed; active].
Proof. vm_compute. repeat split; reflexivity. Qed.

(** Both requests look the active row up before either saves: both finish
    with a response, and the ledger holds two active successors of the same
    row. *)
Lemma interleaved_rotations_both_succeed :
  status <$> ledger1 !! 0%nat = Some active
  /\ let '(s', a', b') :=
       interleave env users alternating
                  (startAttempt (instant 5) "t2" (present token1))
                  (startAttempt (instant 6) "t3" (present token1)) ledger1 in
     succeeded a' = true /\ succeeded b' = true
     /\ (status <$> s') = [consumed; active; active]
     /\ (tokenId <$> s') = ["t1"; "t2"; "t3"].
Proof. vm_compute. repeat split; reflexivity. Qed.

(** A rotation that succeeds beside another one: when the first request is
    answered, the row of the credential it presented names the credential
    of the other request as its successor, not the one the first request
    returns. *)
Lemma interleaved_rotation_breaks_chain :
  let '(s', a', b') :=
    interleave env users alternating
               (startAttempt (instant 5) "t2" (present token1))
               (startAttempt (instant 6) "t3" (present token1)) ledger1 in
  exists ra rb,
    a_pc a' = Finished (Ok ra) /\ a_pc b' = Finished (Ok rb)
    /\ (status <$> s' !! 0%nat) = Some consumed
    /\ (refreshTokenHash <$> s' !! 0%nat) = Some (hashToken token1)
    /\ (replacedByHash <$> s' !! 0%nat) = Some (Some (hashToken (refreshToken rb)))
    /\ (replacedByHash <$> s' !! 0%nat) <> Some (Some (hashToken (refreshToken ra))).
Proof.
  vm_compute. do 2 eexists. repeat split; try reflexivity. discriminate.
Qed.

(** A login that succeeds beside a rotation: the rotation has looked its row
    up before the login revokes the active rows of the device, and creates
    its successor before the login creates the head; when the login is
    answered, the device has two active links. *)
Lemma login_beside_rotation_two_active :
  (status <$> ledger1) = [active]
  /\ let '(s', pool) :=
       runPool env users rotationAroundRelogin reloginBesideRotation ledger1 in
     (exists r, (pool !! 0%nat) ≫= answer = Some (Ok r) /\ r_deviceId r = "d1")
     /\ (exists r, (pool !! 1%nat) ≫= answer = Some (Ok r))
     /\ (tokenId <$> activeLinks aliceId "d1" s') = ["t2"; "t5"]
     /\ (status <$> s') = [consumed; active; active].
Proof.
  vm_compute. split; [reflexivity|].
  split; [eexists; split; reflexivity|].
  split; [eexists; reflexivity|]. split; reflexivity.
Qed.

(** A credential that verifies and whose subject is no [ObjectId]: the lookup
    throws the [CastError], which is answered with status 400, and no row is
    revoked. *)
Lemma unknown_subject_is_not_rejected :
  verifyRefreshToken env 5 forgedStranger = Ok claimsStranger
  /\ (forall d, d ∈ ledger1 -> refreshTokenHash d <> hashToken forgedStranger)
  /\ refresh env users (instant 5) "t2" (present forgedStranger) ledger1
     = (ledger1, Throw (ThrowCastError "userId"))
  /\ (status <$> ledger1) = [active]
  /\ errorHandler (RaisedThrown (ThrowCastError "userId"))
     = mkErrorResponse 400 "VALIDATION_ERROR" (invalidValue "userId").
Proof.
  split; [vm_compute; reflexivity|]. split.
  - intros d Hd. apply list_elem_of_lookup in Hd as [[|i] Hi];
      vm_compute in Hi; [|discriminate].
    injection Hi as <-. vm_compute. discriminate.
  - split; [vm_compute; reflexivity|]. split; vm_compute; reflexivity.
Qed.
End Scenario.

(** ** More about the reference externals *)

Module ReferenceSoundness.
Import Reference ReferenceFacts.

Lemma tally_nonempty n r : String.append (tally n) r <> "".
Proof. destruct n; discriminate. Qed.

Lemma encode_nonempty c secret : encode c secret <> "".
Proof.
  unfold encode. cbn [fields]. unfold field at 1.
  rewrite append_assoc. apply tally_nonempty.
Qed.

(** Decoding under any secret gives nothing but what was signed. *)
Lemma decode_sound c secret secret' c' :
  decode (encode c secret) secret' = Some c' -> c' = c.
Proof.
  destruct (String.eqb secret secret') eqn:Hs.
  - apply String.eqb_eq in Hs. subst secret'. rewrite decode_encode. congruence.
  - unfold decode, encode.
    pose proof (unpayload_fields (c_payload c)) as Hp.
    destruct (payloadFields (c_payload c)) as [|ty [|a [|b [|x [|d [|]]]]]];
      try contradiction.
    change 8%nat with (length [secret; ty; a; b; x; d;
                                numeral (c_iat c); numeral (c_exp c)]).
    simpl app. rewrite unfields_fields, Hs. discriminate.
Qed.

Lemma reference_decode_encode c secret c' :
  jwt_decode (jwt_encode c secret) secret = Some c' -> c' = c.
Proof. apply decode_sound. Qed.
End ReferenceSoundness.

(** * Further properties of the code *)

(** ** auth/tokens.ts: configuration and the life of a token *)

Section TokenLife.
Context `{Externals}.
Variable env : Env.

Lemma readSecret_Ok_iff n sec :
  readSecret env n = Ok sec
  <-> (match n with
       | AccessSecret => JWT_ACCESS_SECRET env
       | RefreshSecret => JWT_REFRESH_SECRET env
       end) = Some sec /\ 32 <= Z.of_nat (jsLength sec).
Proof.
  unfold readSecret.
  destruct (match n with
            | AccessSecret => JWT_ACCESS_SECRET env
            | RefreshSecret => JWT_REFRESH_SECRET env
            end) as [x|]; [|split; [discriminate | intros [? _]; discriminate]].
  destruct (Z.of_nat (jsLength x) <? 32) eqn:Hlen.
  - apply Z.ltb_lt in Hlen. split; [discriminate|].
    intros [[= ->] Hle]. lia.
  - apply Z.ltb_ge in Hlen. split.
    + intros [= ->]. auto.
    + intros [[= ->] _]. reflexivity.
Qed.

Lemma readSecret_Throw n e :
  readSecret env n = Throw e ->
  e = ThrowApp (newAppError (String.append (secretNameString n) " is not configured")
                            500 "AUTH_CONFIG_ERROR").
Proof.
  unfold readSecret.
  destruct (match n with
            | AccessSecret => JWT_ACCESS_SECRET env
            | RefreshSecret => JWT_REFRESH_SECRET env
            end) as [x|]; [destruct (_ <? 32)|]; congruence.
Qed.

Lemma issueTokenPair_outcomes :
  forall now params,
    ((exists pair, issueTokenPair env now params = Ok pair)
     <-> exists a r,
           JWT_ACCESS_SECRET env = Some a /\ JWT_REFRESH_SECRET env = Some r
           /\ 32 <= Z.of_nat (jsLength a)
           /\ 32 <= Z.of_nat (jsLength r))
    /\ (forall pair, issueTokenPair env now params = Ok pair ->
          tp_refreshExpiresAt pair = now + 604800000)
    /\ (forall e, issueTokenPair env now params = Throw e ->
          (e = ThrowApp (newAppError "JWT_ACCESS_SECRET is not configured"
                                     500 "AUTH_CONFIG_ERROR")
           /\ forall a, readSecret env AccessSecret <> Ok a)
          \/ (e = ThrowApp (newAppError "JWT_REFRESH_SECRET is not configured"
                                        500 "AUTH_CONFIG_ERROR")
              /\ exists a, readSecret env AccessSecret = Ok a)).
Proof.
  intros now params. unfold issueTokenPair.
  destruct (readSecret env AccessSecret) as [a|ea] eqn:Ha.
  - destruct (readSecret env RefreshSecret) as [r|er] eqn:Hr.
    + apply readSecret_Ok_iff in Ha as [Ha Hla].
      apply readSecret_Ok_iff in Hr as [Hr Hlr].
      split; [|split].
      * split; [intros _; exists a, r; auto | eauto].
      * intros pair [= <-]. reflexivity.
      * discriminate.
    + split; [|split].
      * split; [intros [? ?]; discriminate|].
        intros (a' & r' & Ha' & Hr' & Hla' & Hlr').
        assert (readSecret env RefreshSecret = Ok r') as Hok
          by (apply readSecret_Ok_iff; auto).
        congruence.
      * discriminate.
      * intros e [= <-]. right. split; [|eauto].
        exact (readSecret_Throw _ _ Hr).
  - split; [|split].
    + split; [intros [? ?]; discriminate|].
      intros (a' & r' & Ha' & Hr' & Hla' & Hlr').
      assert (readSecret env AccessSecret = Ok a') as Hok
        by (apply readSecret_Ok_iff; auto).
      congruence.
    + discriminate.
    + intros e [= <-]. left. split; [|discriminate].
      exact (readSecret_Throw _ _ Ha).
Qed.

(** X1. [issueTokenPair] returns a pair exactly when both secrets are set and
    at least 32 UTF-16 code units long, which is what [secret.length]
    counts; the row it announces expires seven days after the instant of the
    call.  Otherwise it throws the configuration
    error, status 500 and code [AUTH_CONFIG_ERROR], naming the access secret
    when that one is at fault and the refresh secret only when the access
    secret is fine. *)
Theorem issueTokenPair_configured :
  forall now params,
    ((exists pair, issueTokenPair env now params = Ok pair)
     <-> exists a r,
           JWT_ACCESS_SECRET env = Some a /\ JWT_REFRESH_SECRET env = Some r
           /\ 32 <= Z.of_nat (jsLength a)
           /\ 32 <= Z.of_nat (jsLength r))
    /\ (forall pair, issueTokenPair env now params = Ok pair ->
          tp_refreshExpiresAt pair = now + 604800000)
    /\ (forall e, issueTokenPair env now params = Throw e ->
          (e = ThrowApp (newAppError "JWT_ACCESS_SECRET is not configured"
                                     500 "AUTH_CONFIG_ERROR")
           /\ forall a, readSecret env AccessSecret <> Ok a)
          \/ (e = ThrowApp (newAppError "JWT_REFRESH_SECRET is not configured"
                                        500 "AUTH_CONFIG_ERROR")
              /\ exists a, readSecret env AccessSecret = Ok a)).
Proof. exact issueTokenPair_outcomes. Qed.
End TokenLife.

Section IssueAndVerify.
Context `{Externals}.
Variable env : Env.
Hypothesis jwt_round_trip : forall c secret, jwt_decode (jwt_encode c secret) secret = Some c.
Hypothesis jwt_nonempty : forall c secret, jwt_encode c secret <> "".

Lemma jwt_verify_signToken now now' p secret ttl :
  jwt_verify now' (signToken now p secret ttl) secret
  = if now' / 1000 <? now / 1000 + ttl then Some p else None.
Proof.
  unfold jwt_verify, signToken.
  destruct (String.eqb _ "") eqn:He;
    [apply String.eqb_eq in He; by apply jwt_nonempty in He|].
  rewrite jwt_round_trip. simpl.
  destruct (now / 1000 + ttl <=? now' / 1000) eqn:Hle;
    destruct (now' / 1000 <? now / 1000 + ttl) eqn:Hlt; try reflexivity;
    [apply Z.leb_le in Hle; apply Z.ltb_lt in Hlt
    |apply Z.leb_gt in Hle; apply Z.ltb_ge in Hlt]; lia.
Qed.

Lemma verifyRefreshToken_issued :
  forall now now' params pair,
    issueTokenPair env now params = Ok pair ->
    verifyRefreshToken env now' (tp_refreshToken pair)
    = if now' / 1000 <? now / 1000 + REFRESH_TOKEN_TTL
      then Ok (mkRefreshClaims (ip_userId params) (ip_deviceId params)
                               (ip_familyId params) (ip_tokenId params))
      else Throw (ThrowApp (AuthError "Invalid or expired refresh token")).
Proof.
  intros now now' params pair Hpair.
  apply issueTokenPair_refreshToken in Hpair as (secret & Hs & ->).
  unfold verifyRefreshToken, verifyRefreshToken_try.
  rewrite Hs, jwt_verify_signToken.
  by destruct (now' / 1000 <? now / 1000 + REFRESH_TOKEN_TTL).
Qed.

(** X2. The refresh token of an issued pair verifies to the subject, device,
    family and token id it was issued for at every instant whose second is
    before the second of issue plus seven days, and from then on is refused
    with [AuthError('Invalid or expired refresh token')]. *)
Theorem issued_refresh_token_verifies :
  forall now now' params pair,
    issueTokenPair env now params = Ok pair ->
    verifyRefreshToken env now' (tp_refreshToken pair)
    = if now' / 1000 <? now / 1000 + REFRESH_TOKEN_TTL
      then Ok (mkRefreshClaims (ip_userId params) (ip_deviceId params)
                               (ip_familyId params) (ip_tokenId params))
      else Throw (ThrowApp (AuthError "Invalid or expired refresh token")).
Proof. exact verifyRefreshToken_issued. Qed.
End IssueAndVerify.

(** ** The row of a credential outlives the credential *)

Section Expiry.
Context `{Externals}.
Variable env : Env.
Variable users : list User.
Hypothesis sha256_inj : forall a b, sha256_hex a = sha256_hex b -> a = b.
Hypothesis jwt_decode_encode :
  forall c secret c', jwt_decode (jwt_encode c secret) secret = Some c' -> c' = c.
Implicit Types (s : Store) (d : Session).

Lemma outlivesToken_issued now params pair d :
  issueTokenPair env now params = Ok pair ->
  refreshTokenHash d = hashToken (tp_refreshToken pair) ->
  expiresAt d = tp_refreshExpiresAt pair ->
  outlivesToken env d.
Proof.
  intros Hpair Hhash Hexp now' token p Htok Hv.
  assert (tp_refreshExpiresAt pair = now + 604800000) as Hat
    by (apply (issueTokenPair_outcomes env now params); exact Hpair).
  apply issueTokenPair_refreshToken in Hpair as (secret & Hs & Hpair).
  rewrite Hhash in Htok. apply sha256_inj in Htok. subst token.
  apply verify_Ok_inv in Hv as (secret' & c & Hs' & _ & Hdec & Hlt & _).
  assert (secret' = secret) as -> by congruence.
  rewrite Hpair in Hdec. unfold signToken in Hdec.
  apply jwt_decode_encode in Hdec. subst c. simpl in Hlt.
  rewrite Hexp, Hat. unfold REFRESH_TOKEN_TTL in Hlt.
  pose proof (Z.div_mod now 1000). pose proof (Z.mod_pos_bound now 1000).
  pose proof (Z.div_mod now' 1000). pose proof (Z.mod_pos_bound now' 1000).
  lia.
Qed.

Lemma ledgerOutlives_snoc s d :
  ledgerOutlives env s -> outlivesToken env d -> ledgerOutlives env (s ++ [d]).
Proof.
  intros Hs Hd x [Hx | ->%list_elem_of_singleton]%elem_of_app; auto.
Qed.

Lemma ledgerOutlives_updateMany filter now reason s :
  ledgerOutlives env s ->
  ledgerOutlives env (updateMany filter (setRevoked now reason) s).
Proof.
  intros Hs d (x & -> & Hx)%list_elem_of_fmap.
  destruct (filter x); [|by apply Hs].
  intros now' token p. apply (Hs x Hx).
Qed.

Lemma ledgerOutlives_save i set s :
  (forall d, refreshTokenHash (set d) = refreshTokenHash d
             /\ expiresAt (set d) = expiresAt d) ->
  ledgerOutlives env s -> ledgerOutlives env (save i set s).
Proof.
  intros Hset Hs d (j & Hj)%list_elem_of_lookup.
  destruct (decide (i = j)) as [<-|Hne].
  - rewrite save_lookup_eq in Hj.
    destruct (s !! i) as [x|] eqn:Hx; [|discriminate]. injection Hj as <-.
    destruct (Hset x) as [Hh Hd]. intros now' token p.
    rewrite Hh, Hd. apply (Hs x). apply list_elem_of_lookup. eauto.
  - rewrite save_lookup_ne in Hj by exact Hne.
    apply Hs. apply list_elem_of_lookup. eauto.
Qed.

Lemma ledgerOutlives_login now rnd body s :
  ledgerOutlives env s -> ledgerOutlives env (fst (login env users now rnd body s)).
Proof.
  intros Hs. unfold login.
  destruct (isEmpty _ || isEmpty _); [exact Hs|].
  destruct (findUserByEmail _ users) as [user|]; [|exact Hs].
  destruct (negb _); [exact Hs|].
  destruct (issueTokenPair env now _) as [pair|e] eqn:Hpair; [|exact Hs].
  unfold create. destruct (existsb _ _); simpl.
  - by apply ledgerOutlives_updateMany.
  - apply ledgerOutlives_snoc; [by apply ledgerOutlives_updateMany|].
    eapply outlivesToken_issued; eauto.
Qed.

Lemma ledgerOutlives_refresh clock tid body s :
  ledgerOutlives env s ->
  ledgerOutlives env (fst (refresh env users clock tid body s)).
Proof.
  intros Hs. unfold refresh.
  destruct (isEmpty _); [exact Hs|].
  destruct (verifyRefreshToken env _ _) as [p|e]; [|exact Hs].
  destruct (castObjectId _) as [uid|]; [|exact Hs].
  destruct (findOne _ s) as [[i cur]|]; [|by apply ledgerOutlives_updateMany].
  destruct (negb _); [by apply ledgerOutlives_updateMany|].
  destruct (expiresAt cur <=? _); [by apply ledgerOutlives_save|].
  destruct (findById _ users) as [user|]; [|by apply ledgerOutlives_updateMany].
  destruct (issueTokenPair env _ _) as [pair|e] eqn:Hpair; [|exact Hs].
  unfold create. destruct (existsb _ _); simpl.
  - by apply ledgerOutlives_save.
  - apply ledgerOutlives_snoc; [by apply ledgerOutlives_save|].
    eapply outlivesToken_issued; eauto.
Qed.

Lemma reachable_ledgerOutlives s : reachable env users s -> ledgerOutlives env s.
Proof.
  induction 1 as [|op s _ IH]; [intros d Hd; inversion Hd|].
  destruct op; simpl.
  - by apply ledgerOutlives_login.
  - by apply ledgerOutlives_refresh.
  - by apply ledgerOutlives_updateMany.
  - by apply ledgerOutlives_updateMany.
Qed.

(** X3. In a ledger the core has produced, the row of a credential expires
    after every instant at which the credential verifies (the token carries
    [exp] in whole seconds counted from the second of issue, the row
    [expiresAt] in milliseconds counted from the instant of issue).  So
    [/refresh] throws [AuthError('Refresh token is expired')] only when the
    row expires between the instant at which [jwt.verify] reads the clock
    and the later instant at which the handler compares [expiresAt] with
    [Date.now()]; a request that reads the same instant at both places never
    throws it. *)
Theorem refresh_expired_only_between_reads :
  forall s, reachable env users s ->
    (forall now token p uid i cur,
       verifyRefreshToken env now token = Ok p ->
       findOne (matchesCredential (hashToken token) uid p) s = Some (i, cur) ->
       now < expiresAt cur)
    /\ (forall clock tid body,
          snd (refresh env users clock tid body s)
          = Throw (ThrowApp (AuthError "Refresh token is expired")) ->
          exists p uid i cur,
            verifyRefreshToken env (atVerify clock)
              (orEmpty (rb_refreshToken body)) = Ok p
            /\ findOne (matchesCredential
                          (hashToken (orEmpty (rb_refreshToken body))) uid p) s
               = Some (i, cur)
            /\ atVerify clock < expiresAt cur <= atFound clock)
    /\ (forall clock tid body,
          atFound clock <= atVerify clock ->
          snd (refresh env users clock tid body s)
          <> Throw (ThrowApp (AuthError "Refresh token is expired"))).
Proof.
  intros s Hreach. apply reachable_ledgerOutlives in Hreach.
  assert (forall now token p uid i cur,
            verifyRefreshToken env now token = Ok p ->
            findOne (matchesCredential (hashToken token) uid p) s = Some (i, cur) ->
            now < expiresAt cur) as Hlive.
  { intros now token p uid i cur Hv (Hi & Hm & _)%findOne_Some.
    apply matchesCredential_true in Hm as (Hh & _).
    apply (Hreach cur) with (token := token) (p := p); auto.
    apply list_elem_of_lookup. eauto. }
  assert (forall clock tid body,
            snd (refresh env users clock tid body s)
            = Throw (ThrowApp (AuthError "Refresh token is expired")) ->
            exists p uid i cur,
              verifyRefreshToken env (atVerify clock)
                (orEmpty (rb_refreshToken body)) = Ok p
              /\ findOne (matchesCredential
                            (hashToken (orEmpty (rb_refreshToken body))) uid p) s
                 = Some (i, cur)
              /\ atVerify clock < expiresAt cur <= atFound clock) as Hwindow.
  { intros clock tid body. unfold refresh.
    destruct (isEmpty _); [discriminate|].
    destruct (verifyRefreshToken env _ _) as [p|e] eqn:Hv.
    - destruct (castObjectId _) as [uid|]; [|discriminate].
      destruct (findOne _ s) as [[i cur]|] eqn:Hf; [|discriminate].
      destruct (negb _); [discriminate|].
      destruct (expiresAt cur <=? atFound clock) eqn:Hexp.
      { intros _. apply Z.leb_le in Hexp. exists p, uid, i, cur.
        split; [reflexivity|]. split; [exact Hf|].
        split; [exact (Hlive _ _ _ _ _ _ Hv Hf) | exact Hexp]. }
      destruct (findById _ users) as [user|]; [|discriminate].
      destruct (issueTokenPair env _ _) as [pair|e] eqn:Hpair.
      + unfold create. destruct (existsb _ _); discriminate.
      + simpl. apply (issueTokenPair_outcomes env (atUser clock)) in Hpair
          as [[-> _] | [-> _]]; discriminate.
    - simpl. apply verify_Throw_inv in Hv as [-> | ->]; discriminate. }
  split; [exact Hlive|]. split; [exact Hwindow|].
  intros clock tid body Hsame Hthrown.
  apply Hwindow in Hthrown as (p & uid & i & cur & _ & _ & Hlt & Hle). lia.
Qed.
End Expiry.

(** ** routes/auth.ts: what the handlers answer and what they leave alone *)

Section HandlerEdges.
Context `{Externals}.
Variable env : Env.
Variable users : list User.
Implicit Types (s : Store) (d : Session).

(** X4. Without a usable [JWT_REFRESH_SECRET] (absent, or shorter than 32
    UTF-16 code units), [/refresh] answers every presented token with
    [AuthError('Invalid or expired refresh token')] and leaves the ledger as
    it was: the configuration error of [readSecret] is caught inside
    [verifyRefreshToken] and does not come out as such. *)
Theorem refresh_without_refresh_secret :
  forall clock tid body s,
    (forall sec, JWT_REFRESH_SECRET env = Some sec ->
                 Z.of_nat (jsLength sec) < 32) ->
    orEmpty (rb_refreshToken body) <> "" ->
    refresh env users clock tid body s
    = (s, Throw (ThrowApp (AuthError "Invalid or expired refresh token"))).
Proof.
  intros clock tid body s Hsec Hne. unfold refresh, isEmpty.
  apply String.eqb_neq in Hne. rewrite Hne.
  unfold verifyRefreshToken, verifyRefreshToken_try, readSecret.
  destruct (JWT_REFRESH_SECRET env) as [sec|]; [|reflexivity].
  specialize (Hsec sec eq_refl). apply Z.ltb_lt in Hsec. rewrite Hsec.
  reflexivity.
Qed.

(** X5. [/login] answers an unknown e-mail and a wrong password with the same
    error, [AuthError('Invalid email or password')], and in both cases leaves
    the ledger as it was. *)
Theorem login_bad_credentials :
  forall now rnd body s,
    let email := js_toLowerCase (js_trim (orEmpty (lb_email body))) in
    let password := orEmpty (lb_password body) in
    email <> "" -> password <> "" ->
    (findUserByEmail email users = None
     \/ exists user, findUserByEmail email users = Some user
                     /\ bcrypt_compare password (passwordHash user) = false) ->
    login env users now rnd body s
    = (s, Throw (ThrowApp (AuthError "Invalid email or password"))).
Proof.
  intros now rnd body s email password He Hp Hbad. unfold login, isEmpty.
  fold email password.
  apply String.eqb_neq in He, Hp. rewrite He, Hp. simpl.
  destruct Hbad as [-> | (user & -> & ->)]; reflexivity.
Qed.

(** X11. [/refresh] changes rows of one user only: a row whose user is not
    the subject of the presented credential (cast to an [ObjectId]) is left
    exactly as it was, and when the credential does not verify, or its
    subject is no [ObjectId], no row changes at all. *)
Theorem refresh_touches_one_user :
  forall clock tid body s j d,
    s !! j = Some d ->
    (forall p uid,
       verifyRefreshToken env (atVerify clock) (orEmpty (rb_refreshToken body))
       = Ok p ->
       castObjectId (p_sub p) = Some uid ->
       userId d <> uid) ->
    fst (refresh env users clock tid body s) !! j = Some d.
Proof.
  intros clock tid body s j d Hj Hother. unfold refresh.
  destruct (isEmpty _); [exact Hj|].
  destruct (verifyRefreshToken env _ _) as [p|e]; [|exact Hj].
  destruct (castObjectId _) as [uid|] eqn:Hcast; [|exact Hj].
  specialize (Hother p uid eq_refl Hcast).
  assert (forall now reason, revokeAllUserSessions now uid reason s !! j = Some d)
    as Hrev by (intros now reason; apply revokeAll_other; auto).
  destruct (findOne _ s) as [[i cur]|] eqn:Hf; [|apply Hrev].
  apply findOne_Some in Hf as (Hi & Hm & _).
  apply matchesCredential_true in Hm as (_ & Hu & _).
  assert (i <> j) as Hij by (intros ->; congruence).
  destruct (negb _); [apply Hrev|].
  destruct (expiresAt cur <=? _); [simpl; by rewrite save_lookup_ne|].
  destruct (findById _ users) as [user|]; [|apply Hrev].
  destruct (issueTokenPair env _ _) as [pair|e]; [|exact Hj].
  unfold create. destruct (existsb _ _); simpl.
  - by rewrite save_lookup_ne.
  - apply lookup_app_l_Some. by rewrite save_lookup_ne.
Qed.
End HandlerEdges.

(** ** Rows are never removed, re-keyed or duplicated *)

Section Rows.
Context `{Externals}.
Variable env : Env.
Variable users : list User.
Implicit Types (s : Store) (d : Session).

Lemma sameIdentity_refl d : sameIdentity d d.
Proof. by repeat split. Qed.

Lemma ledgerKeeps_refl s : ledgerKeeps s s.
Proof. intros i d Hi. exists d. split; [exact Hi | apply sameIdentity_refl]. Qed.

Lemma ledgerKeeps_trans s1 s2 s3 :
  ledgerKeeps s1 s2 -> ledgerKeeps s2 s3 -> ledgerKeeps s1 s3.
Proof.
  intros H12 H23 i d Hi.
  destruct (H12 i d Hi) as (d2 & Hi2 & Hid2).
  destruct (H23 i d2 Hi2) as (d3 & Hi3 & Hid3).
  exists d3. split; [exact Hi3|].
  unfold sameIdentity in *. intuition congruence.
Qed.

Lemma ledgerKeeps_create s d : ledgerKeeps s (s ++ [d]).
Proof.
  intros i x Hi. exists x. split; [by apply lookup_app_l_Some|].
  apply sameIdentity_refl.
Qed.

Lemma ledgerKeeps_updateMany filter set s :
  (forall d, sameIdentity d (set d)) -> ledgerKeeps s (updateMany filter set s).
Proof.
  intros Hset i d Hi. rewrite updateMany_lookup, Hi. simpl.
  destruct (filter d); eexists; (split; [reflexivity|]);
    [apply Hset | apply sameIdentity_refl].
Qed.

Lemma ledgerKeeps_save i set s :
  (forall d, sameIdentity d (set d)) -> ledgerKeeps s (save i set s).
Proof.
  intros Hset j d Hj. destruct (decide (i = j)) as [<-|Hne].
  - rewrite save_lookup_eq, Hj. simpl. eauto.
  - rewrite save_lookup_ne by exact Hne. exists d.
    split; [exact Hj | apply sameIdentity_refl].
Qed.

Lemma sameIdentity_setRevoked now reason d : sameIdentity d (setRevoked now reason d).
Proof. by repeat split. Qed.

Lemma sameIdentity_setConsumed now h d : sameIdentity d (setConsumed now h d).
Proof. by repeat split. Qed.

Lemma ledgerKeeps_applyOp op s : ledgerKeeps s (applyOp env users op s).
Proof.
  destruct op as [now rnd body|now tid body|now uid reason|now uid dev]; simpl.
  - unfold login.
    destruct (isEmpty _ || isEmpty _); [apply ledgerKeeps_refl|].
    destruct (findUserByEmail _ users) as [user|]; [|apply ledgerKeeps_refl].
    destruct (negb _); [apply ledgerKeeps_refl|].
    destruct (issueTokenPair env now _) as [pair|e]; [|apply ledgerKeeps_refl].
    unfold create. destruct (existsb _ _); simpl.
    + apply ledgerKeeps_updateMany, sameIdentity_setRevoked.
    + eapply ledgerKeeps_trans; [|apply ledgerKeeps_create].
      apply ledgerKeeps_updateMany, sameIdentity_setRevoked.
  - unfold refresh.
    destruct (isEmpty _); [apply ledgerKeeps_refl|].
    destruct (verifyRefreshToken env _ _) as [p|e]; [|apply ledgerKeeps_refl].
    destruct (castObjectId _) as [uid|]; [|apply ledgerKeeps_refl].
    destruct (findOne _ s) as [[i cur]|];
      [|apply ledgerKeeps_updateMany, sameIdentity_setRevoked].
    destruct (negb _); [apply ledgerKeeps_updateMany, sameIdentity_setRevoked|].
    destruct (expiresAt cur <=? _);
      [apply ledgerKeeps_save, sameIdentity_setRevoked|].
    destruct (findById _ users) as [user|];
      [|apply ledgerKeeps_updateMany, sameIdentity_setRevoked].
    destruct (issueTokenPair env _ _) as [pair|e]; [|apply ledgerKeeps_refl].
    unfold create. destruct (existsb _ _); simpl.
    + apply ledgerKeeps_save, sameIdentity_setConsumed.
    + eapply ledgerKeeps_trans; [|apply ledgerKeeps_create].
      apply ledgerKeeps_save, sameIdentity_setConsumed.
  - apply ledgerKeeps_updateMany, sameIdentity_setRevoked.
  - apply ledgerKeeps_updateMany, sameIdentity_setRevoked.
Qed.

(** X9. No operation of the core removes a row or changes whose it is: after
    login, rotation or either revocation every row is still at its place with
    the same user, device, family, token id, credential hash, parent hash and
    expiry, and the ledger is at least as long as before. *)
Theorem rows_keep_identity :
  forall op s,
    (forall i d, s !! i = Some d ->
       exists d', applyOp env users op s !! i = Some d' /\ sameIdentity d d')
    /\ (length s <= length (applyOp env users op s))%nat.
Proof.
  intros op s. pose proof (ledgerKeeps_applyOp op s) as Hk.
  split; [exact Hk|].
  destruct (decide (length s <= length (applyOp env users op s))%nat)
    as [Hle|Hgt]; [exact Hle|].
  destruct (lookup_lt_is_Some_2 s (length (applyOp env users op s)))
    as [d Hd]; [lia|].
  destruct (Hk _ _ Hd) as (d' & Hd' & _).
  apply lookup_lt_Some in Hd'. lia.
Qed.

Lemma hashes_updateMany filter now reason s :
  refreshTokenHash <$> updateMany filter (setRevoked now reason) s
  = refreshTokenHash <$> s.
Proof.
  unfold updateMany. rewrite <- list_fmap_compose. apply list_fmap_ext.
  intros i d _. simpl. by destruct (filter d).
Qed.

Lemma hashes_save i set s :
  (forall d, refreshTokenHash (set d) = refreshTokenHash d) ->
  refreshTokenHash <$> save i set s = refreshTokenHash <$> s.
Proof.
  intros Hset. unfold save. revert i.
  induction s as [|d s IH]; intros [|i]; simpl; try reflexivity.
  - by rewrite Hset.
  - f_equal. apply IH.
Qed.

Lemma create_fresh_hash d s s' :
  create d s = Ok s' ->
  s' = s ++ [d] /\ refreshTokenHash d ∉ (refreshTokenHash <$> s).
Proof.
  unfold create. destruct (existsb _ s) eqn:Hex; [discriminate|].
  intros [= <-]. split; [reflexivity|].
  intros (x & Hh & Hx)%list_elem_of_fmap.
  assert (existsb (fun x0 => String.eqb (refreshTokenHash x0) (refreshTokenHash d)) s
          = true) as Habs; [|congruence].
  apply existsb_exists. exists x. split; [by apply list_elem_of_In|].
  apply String.eqb_eq. congruence.
Qed.

Lemma NoDup_hashes_snoc s d :
  NoDup (refreshTokenHash <$> s) ->
  refreshTokenHash d ∉ (refreshTokenHash <$> s) ->
  NoDup (refreshTokenHash <$> (s ++ [d])).
Proof.
  intros Hnd Hfresh. rewrite fmap_app. apply NoDup_app.
  split; [exact Hnd|]. split.
  - intros x Hx ->%list_elem_of_singleton. contradiction.
  - apply NoDup_singleton.
Qed.

(** X8. Under the unique index of the collection, no two rows of a ledger the
    core has produced hold the same credential hash. *)
Theorem reachable_hashes_unique :
  forall s, reachable env users s -> NoDup (refreshTokenHash <$> s).
Proof.
  induction 1 as [|op s _ IH]; [apply NoDup_nil_2|].
  destruct op as [now rnd body|now tid body|now uid reason|now uid dev]; simpl.
  - unfold login.
    destruct (isEmpty _ || isEmpty _); [exact IH|].
    destruct (findUserByEmail _ users) as [user|]; [|exact IH].
    destruct (negb _); [exact IH|].
    destruct (issueTokenPair env now _) as [pair|e]; [|exact IH].
    destruct (create _ _) as [s2|e] eqn:Hc; simpl.
    + apply create_fresh_hash in Hc as [-> Hfresh].
      apply NoDup_hashes_snoc; [|exact Hfresh].
      unfold revokeActiveForDevice. by rewrite hashes_updateMany.
    + unfold revokeActiveForDevice. by rewrite hashes_updateMany.
  - unfold refresh.
    destruct (isEmpty _); [exact IH|].
    destruct (verifyRefreshToken env _ _) as [p|e]; [|exact IH].
    destruct (castObjectId _) as [uid|]; [|exact IH].
    assert (forall now reason,
              NoDup (refreshTokenHash <$> revokeAllUserSessions now uid reason s))
      as Hrev by (intros; unfold revokeAllUserSessions; by rewrite hashes_updateMany).
    destruct (findOne _ s) as [[i cur]|]; [|apply Hrev].
    destruct (negb _); [apply Hrev|].
    destruct (expiresAt cur <=? _); [simpl; by rewrite hashes_save|].
    destruct (findById _ users) as [user|]; [|apply Hrev].
    destruct (issueTokenPair env _ _) as [pair|e]; [|exact IH].
    destruct (create _ _) as [s2|e] eqn:Hc; simpl.
    + apply create_fresh_hash in Hc as [-> Hfresh].
      apply NoDup_hashes_snoc; [|exact Hfresh]. by rewrite hashes_save.
    + by rewrite hashes_save.
  - unfold revokeAllUserSessions. by rewrite hashes_updateMany.
  - unfold revokeActiveForDevice. by rewrite hashes_updateMany.
Qed.
End Rows.

(** ** One active link for a device *)

Section OneActiveLink.
Context `{Externals}.
Variable env : Env.
Variable users : list User.
Hypothesis sha256_inj : forall a b, sha256_hex a = sha256_hex b -> a = b.
Hypothesis jwt_decode_encode :
  forall c secret c', jwt_decode (jwt_encode c secret) secret = Some c' -> c' = c.
Implicit Types (s : Store) (d : Session).

Lemma activeLinks_updateMany_le uid dev filter now reason s :
  (length (activeLinks uid dev (updateMany filter (setRevoked now reason) s))
   <= length (activeLinks uid dev s))%nat.
Proof.
  unfold activeLinks, updateMany. induction s as [|d s IH]; [simpl; lia|].
  rewrite fmap_cons. cbn [List.filter].
  destruct (filter d).
  - rewrite activeOnDevice_setRevoked.
    destruct (activeOnDevice uid dev d); cbn [length]; lia.
  - destruct (activeOnDevice uid dev d); cbn [length]; lia.
Qed.

Lemma activeLinks_save_le uid dev i set s :
  (forall d, activeOnDevice uid dev (set d) = false) ->
  (length (activeLinks uid dev (save i set s)) <= length (activeLinks uid dev s))%nat.
Proof.
  intros Hset. unfold activeLinks, save. revert i.
  induction s as [|d s IH]; intros [|i]; simpl; try lia.
  - rewrite Hset. destruct (activeOnDevice uid dev d); simpl; lia.
  - specialize (IH i). unfold alter in IH.
    destruct (activeOnDevice uid dev d); simpl; lia.
Qed.

Lemma activeLinks_save_one uid dev i set s cur :
  (forall d, activeOnDevice uid dev (set d) = false) ->
  s !! i = Some cur -> activeOnDevice uid dev cur = true ->
  S (length (activeLinks uid dev (save i set s))) = length (activeLinks uid dev s).
Proof.
  intros Hset. unfold activeLinks, save. revert i.
  induction s as [|d s IH]; intros [|i] Hi Hcur; simpl in *; try discriminate.
  - injection Hi as ->. by rewrite Hset, Hcur.
  - specialize (IH i Hi Hcur). unfold alter in IH.
    destruct (activeOnDevice uid dev d); simpl; lia.
Qed.

Lemma activeLinks_snoc uid dev s d :
  activeLinks uid dev (s ++ [d])
  = activeLinks uid dev s ++ (if activeOnDevice uid dev d then [d] else []).
Proof. unfold activeLinks. by rewrite List.filter_app. Qed.

Lemma activeOnDevice_true uid dev d :
  activeOnDevice uid dev d = true ->
  userId d = uid /\ deviceId d = dev /\ status d = active.
Proof.
  unfold activeOnDevice. rewrite !andb_true_iff, !String.eqb_eq.
  intros [[-> ->] Hst]. by destruct (status d).
Qed.

Lemma activeOnDevice_setConsumed uid dev now h d :
  activeOnDevice uid dev (setConsumed now h d) = false.
Proof. unfold activeOnDevice. simpl. apply andb_false_r. Qed.

(** X10. When the core serves its requests one at a time, so that no
    operation of one request falls between the operations of another, and
    with a digest without collisions and a decoder that returns what was
    signed, a user has at most one active link on a device in every ledger
    the core produces: login revokes the device's active link before it
    creates the head, and a rotation consumes the link it replaces.  (With
    requests in flight the bound fails, as the login beside a rotation
    shows.) *)
Theorem reachable_one_active_link :
  forall s, reachable env users s ->
    forall uid dev, (length (activeLinks uid dev s) <= 1)%nat.
Proof.
  induction 1 as [|op s Hreach IH]; intros uid dev; [simpl; lia|].
  pose proof (reachable_ledgerBound env users sha256_inj jwt_decode_encode s Hreach)
    as Hbound.
  specialize (IH uid dev) as IHud.
  destruct op as [now rnd body|now tid body|now uid' reason|now uid' dev']; simpl.
  - unfold login.
    destruct (isEmpty _ || isEmpty _); [exact IHud|].
    destruct (findUserByEmail _ users) as [user|]; [|exact IHud].
    destruct (negb _); [exact IHud|].
    destruct (issueTokenPair env now _) as [pair|e]; [|exact IHud].
    pose proof (activeLinks_updateMany_le uid dev
                  (activeOnDevice (u_id user) (chosenDevice rnd body))
                  now "DEVICE_RELOGIN" s) as Hle.
    fold (chosenDevice rnd body).
    fold (revokeActiveForDevice now (u_id user) (chosenDevice rnd body) s) in Hle.
    unfold create. destruct (existsb _ _); simpl; [lia|].
    rewrite activeLinks_snoc, length_app.
    destruct (activeOnDevice uid dev _) eqn:Hhead; simpl; [|lia].
    apply activeOnDevice_true in Hhead as (Hu & Hd & _). simpl in Hu, Hd.
    subst uid dev. rewrite activeLinks_revokeActiveForDevice. simpl. lia.
  - rename now into clock. unfold refresh.
    destruct (isEmpty _); [exact IHud|].
    destruct (verifyRefreshToken env _ _) as [p|e] eqn:Hv; [|exact IHud].
    destruct (castObjectId _) as [sub|]; [|exact IHud].
    assert (forall now reason,
              (length (activeLinks uid dev
                         (revokeAllUserSessions now sub reason s)) <= 1)%nat)
      as Hrev.
    { intros now reason.
      pose proof (activeLinks_updateMany_le uid dev (notRevokedOf sub)
                    now reason s). unfold revokeAllUserSessions. lia. }
    destruct (findOne _ s) as [[i cur]|] eqn:Hf; [|apply Hrev].
    destruct (status cur) eqn:Hst; simpl; try apply Hrev.
    destruct (expiresAt cur <=? _).
    { simpl. pose proof (activeLinks_save_le uid dev i
                           (setRevoked (atFound clock) "REFRESH_TOKEN_EXPIRED") s
                           (activeOnDevice_setRevoked uid dev _ _)). lia. }
    destruct (findById _ users) as [user|] eqn:Hu; [|apply Hrev].
    destruct (issueTokenPair env _ _) as [pair|e]; [|exact IHud].
    pose proof (activeLinks_save_le uid dev i
                  (setConsumed (atUser clock) (hashToken (tp_refreshToken pair))) s
                  (activeOnDevice_setConsumed uid dev _ _)) as Hle.
    unfold create. destruct (existsb _ _); simpl; [lia|].
    rewrite activeLinks_snoc, length_app.
    destruct (activeOnDevice uid dev _) eqn:Hnext; simpl; [|lia].
    apply activeOnDevice_true in Hnext as (Hu' & Hd' & _). simpl in Hu', Hd'.
    apply findOne_Some in Hf as (Hi & Hm & _).
    apply matchesCredential_true in Hm as (Hh & Hsub & _).
    apply findById_Some in Hu.
    assert (p_deviceId p = deviceId cur) as Hdev.
    { eapply Hbound; eauto. apply list_elem_of_lookup. eauto. }
    assert (activeOnDevice uid dev cur = true) as Hcur.
    { unfold activeOnDevice. rewrite Hst.
      assert (userId cur = uid) as -> by congruence.
      assert (deviceId cur = dev) as -> by congruence.
      by rewrite !String.eqb_refl. }
    pose proof (activeLinks_save_one uid dev i
                  (setConsumed (atUser clock) (hashToken (tp_refreshToken pair)))
                  s cur (activeOnDevice_setConsumed uid dev _ _) Hi Hcur). lia.
  - pose proof (activeLinks_updateMany_le uid dev (notRevokedOf uid') now reason s).
    unfold revokeAllUserSessions. lia.
  - pose proof (activeLinks_updateMany_le uid dev (activeOnDevice uid' dev')
                  now "DEVICE_RELOGIN" s).
    unfold revokeActiveForDevice. lia.
Qed.
End OneActiveLink.

(** ** From login to the first rotation *)

Section LoginThenRotate.
Context `{Externals}.
Variable env : Env.
Variable users : list User.
Hypothesis jwt_round_trip : forall c secret, jwt_decode (jwt_encode c secret) secret = Some c.
Hypothesis jwt_nonempty : forall c secret, jwt_encode c secret <> "".
Implicit Types (s : Store) (d : Session).

Lemma findById_found user :
  user ∈ users -> exists user', findById (u_id user) users = Some user'.
Proof.
  intros Hin. unfold findById.
  destruct (find _ users) as [user'|] eqn:Hf; [eauto|].
  apply list_elem_of_In in Hin.
  pose proof (find_none _ _ Hf user Hin) as Hno. simpl in Hno.
  by rewrite String.eqb_refl in Hno.
Qed.

Lemma findUserByEmail_In e user :
  findUserByEmail e users = Some user -> user ∈ users.
Proof.
  unfold findUserByEmail. intros Hf. apply find_some in Hf as [Hin _].
  by apply list_elem_of_In.
Qed.

(** Whether a pair is issued depends on the secrets alone. *)
Lemma issueTokenPair_again now now' params params' pair :
  issueTokenPair env now params = Ok pair ->
  exists pair', issueTokenPair env now' params' = Ok pair'.
Proof.
  intros Hpair.
  apply (proj2 (proj1 (issueTokenPair_outcomes env now' params'))).
  apply (proj1 (proj1 (issueTokenPair_outcomes env now params))). eauto.
Qed.

(** X6. The refresh token a successful login returns rotates.  When the ids
    of the users are [ObjectId]s, and the token is presented to the ledger the
    login left by a request that verifies it at an instant whose second is
    before the second of the login plus seven days and that compares the
    row's [expiresAt] with the clock before the instant of the login plus
    seven days, [/refresh] answers with a new pair for the same device.  The
    one other outcome is the duplicate-key error of the store, when the hash
    of the new credential is already in the ledger. *)
Theorem login_then_refresh :
  forall now clock rnd tid body s s1 r,
    (forall u, u ∈ users -> castObjectId (u_id u) = Some (u_id u)) ->
    login env users now rnd body s = (s1, Ok r) ->
    atVerify clock / 1000 < now / 1000 + REFRESH_TOKEN_TTL ->
    atFound clock < now + 604800000 ->
    (exists s2 r2,
       refresh env users clock tid (mkRefreshBody (Some (refreshToken r))) s1
       = (s2, Ok r2)
       /\ r_deviceId r2 = r_deviceId r
       /\ length s2 = S (length s1))
    \/ (exists s2 key,
          refresh env users clock tid (mkRefreshBody (Some (refreshToken r))) s1
          = (s2, Throw (ThrowDuplicateKey key))).
Proof.
  intros now clock rnd tid body s s1 r Hids Hlogin Hlive Hcheck.
  unfold login in Hlogin. fold (chosenDevice rnd body) in Hlogin.
  destruct (isEmpty _ || isEmpty _); [discriminate|].
  destruct (findUserByEmail _ users) as [user|] eqn:Hu; [|discriminate].
  destruct (negb _); [discriminate|].
  destruct (issueTokenPair env now _) as [pair|e] eqn:Hpair; [|discriminate].
  destruct (create _ _) as [s'|e] eqn:Hc; [|discriminate].
  injection Hlogin as <- <-.
  apply create_fresh_hash in Hc as [-> Hfresh]. simpl in Hfresh.
  set (s0 := revokeActiveForDevice now (u_id user) (chosenDevice rnd body) s) in *.
  set (head := mkSession (u_id user) (chosenDevice rnd body) (newFamilyId rnd)
                         (newTokenId rnd) (hashToken (tp_refreshToken pair))
                         None None active None None None
                         (tp_refreshExpiresAt pair)) in *.
  set (claims := mkRefreshClaims (u_id user) (chosenDevice rnd body)
                                 (newFamilyId rnd) (newTokenId rnd)).
  assert (verifyRefreshToken env (atVerify clock) (tp_refreshToken pair)
          = Ok claims) as Hv.
  { rewrite (verifyRefreshToken_issued env jwt_round_trip jwt_nonempty
               now (atVerify clock) _ pair Hpair).
    apply Z.ltb_lt in Hlive. by rewrite Hlive. }
  assert (castObjectId (p_sub claims) = Some (u_id user)) as Hcast
    by (apply Hids; eapply findUserByEmail_In; eauto).
  assert (findOne (matchesCredential (hashToken (tp_refreshToken pair))
                                     (u_id user) claims)
                  (s0 ++ [head]) = Some (length s0, head)) as Hfind.
  { apply findOne_first.
    - by apply list_lookup_middle.
    - unfold matchesCredential. simpl. by rewrite !String.eqb_refl.
    - intros j' d' Hj' Hl. rewrite lookup_app_l in Hl by exact Hj'.
      unfold matchesCredential.
      destruct (String.eqb (refreshTokenHash d') _) eqn:Heq; [|reflexivity].
      apply String.eqb_eq in Heq. exfalso. apply Hfresh.
      apply list_elem_of_fmap. exists d'. split; [by rewrite Heq|].
      apply list_elem_of_lookup. eauto. }
  assert (tp_refreshExpiresAt pair = now + 604800000) as Hat
    by exact (proj1 (proj2 (issueTokenPair_outcomes env now _)) pair Hpair).
  assert ((tp_refreshExpiresAt pair <=? atFound clock) = false) as Hexp
    by (apply Z.leb_gt; lia).
  destruct (findById_found user (findUserByEmail_In _ _ Hu)) as [user' Hu'].
  assert (exists pair',
            issueTokenPair env (atUser clock)
              (mkIssueParams (u_id user') (role user') (chosenDevice rnd body)
                             (newFamilyId rnd) tid) = Ok pair') as [pair' Hpair'].
  { eapply issueTokenPair_again. exact Hpair. }
  unfold refresh. simpl.
  rewrite (verify_nonempty env _ _ _ Hv), Hv, Hcast, Hfind. simpl.
  rewrite Hexp. simpl. rewrite Hu', Hpair'.
  destruct (create _ _) as [s2|e] eqn:Hc.
  - left. apply create_Ok in Hc. subst s2. do 2 eexists.
    split; [reflexivity|]. split; [reflexivity|].
    by rewrite length_app, save_length, Nat.add_1_r.
  - right. unfold create in Hc. destruct (existsb _ _); [|discriminate].
    injection Hc as <-. eauto.
Qed.
End LoginThenRotate.

(** ** Registration *)

Section RegistrationFacts.
Context `{Externals}.
Variable env : Env.
Variable bcrypt_hash : string -> Z -> string.
Implicit Types (users : list User) (body : RegisterBody).

Lemma register_Ok_inv newId body users users' resp :
  register bcrypt_hash newId body users = (users', Ok resp) ->
  exists e pw,
    e = js_toLowerCase (js_trim (orEmpty (gb_email body)))
    /\ pw = orEmpty (gb_password body)
    /\ isEmpty e = false /\ isEmpty pw = false
    /\ 8 <= Z.of_nat (jsLength pw)
    /\ findUserByEmail e users = None
    /\ users' = users ++ [mkUser newId e (bcrypt_hash pw 12) USER]
    /\ resp = mkRegisterResponse newId e.
Proof.
  intros Hr. unfold register in Hr.
  exists (js_toLowerCase (js_trim (orEmpty (gb_email body)))),
    (orEmpty (gb_password body)).
  destruct (isEmpty (js_toLowerCase _)) eqn:He; [discriminate|].
  destruct (isEmpty (orEmpty _)) eqn:Hp; [discriminate|]. simpl in Hr.
  destruct (Z.of_nat _ <? 8) eqn:Hlen; [discriminate|].
  destruct (findUserByEmail _ users) eqn:Hf; [discriminate|].
  injection Hr as <- <-. apply Z.ltb_ge in Hlen. repeat split; auto.
Qed.

Lemma findUserByEmail_None e users :
  findUserByEmail e users = None -> e ∉ (email <$> users).
Proof.
  unfold findUserByEmail. intros Hf (u & -> & Hu)%list_elem_of_fmap.
  apply list_elem_of_In in Hu.
  pose proof (find_none _ _ Hf u Hu) as Hno. simpl in Hno.
  by rewrite String.eqb_refl in Hno.
Qed.

(** X7. [/register] keeps e-mails unique: when no two users share an e-mail
    before the call, none do after it, whatever the request; a request that
    is refused leaves the users as they were, and a user that is added has
    the role [USER]. *)
Theorem register_keeps_emails_unique :
  forall newId body users,
    NoDup (email <$> users) ->
    let users' := fst (register bcrypt_hash newId body users) in
    NoDup (email <$> users')
    /\ ((exists e, snd (register bcrypt_hash newId body users) = Throw e) ->
        users' = users)
    /\ (forall u, u ∈ users' -> u ∈ users \/ role u = USER).
Proof.
  intros newId body users Hnd users'.
  destruct (register bcrypt_hash newId body users) as [us out] eqn:Hr.
  subst users'. simpl. destruct out as [resp|err].
  - apply register_Ok_inv in Hr as (e & pw & _ & _ & _ & _ & _ & Hnone & -> & _).
    split; [|split].
    + rewrite fmap_app. apply NoDup_app. split; [exact Hnd|]. split.
      * intros x Hx ->%list_elem_of_singleton.
        by apply findUserByEmail_None in Hnone.
      * apply NoDup_singleton.
    + intros [err Herr]. discriminate.
    + intros u [Hu | ->%list_elem_of_singleton]%elem_of_app; auto.
  - assert (us = users) as ->.
    { unfold register in Hr.
      destruct (isEmpty _ || isEmpty _); [congruence|].
      destruct (_ <? 8); [congruence|].
      destruct (findUserByEmail _ users); congruence. }
    auto.
Qed.

Lemma findUserByEmail_snoc e users u :
  findUserByEmail e users = None -> email u = e ->
  findUserByEmail e (users ++ [u]) = Some u.
Proof.
  unfold findUserByEmail. intros Hnone <-.
  induction users as [|x users IH]; simpl in *.
  - by rewrite String.eqb_refl.
  - destruct (String.eqb (email x) (email u)); [discriminate | auto].
Qed.

(** X12. A user who has just registered can log in: with the e-mail and the
    password of the accepted registration, a hash function whose hashes
    [bcrypt.compare] accepts and both secrets configured, [/login] finds the
    new user, passes the password check and answers with a token pair; the
    one other outcome is the duplicate-key error of the store. *)
Theorem register_then_login :
  forall newId body users users' resp now rnd dev s,
    register bcrypt_hash newId body users = (users', Ok resp) ->
    bcrypt_compare (orEmpty (gb_password body))
                   (bcrypt_hash (orEmpty (gb_password body)) 12) = true ->
    (exists a r, readSecret env AccessSecret = Ok a
                 /\ readSecret env RefreshSecret = Ok r) ->
    let lbody := mkLoginBody (gb_email body) (gb_password body) dev in
    (exists s1 r,
       login env users' now rnd lbody s = (s1, Ok r)
       /\ exists head, last s1 = Some head /\ userId head = rr_userId resp
                       /\ status head = active)
    \/ (exists s1 key,
          login env users' now rnd lbody s = (s1, Throw (ThrowDuplicateKey key))).
Proof.
  intros newId body users users' resp now rnd dev s Hreg Hpw (a & r & Ha & Hr) lbody.
  apply register_Ok_inv in Hreg as (e & pw & -> & -> & He & Hp & _ & Hnone & -> & ->).
  unfold login. simpl. rewrite He, Hp. simpl.
  rewrite (findUserByEmail_snoc _ _
             (mkUser newId (js_toLowerCase (js_trim (orEmpty (gb_email body))))
                     (bcrypt_hash (orEmpty (gb_password body)) 12) USER)
             Hnone eq_refl). simpl.
  rewrite Hpw. simpl. unfold issueTokenPair. rewrite Ha, Hr.
  destruct (create _ _) as [s1|e] eqn:Hc.
  - left. apply create_Ok in Hc. subst s1. do 2 eexists.
    split; [reflexivity|]. eexists. split; [apply last_snoc|]. auto.
  - right. unfold create in Hc. destruct (existsb _ _); [|discriminate].
    injection Hc as <-. eauto.
Qed.
End RegistrationFacts.

(** ** middleware/errorHandler.ts: what the client sees of an error *)

Section ErrorResponses.
Context `{Externals}.
Variable env : Env.
Variable users : list User.

Lemma answeredAs_validation m : answeredAs (ThrowApp (ValidationError m)).
Proof. left. simpl. eauto. Qed.

Lemma answeredAs_cast : answeredAs (ThrowCastError "userId").
Proof. right; left. simpl. auto. Qed.

Lemma answeredAs_auth m : answeredAs (ThrowApp (AuthError m)).
Proof. right; right; left. simpl. eauto. Qed.

Lemma answeredAs_config msg :
  answeredAs (ThrowApp (newAppError msg 500 "AUTH_CONFIG_ERROR")).
Proof. right; right; right. simpl. auto. Qed.

Lemma answeredAs_duplicate key : answeredAs (ThrowDuplicateKey key).
Proof. right; right; right. simpl. auto. Qed.

Lemma answeredAs_issueTokenPair now params e :
  issueTokenPair env now params = Throw e -> answeredAs e.
Proof.
  intros He. apply (issueTokenPair_outcomes env now params) in He
    as [[-> _] | [-> _]]; apply answeredAs_config.
Qed.

Lemma answeredAs_create d s e : create d s = Throw e -> answeredAs e.
Proof.
  unfold create. destruct (existsb _ _); [|discriminate].
  intros [= <-]. apply answeredAs_duplicate.
Qed.

(** X13. Whatever [/login] or [/refresh] throws, the error handler answers
    with status 400 and code [VALIDATION_ERROR], with the message of the
    [ValidationError] or, for the [CastError] of a subject that is no
    [ObjectId], the message that names the field [userId]; or with status 401
    and code [AUTH_ERROR] and the message of the error; or with status 500,
    code [INTERNAL_SERVER_ERROR] and the fixed message: neither the
    configuration error of the secrets nor the store's duplicate-key error is
    shown to the client. *)
Theorem auth_errors_answered :
  forall now clock rnd tid lbody rbody s e,
    snd (login env users now rnd lbody s) = Throw e
    \/ snd (refresh env users clock tid rbody s) = Throw e ->
    answeredAs e.
Proof.
  intros now clock rnd tid lbody rbody s e [Hl | Hr].
  - unfold login in Hl.
    destruct (isEmpty _ || isEmpty _);
      [injection Hl as <-; apply answeredAs_validation|].
    destruct (findUserByEmail _ users) as [user|];
      [|injection Hl as <-; apply answeredAs_auth].
    destruct (negb _); [injection Hl as <-; apply answeredAs_auth|].
    destruct (issueTokenPair env now _) as [pair|e'] eqn:Hpair;
      [|injection Hl as <-; eapply answeredAs_issueTokenPair; eauto].
    destruct (create _ _) as [s2|e'] eqn:Hc; [discriminate|].
    injection Hl as <-. eapply answeredAs_create; eauto.
  - unfold refresh in Hr.
    destruct (isEmpty _); [injection Hr as <-; apply answeredAs_validation|].
    destruct (verifyRefreshToken env _ _) as [p|e'] eqn:Hv.
    + destruct (castObjectId _) as [uid|];
        [|injection Hr as <-; apply answeredAs_cast].
      destruct (findOne _ s) as [[i cur]|];
        [|injection Hr as <-; apply answeredAs_auth].
      destruct (negb _); [injection Hr as <-; apply answeredAs_auth|].
      destruct (expiresAt cur <=? _);
        [injection Hr as <-; apply answeredAs_auth|].
      destruct (findById _ users) as [user|];
        [|injection Hr as <-; apply answeredAs_auth].
      destruct (issueTokenPair env _ _) as [pair|e'] eqn:Hpair;
        [|injection Hr as <-; eapply answeredAs_issueTokenPair; eauto].
      destruct (create _ _) as [s2|e'] eqn:Hc; [discriminate|].
      injection Hr as <-. eapply answeredAs_create; eauto.
    + injection Hr as <-.
      apply verify_Throw_inv in Hv as [-> | ->]; apply answeredAs_auth.
Qed.

(** X14. The error handler never answers with status 0, and an answer with a
    status of 500 or more never carries the code or the message of the error:
    it carries [INTERNAL_SERVER_ERROR] and the fixed message.  Below 500 the
    code and the message are those of the [AppError]; what is neither an
    [AppError] nor one of the two Mongoose errors is answered with 500. *)
Theorem errorHandler_masks_server_errors :
  forall error,
    let r := errorHandler error in
    er_status r <> 0
    /\ (500 <= er_status r ->
        er_code r = "INTERNAL_SERVER_ERROR"
        /\ er_message r = "Internal server error")
    /\ (er_status r < 500 ->
        er_status r = statusCode (toAppError error)
        /\ er_code r = code (toAppError error)
        /\ er_message r = message (toAppError error))
    /\ ((forall e, error <> RaisedThrown (ThrowApp e)) ->
        (forall m, error <> RaisedMongooseValidation m) ->
        (forall path, error <> RaisedThrown (ThrowCastError path)) ->
        er_status r = 500).
Proof.
  intros error r. subst r. unfold errorHandler.
  set (a := toAppError error).
  destruct (statusCode a =? 0) eqn:Hz; simpl.
  - repeat split; auto; try lia.
  - apply Z.eqb_neq in Hz.
    destruct (500 <=? statusCode a) eqn:Hge; simpl.
    + apply Z.leb_le in Hge. repeat split; auto; try lia.
      intros H1 H2 H3. subst a.
      destruct error as [[e| |k|path]|m]; simpl; try reflexivity.
      * by specialize (H1 e).
      * by specialize (H3 path).
      * by specialize (H2 m).
    + apply Z.leb_gt in Hge. repeat split; auto; try lia.
      intros H1 H2 H3. subst a.
      destruct error as [[e| |k|path]|m]; simpl in *; try lia.
      * by specialize (H1 e).
      * by specialize (H3 path).
      * by specialize (H2 m).
Qed.
End ErrorResponses.

(** ** middleware/adminAuth.ts: who is let through *)

Section AdminFacts.
Context `{Externals}.
Variable env : Env.
Hypothesis jwt_round_trip : forall c secret, jwt_decode (jwt_encode c secret) secret = Some c.
Hypothesis jwt_sound :
  forall c secret secret' c',
    jwt_decode (jwt_encode c secret) secret' = Some c' -> c' = c.
Hypothesis jwt_nonempty : forall c secret, jwt_encode c secret <> "".
Hypothesis jwt_trimmed : forall c secret, js_trim (jwt_encode c secret) = jwt_encode c secret.

Lemma substring_all t : String.substring 0 (String.length t) t = t.
Proof. induction t as [|c t IH]; simpl; [reflexivity | by rewrite IH]. Qed.

Lemma dropBearer_bearer token : dropBearer (String.append "Bearer " token) = token.
Proof.
  unfold dropBearer.
  change (String.append "Bearer " token)
    with (String "B" (String "e" (String "a" (String "r" (String "e"
           (String "r" (String " " token))))))).
  cbn [String.length].
  match goal with
  | |- context [(?n - 7)%nat] =>
      replace (n - 7)%nat with (String.length token) by lia
  end.
  cbn [String.substring]. apply substring_all.
Qed.

Lemma prefix_bearer token : String.prefix "Bearer " (String.append "Bearer " token) = true.
Proof. by destruct token. Qed.

Lemma readAccessSecret_readSecret : readAccessSecret env = readSecret env AccessSecret.
Proof. reflexivity. Qed.

Lemma issueTokenPair_tokens now params pair :
  issueTokenPair env now params = Ok pair ->
  exists asec rsec,
    readSecret env AccessSecret = Ok asec
    /\ readSecret env RefreshSecret = Ok rsec
    /\ tp_accessToken pair
       = signToken now (AccessPayload (ip_userId params) (ip_role params))
                   asec ACCESS_TOKEN_TTL
    /\ tp_refreshToken pair
       = signToken now (RefreshPayload (ip_userId params) (ip_deviceId params)
                                       (ip_familyId params) (ip_tokenId params))
                   rsec REFRESH_TOKEN_TTL.
Proof.
  unfold issueTokenPair.
  destruct (readSecret env AccessSecret) as [asec|]; [|discriminate].
  destruct (readSecret env RefreshSecret) as [rsec|]; [|discriminate].
  intros [= <-]. exists asec, rsec. auto.
Qed.

(** X15. [requireAdmin] and the tokens of an issued pair, sent as
    ['Bearer ' + token]: the access token of an [ADMIN] is let through at
    every instant whose second is before the second of issue plus fifteen
    minutes, and from then on is refused as invalid or expired; the access
    token of a [USER] is refused with ['Admin access required'] while it is
    valid; the refresh token of the pair is never let through. *)
Theorem requireAdmin_issued_tokens :
  forall now now' params pair,
    issueTokenPair env now params = Ok pair ->
    requireAdmin env now' (Some (String.append "Bearer " (tp_accessToken pair)))
    = (if now' / 1000 <? now / 1000 + ACCESS_TOKEN_TTL
       then match ip_role params with
            | ADMIN => None
            | USER => Some (AuthError "Admin access required")
            end
       else Some (AuthError "Invalid or expired access token"))
    /\ requireAdmin env now' (Some (String.append "Bearer " (tp_refreshToken pair)))
       <> None.
Proof.
  intros now now' params pair Hpair.
  apply issueTokenPair_tokens in Hpair as (asec & rsec & Ha & Hr & Hat & Hrt).
  unfold requireAdmin, isEmpty.
  rewrite !prefix_bearer, !dropBearer_bearer, readAccessSecret_readSecret, Ha.
  change (String.eqb (String.append "Bearer " (tp_accessToken pair)) "")
    with false.
  change (String.eqb (String.append "Bearer " (tp_refreshToken pair)) "")
    with false.
  simpl. split.
  - rewrite Hat. unfold signToken at 1. rewrite jwt_trimmed.
    fold (signToken now (AccessPayload (ip_userId params) (ip_role params))
                    asec ACCESS_TOKEN_TTL).
    rewrite (jwt_verify_signToken jwt_round_trip jwt_nonempty).
    destruct (now' / 1000 <? now / 1000 + ACCESS_TOKEN_TTL); [|reflexivity].
    by destruct (ip_role params).
  - rewrite Hrt. unfold signToken. rewrite jwt_trimmed. unfold jwt_verify.
    destruct (String.eqb _ ""); [discriminate|].
    destruct (jwt_decode _ asec) as [c|] eqn:Hdec; [|discriminate].
    apply jwt_sound in Hdec. subst c. simpl.
    destruct (_ <=? _); discriminate.
Qed.

(** X16. An access token never rotates: presented to [/refresh], the access
    token of an issued pair is refused by [verifyRefreshToken] with one of
    its two [AuthError]s and the ledger is left as it was. *)
Theorem access_token_never_rotates :
  forall users now clock tid params pair s,
    issueTokenPair env now params = Ok pair ->
    exists e,
      refresh env users clock tid (mkRefreshBody (Some (tp_accessToken pair))) s
      = (s, Throw (ThrowApp (AuthError e)))
      /\ (e = "Invalid token type" \/ e = "Invalid or expired refresh token").
Proof.
  intros users now clock tid params pair s Hpair.
  apply issueTokenPair_tokens in Hpair as (asec & rsec & Ha & Hr & Hat & Hrt).
  unfold refresh, isEmpty. simpl. rewrite Hat. unfold signToken.
  destruct (String.eqb _ "") eqn:He;
    [apply String.eqb_eq in He; by apply jwt_nonempty in He|].
  unfold verifyRefreshToken, verifyRefreshToken_try, jwt_verify.
  rewrite Hr, He.
  destruct (jwt_decode _ rsec) as [c|] eqn:Hdec; simpl; [|eauto].
  apply jwt_sound in Hdec. subst c. simpl.
  destruct (_ <=? _); simpl; eauto.
Qed.
End AdminFacts.

(** ** The further properties in the reference deployment *)

Section Scenario2.
Import Reference ReferenceFacts ReferenceSoundness Samples.

Lemma ledger2_reachable : reachable env users ledger2.
Proof.
  apply (reachable_step env users (OpRotate (instant 5) "t2" (present token1)) ledger1).
  exact ledger1_reachable.
Qed.

Lemma ledger3_reachable : reachable env users ledger3.
Proof.
  apply (reachable_step env users
           (OpLogin 7 (mkUuids "d9" "f2" "t5") (aliceLogin (Some "d1"))) ledger1).
  exact ledger1_reachable.
Qed.

Lemma issued_refresh_token_verifies_witness :
  issueTokenPair env 0 params1 = Ok pair1
  /\ verifyRefreshToken env 5 (tp_refreshToken pair1) = Ok claims1
  /\ verifyRefreshToken env 604800000 (tp_refreshToken pair1)
     = Throw (ThrowApp (AuthError "Invalid or expired refresh token")).
Proof.
  assert (issueTokenPair env 0 params1 = Ok pair1) as H1
    by (vm_compute; reflexivity).
  split; [exact H1|]. split.
  - exact (issued_refresh_token_verifies env decode_encode encode_nonempty
             0 5 params1 pair1 H1).
  - exact (issued_refresh_token_verifies env decode_encode encode_nonempty
             0 604800000 params1 pair1 H1).
Defined.

Lemma refresh_expired_only_between_reads_witness :
  reachable env users ledger1
  /\ snd (refresh env users lateClock "t2" (present token1) ledger1)
     = Throw (ThrowApp (AuthError "Refresh token is expired"))
  /\ (exists p uid i cur,
        verifyRefreshToken env (atVerify lateClock)
          (orEmpty (rb_refreshToken (present token1))) = Ok p
        /\ findOne (matchesCredential
                      (hashToken (orEmpty (rb_refreshToken (present token1))))
                      uid p) ledger1 = Some (i, cur)
        /\ atVerify lateClock < expiresAt cur <= atFound lateClock)
  /\ (forall t tid body,
        snd (refresh env users (instant t) tid body ledger1)
        <> Throw (ThrowApp (AuthError "Refresh token is expired"))).
Proof.
  assert (snd (refresh env users lateClock "t2" (present token1) ledger1)
          = Throw (ThrowApp (AuthError "Refresh token is expired"))) as H1
    by (vm_compute; reflexivity).
  destruct (@refresh_expired_only_between_reads externals env users digest_inj
              reference_decode_encode ledger1 ledger1_reachable)
    as (_ & Hwindow & Hsame).
  split; [exact ledger1_reachable|]. split; [exact H1|].
  split; [exact (Hwindow lateClock "t2" (present token1) H1)|].
  intros t tid body. apply Hsame. simpl. lia.
Defined.

Lemma refresh_without_refresh_secret_witness :
  (forall sec, JWT_REFRESH_SECRET envShortRefresh = Some sec ->
               Z.of_nat (jsLength sec) < 32)
  /\ refresh envShortRefresh users (instant 5) "t2" (present token1) ledger1
     = (ledger1, Throw (ThrowApp (AuthError "Invalid or expired refresh token"))).
Proof.
  assert (forall sec, JWT_REFRESH_SECRET envShortRefresh = Some sec ->
                      Z.of_nat (jsLength sec) < 32) as H1
    by (intros sec [= <-]; vm_compute; reflexivity).
  assert (orEmpty (rb_refreshToken (present token1)) <> "") as H2
    by (vm_compute; discriminate).
  split; [exact H1|].
  exact (refresh_without_refresh_secret envShortRefresh users (instant 5) "t2"
           (present token1) ledger1 H1 H2).
Defined.

Lemma login_bad_credentials_witness :
  findUserByEmail "mallory@example.org" users = None
  /\ login env users 5 (mkUuids "d9" "f9" "t9")
       (mkLoginBody (Some "mallory@example.org") (Some "guess") None) ledger1
     = (ledger1, Throw (ThrowApp (AuthError "Invalid email or password")))
  /\ login env users 5 (mkUuids "d9" "f9" "t9")
       (mkLoginBody (Some "alice@example.org") (Some "guess") None) ledger1
     = (ledger1, Throw (ThrowApp (AuthError "Invalid email or password"))).
Proof.
  split; [reflexivity|]. split.
  - apply (login_bad_credentials env users 5 (mkUuids "d9" "f9" "t9")
             (mkLoginBody (Some "mallory@example.org") (Some "guess") None)
             ledger1); [simpl; discriminate | simpl; discriminate |].
    left. reflexivity.
  - apply (login_bad_credentials env users 5 (mkUuids "d9" "f9" "t9")
             (mkLoginBody (Some "alice@example.org") (Some "guess") None)
             ledger1); [simpl; discriminate | simpl; discriminate |].
    right. exists alice. split; reflexivity.
Defined.

Lemma users_are_objectIds u : u ∈ users -> castObjectId (u_id u) = Some (u_id u).
Proof. intros ->%list_elem_of_singleton. vm_compute. reflexivity. Qed.

Lemma login_then_refresh_witness :
  login env users 0 (mkUuids "d1" "f1" "t1") (aliceLogin None) []
  = (ledger1, Ok response1)
  /\ atVerify (instant 5) / 1000 < 0 / 1000 + REFRESH_TOKEN_TTL
  /\ atFound (instant 5) < 0 + 604800000
  /\ ((exists s2 r2,
         refresh env users (instant 5) "t2"
                 (mkRefreshBody (Some (refreshToken response1))) ledger1
         = (s2, Ok r2)
         /\ r_deviceId r2 = r_deviceId response1
         /\ length s2 = S (length ledger1))
      \/ (exists s2 key,
            refresh env users (instant 5) "t2"
                    (mkRefreshBody (Some (refreshToken response1))) ledger1
            = (s2, Throw (ThrowDuplicateKey key)))).
Proof.
  assert (login env users 0 (mkUuids "d1" "f1" "t1") (aliceLogin None) []
          = (ledger1, Ok response1)) as H1 by (vm_compute; reflexivity).
  assert (atVerify (instant 5) / 1000 < 0 / 1000 + REFRESH_TOKEN_TTL) as H2
    by (vm_compute; reflexivity).
  assert (atFound (instant 5) < 0 + 604800000) as H3 by (vm_compute; reflexivity).
  split; [exact H1|]. split; [exact H2|]. split; [exact H3|].
  exact (login_then_refresh env users decode_encode encode_nonempty
           0 (instant 5) (mkUuids "d1" "f1" "t1") "t2" (aliceLogin None) []
           ledger1 response1 users_are_objectIds H1 H2 H3).
Defined.

Lemma register_keeps_emails_unique_witness :
  NoDup (email <$> users)
  /\ NoDup (email <$> users2)
  /\ length users2 = 2%nat.
Proof.
  assert (NoDup (email <$> users)) as H1 by apply NoDup_singleton.
  split; [exact H1|]. split; [|reflexivity].
  exact (proj1 (register_keeps_emails_unique hashPassword bobId bobRegistration
                  users H1)).
Defined.

Lemma reachable_hashes_unique_witness :
  reachable env users ledger2 /\ NoDup (refreshTokenHash <$> ledger2).
Proof.
  split; [exact ledger2_reachable|].
  exact (reachable_hashes_unique env users ledger2 ledger2_reachable).
Defined.

Lemma rows_keep_identity_witness :
  (forall i d, ledger2 !! i = Some d ->
     exists d', applyOp env users (OpRotate (instant 6) "t3" (present token1)) ledger2 !! i
                = Some d' /\ sameIdentity d d')
  /\ (length ledger2
      <= length (applyOp env users (OpRotate (instant 6) "t3" (present token1)) ledger2))%nat.
Proof.
  exact (rows_keep_identity env users (OpRotate (instant 6) "t3" (present token1)) ledger2).
Defined.

Lemma reachable_one_active_link_witness :
  reachable env users ledger3
  /\ (forall uid dev, (length (activeLinks uid dev ledger3) <= 1)%nat)
  /\ length (activeLinks aliceId "d1" ledger3) = 1%nat.
Proof.
  split; [exact ledger3_reachable|]. split; [|reflexivity].
  exact (reachable_one_active_link env users digest_inj reference_decode_encode
           ledger3 ledger3_reachable).
Defined.

Lemma refresh_touches_one_user_witness :
  sharedLedger !! 2%nat = Some daveRow
  /\ fst (refresh env users (instant 6) "t3" (present token1) sharedLedger) !! 2%nat
     = Some daveRow
  /\ (status <$> fst (refresh env users (instant 6) "t3" (present token1) sharedLedger))
     = [revoked; revoked; active].
Proof.
  assert (sharedLedger !! 2%nat = Some daveRow) as H1 by reflexivity.
  split; [exact H1|]. split; [|vm_compute; reflexivity].
  apply (refresh_touches_one_user env users (instant 6) "t3" (present token1)
           sharedLedger 2%nat daveRow H1).
  intros p uid Hv Hcast. vm_compute in Hv. injection Hv as <-.
  vm_compute in Hcast. injection Hcast as <-. vm_compute. discriminate.
Defined.

Lemma register_then_login_witness :
  register hashPassword bobId bobRegistration users = (users2, Ok bobResponse)
  /\ ((exists s1 r,
         login env users2 9 (mkUuids "d5" "f5" "t6")
               (mkLoginBody (gb_email bobRegistration)
                            (gb_password bobRegistration) None) ledger1
         = (s1, Ok r)
         /\ exists head, last s1 = Some head /\ userId head = rr_userId bobResponse
                         /\ status head = active)
      \/ (exists s1 key,
            login env users2 9 (mkUuids "d5" "f5" "t6")
                  (mkLoginBody (gb_email bobRegistration)
                               (gb_password bobRegistration) None) ledger1
            = (s1, Throw (ThrowDuplicateKey key)))).
Proof.
  assert (register hashPassword bobId bobRegistration users
          = (users2, Ok bobResponse)) as H1 by (vm_compute; reflexivity).
  split; [exact H1|].
  apply (register_then_login env hashPassword bobId bobRegistration users users2
           bobResponse 9 (mkUuids "d5" "f5" "t6") None ledger1 H1).
  - reflexivity.
  - do 2 eexists. split; vm_compute; reflexivity.
Defined.

Lemma auth_errors_answered_witness :
  snd (login envShortRefresh users 5 (mkUuids "d9" "f9" "t9") (aliceLogin None)
             ledger1)
  = Throw (ThrowApp (newAppError "JWT_REFRESH_SECRET is not configured"
                                 500 "AUTH_CONFIG_ERROR"))
  /\ answeredAs (ThrowApp (newAppError "JWT_REFRESH_SECRET is not configured"
                                       500 "AUTH_CONFIG_ERROR"))
  /\ errorHandler (RaisedThrown (ThrowApp
                     (newAppError "JWT_REFRESH_SECRET is not configured"
                                  500 "AUTH_CONFIG_ERROR")))
     = mkErrorResponse 500 "INTERNAL_SERVER_ERROR" "Internal server error"
  /\ snd (refresh env users (instant 5) "t2" (present forgedStranger) ledger1)
     = Throw (ThrowCastError "userId")
  /\ answeredAs (ThrowCastError "userId").
Proof.
  assert (snd (login envShortRefresh users 5 (mkUuids "d9" "f9" "t9")
                     (aliceLogin None) ledger1)
          = Throw (ThrowApp (newAppError "JWT_REFRESH_SECRET is not configured"
                                         500 "AUTH_CONFIG_ERROR"))) as H1
    by (vm_compute; reflexivity).
  assert (snd (refresh env users (instant 5) "t2" (present forgedStranger) ledger1)
          = Throw (ThrowCastError "userId")) as H2 by (vm_compute; reflexivity).
  split; [exact H1|]. split.
  { exact (auth_errors_answered envShortRefresh users 5 (instant 5)
             (mkUuids "d9" "f9" "t9") "t2" (aliceLogin None) (present token1)
             ledger1 _ (or_introl H1)). }
  split; [reflexivity|]. split; [exact H2|].
  exact (auth_errors_answered env users 5 (instant 5) (mkUuids "d9" "f9" "t9")
           "t2" (aliceLogin None) (present forgedStranger) ledger1 _
           (or_intror H2)).
Defined.

Lemma errorHandler_masks_server_errors_witness :
  er_status (errorHandler (RaisedThrown (ThrowDuplicateKey "k"))) = 500
  /\ er_code (errorHandler (RaisedThrown (ThrowDuplicateKey "k")))
     = "INTERNAL_SERVER_ERROR"
  /\ er_message (errorHandler (RaisedThrown (ThrowDuplicateKey "k")))
     = "Internal server error".
Proof.
  split; [reflexivity|].
  apply (proj1 (proj2 (errorHandler_masks_server_errors
                         (RaisedThrown (ThrowDuplicateKey "k"))))).
  simpl. lia.
Defined.

Lemma requireAdmin_issued_tokens_witness :
  issueTokenPair env 0 adminParams = Ok adminPair
  /\ requireAdmin env 5 (Some (String.append "Bearer " (tp_accessToken adminPair)))
     = None
  /\ requireAdmin env 900000
       (Some (String.append "Bearer " (tp_accessToken adminPair)))
     = Some (AuthError "Invalid or expired access token")
  /\ requireAdmin env 5 (Some (String.append "Bearer " (tp_refreshToken adminPair)))
     <> None.
Proof.
  assert (issueTokenPair env 0 adminParams = Ok adminPair) as H1
    by (vm_compute; reflexivity).
  split; [exact H1|].
  pose proof (requireAdmin_issued_tokens env decode_encode decode_sound
                encode_nonempty (fun _ _ => eq_refl) 0 5 adminParams adminPair H1)
    as [Ha Hr].
  pose proof (requireAdmin_issued_tokens env decode_encode decode_sound
                encode_nonempty (fun _ _ => eq_refl) 0 900000 adminParams
                adminPair H1) as [Ha' _].
  split; [exact Ha|]. split; [exact Ha' | exact Hr].
Defined.

Lemma access_token_never_rotates_witness :
  issueTokenPair env 0 params1 = Ok pair1
  /\ exists e,
       refresh env users (instant 5) "t2" (mkRefreshBody (Some (tp_accessToken pair1)))
               ledger1
       = (ledger1, Throw (ThrowApp (AuthError e)))
       /\ (e = "Invalid token type" \/ e = "Invalid or expired refresh token").
Proof.
  assert (issueTokenPair env 0 params1 = Ok pair1) as H1
    by (vm_compute; reflexivity).
  split; [exact H1|].
  exact (access_token_never_rotates env decode_sound encode_nonempty users 0
           (instant 5) "t2" params1 pair1 ledger1 H1).
Defined.
End Scenario2.

(** ** libs/config/validate-env.cjs: what a validated environment promises *)

Section EnvValidation.
Context `{JsRuntime}.

Lemma firstError_None key value validators :
  firstError key value validators = None
  <-> forall validate, validate ∈ validators -> passes validate key value.
Proof.
  induction validators as [|v vs IH]; simpl.
  - split; [intros _ validate Hin; inversion Hin | reflexivity].
  - destruct (v key value) as [error|] eqn:Hv.
    + destruct (isEmpty error) eqn:He.
      * apply String.eqb_eq in He. subst error. rewrite IH. split.
        -- intros Hall validate [->|Hin]%elem_of_cons; [by right | auto].
        -- intros Hall validate Hin. apply Hall. by apply list_elem_of_further.
      * split; [discriminate|]. intros Hall.
        destruct (Hall v (list_elem_of_here _ _)) as [Hp|Hp];
          rewrite Hv in Hp; [discriminate|].
        injection Hp as ->. discriminate.
    + rewrite IH. split.
      * intros Hall validate [->|Hin]%elem_of_cons; [by left | auto].
      * intros Hall validate Hin. apply Hall. by apply list_elem_of_further.
Qed.

Lemma validateSchema_nil (schema : Schema) (sourceEnv : gmap string string) :
  (validateSchema schema sourceEnv = []
   <-> forall key validators validate,
         (key, validators) ∈ schema -> validate ∈ validators ->
         passes validate key (sourceEnv !! key))
  /\ (length (validateSchema schema sourceEnv) <= length schema)%nat.
Proof.
  induction schema as [|[key validators] rest [IH IHlen]].
  - split; [|simpl; lia]. split; [|reflexivity].
    intros _ key validators validate Hin. inversion Hin.
  - simpl. destruct (firstError key (sourceEnv !! key) validators) as [error|] eqn:Hf.
    + split; [|simpl; lia]. split; [discriminate|]. intros Hall.
      assert (firstError key (sourceEnv !! key) validators = None) as Hn.
      { apply firstError_None. intros validate Hin.
        apply (Hall key validators validate); [apply list_elem_of_here | exact Hin]. }
      congruence.
    + split; [|lia]. rewrite IH. split.
      * intros Hall k vs validate [[= -> ->]|Hin]%elem_of_cons Hv.
        -- by apply (firstError_None key (sourceEnv !! key) validators).
        -- eauto.
      * intros Hall k vs validate Hin Hv.
        apply (Hall k vs validate); [by apply list_elem_of_further | exact Hv].
Qed.

(** X17. [validateSchema] reports no error exactly when every validator of
    every key lets the key's value pass, and it never reports more than one
    error for a key. *)
Theorem validateSchema_errors :
  forall (schema : Schema) (sourceEnv : gmap string string),
    (validateSchema schema sourceEnv = []
     <-> forall key validators validate,
           (key, validators) ∈ schema -> validate ∈ validators ->
           passes validate key (sourceEnv !! key))
    /\ (length (validateSchema schema sourceEnv) <= length schema)%nat.
Proof. exact validateSchema_nil. Qed.

Lemma validateTargetEnv_api sourceEnv :
  validateTargetEnv "api" sourceEnv = None ->
  forall key validators validate,
    (key, validators) ∈ apiSchema -> validate ∈ validators ->
    passes validate key (sourceEnv !! key).
Proof.
  unfold validateTargetEnv. change (envSchemas "api") with (Some apiSchema).
  cbv iota beta.
  destruct (validateSchema apiSchema sourceEnv) eqn:Hv; [|discriminate].
  intros _. by apply validateSchema_nil.
Qed.

Lemma passes_isRequired key value :
  passes isRequired key value -> exists v, value = Some v /\ v <> "".
Proof.
  unfold passes, isRequired. destruct value as [v|].
  - destruct (isEmpty v) eqn:He.
    + intros [Hp|Hp]; discriminate Hp.
    + intros _. exists v. split; [reflexivity|]. by apply String.eqb_neq.
  - intros [Hp|Hp]; discriminate Hp.
Qed.
End EnvValidation.

Section ValidatedApiEnv.
Context `{Externals} `{JsRuntime}.

Ltac in_list := repeat first [apply list_elem_of_here | apply list_elem_of_further].

Lemma passes_minLength n key v :
  passes (minLength n) key (Some v) -> n <= Z.of_nat (jsLength v).
Proof.
  unfold passes, minLength. simpl.
  destruct (Z.of_nat (jsLength v) <? n) eqn:Hlen.
  - intros [Hp|Hp]; discriminate Hp.
  - intros _. by apply Z.ltb_ge.
Qed.

Lemma validated_secret sourceEnv key :
  (key, [isRequired; minLength 32]) ∈ apiSchema ->
  validateTargetEnv "api" sourceEnv = None ->
  exists v, sourceEnv !! key = Some v /\ 32 <= Z.of_nat (jsLength v).
Proof.
  intros Hin Hok.
  pose proof (validateTargetEnv_api sourceEnv Hok key _ isRequired Hin
                ltac:(in_list)) as Hreq.
  pose proof (validateTargetEnv_api sourceEnv Hok key _ (minLength 32) Hin
                ltac:(in_list)) as Hmin.
  apply passes_isRequired in Hreq as (v & Hv & _).
  rewrite Hv in Hmin. apply passes_minLength in Hmin. eauto.
Qed.

(** X18. An environment that [validateTargetEnv('api', env)] accepts can sign:
    with it, [issueTokenPair] returns a pair at every instant and for every
    subject, and never throws the configuration error. *)
Theorem validated_api_env_issues_tokens :
  forall sourceEnv,
    validateTargetEnv "api" sourceEnv = None ->
    forall now params,
      exists pair, issueTokenPair (envOf sourceEnv) now params = Ok pair.
Proof.
  intros sourceEnv Hok now params.
  destruct (validated_secret sourceEnv "JWT_ACCESS_SECRET") as (a & Ha & Hla);
    [unfold apiSchema; apply elem_of_app; left; in_list | exact Hok |].
  destruct (validated_secret sourceEnv "JWT_REFRESH_SECRET") as (r & Hr & Hlr);
    [unfold apiSchema; apply elem_of_app; left; in_list | exact Hok |].
  apply (proj2 (proj1 (issueTokenPair_outcomes (envOf sourceEnv) now params))).
  exists a, r. simpl. auto.
Qed.

Lemma Qltb_false a b : Qltb a b = false <-> (b <= a)%Q.
Proof.
  unfold Qltb. rewrite negb_false_iff. apply Qle_bool_iff.
Qed.

(** X19. With a [Number] that reads a string of digits as the integer it
    writes, exactly up to [2^53] and as something no smaller beyond, the
    [API_PORT] of an environment that [validateTargetEnv('api', env)] accepts
    is a string of digits that writes a number from 1 to 65535. *)
Theorem validated_api_port :
  forall sourceEnv,
    (forall text, isDigits text = true ->
       match js_parseNumber text with
       | JsFinite q =>
           (decimal text <= 2 ^ 53 -> (q == inject_Z (decimal text))%Q)
           /\ (2 ^ 53 < decimal text -> (inject_Z (2 ^ 53) <= q)%Q)
       | JsPosInf => 2 ^ 53 < decimal text
       | _ => False
       end) ->
    validateTargetEnv "api" sourceEnv = None ->
    exists port,
      sourceEnv !! "API_PORT" = Some port
      /\ isDigits port = true
      /\ 1 <= decimal port <= 65535.
Proof.
  intros sourceEnv Hparse Hok.
  assert (("API_PORT", [isRequired; isWholeNumber; isInRange 1 65535]) ∈ apiSchema)
    as Hin by (unfold apiSchema; apply elem_of_app; left; in_list).
  pose proof (validateTargetEnv_api sourceEnv Hok _ _ isRequired Hin
                ltac:(in_list)) as Hreq.
  pose proof (validateTargetEnv_api sourceEnv Hok _ _ isWholeNumber Hin
                ltac:(in_list)) as Hwhole.
  pose proof (validateTargetEnv_api sourceEnv Hok _ _ (isInRange 1 65535) Hin
                ltac:(in_list)) as Hrange.
  apply passes_isRequired in Hreq as (port & Hport & _).
  rewrite Hport in Hwhole, Hrange. exists port. split; [exact Hport|].
  assert (isDigits port = true) as Hd.
  { unfold passes, isWholeNumber in Hwhole. simpl in Hwhole.
    destruct (isDigits port); [reflexivity|].
    destruct Hwhole as [Hp|Hp]; discriminate Hp. }
  split; [exact Hd|].
  specialize (Hparse port Hd).
  unfold passes, isInRange in Hrange.
  destruct (js_parseNumber port) as [q| | |];
    try (destruct Hrange as [Hp|Hp]; discriminate Hp).
  destruct (Qltb q (inject_Z 1)) eqn:Hlo;
    [destruct Hrange as [Hp|Hp]; discriminate Hp|].
  destruct (Qltb (inject_Z 65535) q) eqn:Hhi;
    [destruct Hrange as [Hp|Hp]; discriminate Hp|].
  apply Qltb_false in Hlo, Hhi. destruct Hparse as [Hexact Hbig].
  destruct (Z_le_gt_dec (decimal port) (2 ^ 53)) as [Hle|Hgt].
  - specialize (Hexact Hle). rewrite Hexact in Hlo, Hhi.
    rewrite <- Zle_Qle in Hlo, Hhi. lia.
  - assert (2 ^ 53 < decimal port) as Hlt by lia. specialize (Hbig Hlt).
    assert (inject_Z (2 ^ 53) <= inject_Z 65535)%Q as Habs
      by (eapply Qle_trans; eauto).
    rewrite <- Zle_Qle in Habs. lia.
Qed.
End ValidatedApiEnv.

(** ** routes/locations.ts: what an accepted query is *)

Section NearbyFacts.
Context `{JsRuntime}.

Lemma Qleb_false a b : Qleb a b = false <-> (b < a)%Q.
Proof.
  unfold Qleb. split.
  - intros Hf. apply Qnot_le_lt. intros Hle.
    apply Qle_bool_iff in Hle. congruence.
  - intros Hlt. destruct (Qle_bool a b) eqn:Hle; [|reflexivity].
    apply Qle_bool_iff in Hle. by apply Qlt_not_le in Hlt.
Qed.

Lemma Q_isInteger_true q :
  Q_isInteger q = true -> exists n : Z, (q == inject_Z n)%Q.
Proof.
  unfold Q_isInteger. intros Hm. apply Z.eqb_eq in Hm.
  exists (Qnum q / Zpos (Qden q)). unfold Qeq. simpl.
  pose proof (Z.div_mod (Qnum q) (Zpos (Qden q))) as Hdm. lia.
Qed.

Lemma parseLimit_Ok value limit :
  parseLimit value = Ok limit ->
  (exists n : Z, (limit == inject_Z n)%Q /\ 1 <= n <= 200)
  /\ (value = None -> limit = inject_Z 50).
Proof.
  unfold parseLimit. destruct value as [v|].
  - destruct (js_Number v) as [parsed| | |]; try discriminate.
    destruct (Q_isInteger parsed) eqn:Hint; simpl; [|discriminate].
    destruct (Qltb parsed (inject_Z 1)) eqn:Hlo; simpl; [discriminate|].
    destruct (Qltb (inject_Z 200) parsed) eqn:Hhi; [discriminate|].
    intros [= <-]. split; [|discriminate].
    apply Q_isInteger_true in Hint as [n Hn]. exists n. split; [exact Hn|].
    apply Qltb_false in Hlo, Hhi. rewrite Hn in Hlo, Hhi.
    rewrite <- Zle_Qle in Hlo, Hhi. lia.
  - intros [= <-]. split; [|reflexivity].
    exists 50. split; [reflexivity | lia].
Qed.

Lemma parseTypeFilter_Ok value type :
  parseTypeFilter value = Ok (Some type) -> type ∈ VALID_TYPES.
Proof.
  unfold parseTypeFilter. destruct value as [v|]; [|discriminate].
  destruct (js_isNull v || js_isEmptyString v); [discriminate|].
  destruct (existsb _ VALID_TYPES) eqn:Hex; [|discriminate].
  intros [= <-]. apply existsb_exists in Hex as (x & Hin & Heq).
  apply String.eqb_eq in Heq. subst x. by apply list_elem_of_In.
Qed.

(** X20. A query that [/nearby] accepts asks for a point with longitude in
    [-180, 180] and latitude in [-90, 90], a radius greater than 0 and at
    most 50000 (2000 when none is given), a limit that is a whole number
    from 1 to 200 (50 when none is given), only locations whose status is
    [active], and a type, if any, out of the six valid ones. *)
Theorem nearbyQuery_accepted :
  forall req q,
    nearbyQuery req = Ok q ->
    (inject_Z (-180) <= near_lng q)%Q /\ (near_lng q <= inject_Z 180)%Q
    /\ (inject_Z (-90) <= near_lat q)%Q /\ (near_lat q <= inject_Z 90)%Q
    /\ (inject_Z 0 < maxDistance q)%Q /\ (maxDistance q <= inject_Z 50000)%Q
    /\ (q_radiusInMeters req = None -> maxDistance q = inject_Z 2000)
    /\ (exists n : Z, (stage_limit q == inject_Z n)%Q /\ 1 <= n <= 200)
    /\ (q_limit req = None -> stage_limit q = inject_Z 50)
    /\ query_status q = "active"
    /\ (forall type, query_type q = Some type -> type ∈ VALID_TYPES).
Proof.
  intros req q. unfold nearbyQuery, andThen.
  destruct (parseFiniteNumber (q_lng req) "lng") as [lng|]; [|discriminate].
  destruct (parseFiniteNumber (q_lat req) "lat") as [lat|]; [|discriminate].
  destruct (parseFiniteNumberOr (q_radiusInMeters req) _ _) as [radius|] eqn:Hr;
    [|discriminate].
  destruct (parseLimit (q_limit req)) as [limit|] eqn:Hl; [|discriminate].
  destruct (parseTypeFilter (q_typeFilter req)) as [typeFilter|] eqn:Ht;
    [|discriminate].
  destruct (Qltb lng _) eqn:H1; simpl; [discriminate|].
  destruct (Qltb _ lng) eqn:H2; simpl; [discriminate|].
  destruct (Qltb lat _) eqn:H3; simpl; [discriminate|].
  destruct (Qltb _ lat) eqn:H4; simpl; [discriminate|].
  destruct (Qleb radius _) eqn:H5; simpl; [discriminate|].
  destruct (Qltb _ radius) eqn:H6; simpl; [discriminate|].
  intros [= <-]. simpl.
  apply Qltb_false in H1, H2, H3, H4, H6. apply Qleb_false in H5.
  apply parseLimit_Ok in Hl as [Hn Hdefault].
  repeat split; auto.
  - intros Hnone. rewrite Hnone in Hr. simpl in Hr. congruence.
  - intros type ->. eapply parseTypeFilter_Ok; eauto.
Qed.
End NearbyFacts.

(** ** services/placeSeed.ts: one place for a key, the last one fetched *)

Section Dedupe.
Implicit Types (m : list (string * ExternalPlace)) (p q : ExternalPlace)
               (places : list ExternalPlace).

Lemma mapSet_entries {A} (key : string) (value : A) (m : list (string * A)) k v :
  (k, v) ∈ mapSet key value m -> (k = key /\ v = value) \/ (k, v) ∈ m.
Proof.
  induction m as [|[k' v'] m IH]; simpl.
  - intros [= -> ->]%list_elem_of_singleton. auto.
  - destruct (String.eqb k' key) eqn:Hk.
    + apply String.eqb_eq in Hk. subst k'.
      intros [[= -> ->]|Hin]%elem_of_cons; [auto|].
      right. by apply list_elem_of_further.
    + intros [[= -> ->]|Hin]%elem_of_cons.
      * right. apply list_elem_of_here.
      * destruct (IH Hin) as [?|?]; [auto|]. right. by apply list_elem_of_further.
Qed.

Lemma mapSet_keys {A} (key : string) (value : A) (m : list (string * A)) k :
  k ∈ (fst <$> mapSet key value m) <-> k = key \/ k ∈ (fst <$> m).
Proof.
  induction m as [|[k' v'] m IH]; simpl.
  - rewrite list_elem_of_singleton. split; [auto|].
    intros [?|Hin]; [auto | inversion Hin].
  - destruct (String.eqb k' key) eqn:Hk; simpl.
    + apply String.eqb_eq in Hk. subst k'. rewrite elem_of_cons. tauto.
    + rewrite !elem_of_cons, IH. tauto.
Qed.

Lemma mapSet_NoDup {A} (key : string) (value : A) (m : list (string * A)) :
  NoDup (fst <$> m) -> NoDup (fst <$> mapSet key value m).
Proof.
  induction m as [|[k' v'] m IH]; simpl; intros Hnd.
  - apply NoDup_singleton.
  - apply NoDup_cons in Hnd as [Hnotin Hnd].
    destruct (String.eqb k' key) eqn:Hk; simpl.
    + apply NoDup_cons. auto.
    + apply NoDup_cons. split; [|auto].
      rewrite mapSet_keys. intros [->|Hin]; [|contradiction].
      by rewrite String.eqb_refl in Hk.
Qed.

Lemma mapSet_keeps {A} (key : string) (value : A) (m : list (string * A)) k v :
  (k, v) ∈ m -> k <> key -> (k, v) ∈ mapSet key value m.
Proof.
  induction m as [|[k' v'] m IH]; simpl; [intros Hin; inversion Hin|].
  intros [[= <- <-]|Hin]%elem_of_cons Hne.
  - apply String.eqb_neq in Hne. rewrite Hne. apply list_elem_of_here.
  - destruct (String.eqb k' key); apply list_elem_of_further; auto.
Qed.

Lemma mapSet_sets {A} (key : string) (value : A) (m : list (string * A)) :
  NoDup (fst <$> m) -> (key, value) ∈ mapSet key value m.
Proof.
  induction m as [|[k' v'] m IH]; simpl; intros Hnd; [apply list_elem_of_here|].
  apply NoDup_cons in Hnd as [_ Hnd].
  destruct (String.eqb k' key) eqn:Hk.
  - apply String.eqb_eq in Hk. subst k'. apply list_elem_of_here.
  - apply list_elem_of_further. auto.
Qed.

Lemma mapSet_fresh {A} (key : string) (value : A) (m : list (string * A)) :
  key ∉ (fst <$> m) -> mapSet key value m = m ++ [(key, value)].
Proof.
  induction m as [|[k' v'] m IH]; simpl; intros Hnotin; [reflexivity|].
  apply not_elem_of_cons in Hnotin as [Hne Hnotin].
  assert (String.eqb k' key = false) as -> by (apply String.eqb_neq; congruence).
  by rewrite IH.
Qed.

Lemma placesMap_keyed places m : keyed m -> keyed (placesMap m places).
Proof.
  revert m. induction places as [|x places IH]; intros m [Hnd Hk]; [by split|].
  simpl. apply IH. split; [by apply mapSet_NoDup|].
  intros k v [[-> ->]|Hin]%mapSet_entries; auto.
Qed.

Lemma placesMap_from places m k v :
  (k, v) ∈ placesMap m places -> (k, v) ∈ m \/ v ∈ places.
Proof.
  revert m. induction places as [|x places IH]; intros m; [auto|].
  simpl. intros [[[-> ->]|Hin]%mapSet_entries|Hin]%IH.
  - right. apply list_elem_of_here.
  - auto.
  - right. by apply list_elem_of_further.
Qed.

Lemma placesMap_keeps places m k v :
  (k, v) ∈ m -> (forall x, x ∈ places -> placeKey x <> k) ->
  (k, v) ∈ placesMap m places.
Proof.
  revert m. induction places as [|x places IH]; intros m Hin Hfree; [exact Hin|].
  simpl. apply IH.
  - apply mapSet_keeps; [exact Hin|].
    intros Heq. apply (Hfree x); [apply list_elem_of_here | congruence].
  - intros y Hy. apply Hfree. by apply list_elem_of_further.
Qed.

(** The place the map holds for a key is the last one set with that key. *)
Lemma placesMap_last places m p :
  keyed m ->
  last (List.filter (fun x => String.eqb (placeKey x) (placeKey p)) places)
  = Some p ->
  (placeKey p, p) ∈ placesMap m places.
Proof.
  revert m. induction places as [|x places IH]; intros m Hm; [discriminate|].
  change (placesMap m (x :: places))
    with (placesMap (mapSet (placeKey x) x m) places).
  cbn [List.filter]. destruct (String.eqb (placeKey x) (placeKey p)) eqn:Hx.
  - destruct (List.filter _ places) as [|y ys] eqn:Hf.
    + intros [= ->]. apply placesMap_keeps.
      * apply mapSet_sets. apply Hm.
      * intros y Hy Hkey.
        assert (y ∈ List.filter
                      (fun x => String.eqb (placeKey x) (placeKey p)) places)
          as Hin; [|rewrite Hf in Hin; inversion Hin].
        apply list_elem_of_In, filter_In. split; [by apply list_elem_of_In|].
        by apply String.eqb_eq.
    + rewrite last_cons_cons. intros Hlast. apply IH; [|exact Hlast].
      split; [apply mapSet_NoDup, Hm|].
      intros k v [[-> ->]|Hin]%mapSet_entries; [reflexivity|]. by apply Hm.
  - intros Hlast. apply IH; [|exact Hlast].
    split; [apply mapSet_NoDup, Hm|].
    intros k v [[-> ->]|Hin]%mapSet_entries; [reflexivity|]. by apply Hm.
Qed.

Lemma placesMap_distinct places m :
  NoDup ((fst <$> m) ++ (placeKey <$> places)) ->
  placesMap m places = m ++ ((fun p => (placeKey p, p)) <$> places).
Proof.
  revert m. induction places as [|x places IH]; intros m Hnd; simpl.
  - by rewrite app_nil_r.
  - assert (placeKey x ∉ (fst <$> m)) as Hfresh.
    { apply NoDup_app in Hnd as (_ & Hdisj & _). intros Hin.
      apply (Hdisj _ Hin). apply list_elem_of_here. }
    rewrite mapSet_fresh by exact Hfresh. rewrite IH.
    + by rewrite <- app_assoc.
    + rewrite fmap_app. simpl. rewrite <- app_assoc. exact Hnd.
Qed.

Lemma keyed_keys m : keyed m -> placeKey <$> (snd <$> m) = fst <$> m.
Proof.
  intros [_ Hk]. induction m as [|[k v] m IH]; [reflexivity|]. simpl.
  rewrite <- (Hk k v) by apply list_elem_of_here. f_equal. apply IH.
  intros k' v' Hin. apply Hk. by apply list_elem_of_further.
Qed.

Lemma keyed_nil : keyed [].
Proof. split; [apply NoDup_nil_2 | intros k v Hin; inversion Hin]. Qed.

Lemma dedupePlaces_distinct places :
  NoDup (placeKey <$> places) -> dedupePlaces places = places.
Proof.
  intros Hnd. unfold dedupePlaces.
  fold (placesMap [] places). rewrite placesMap_distinct by exact Hnd.
  simpl. rewrite <- list_fmap_compose. apply list_fmap_id.
Qed.

Lemma dedupePlaces_NoDup places : NoDup (placeKey <$> dedupePlaces places).
Proof.
  unfold dedupePlaces. fold (placesMap [] places).
  pose proof (placesMap_keyed places [] keyed_nil) as Hk.
  rewrite (keyed_keys _ Hk). apply Hk.
Qed.

(** X21. [dedupePlaces] keeps one place for each pair of source and place id:
    no two places of the result have the same key, every place of the result
    was fetched, every key fetched is kept, the place kept for a key is the
    last one fetched with it, and doing it twice changes nothing. *)
Theorem dedupePlaces_last_wins :
  forall places,
    NoDup (placeKey <$> dedupePlaces places)
    /\ (forall p, p ∈ dedupePlaces places -> p ∈ places)
    /\ (forall p,
          last (List.filter (fun x => String.eqb (placeKey x) (placeKey p)) places)
          = Some p -> p ∈ dedupePlaces places)
    /\ (forall p, p ∈ places ->
          exists q, q ∈ dedupePlaces places /\ placeKey q = placeKey p)
    /\ dedupePlaces (dedupePlaces places) = dedupePlaces places.
Proof.
  intros places. split; [apply dedupePlaces_NoDup|]. split; [|split; [|split]].
  - unfold dedupePlaces. fold (placesMap [] places).
    intros p ([k v] & -> & Hin)%list_elem_of_fmap. simpl.
    apply placesMap_from in Hin as [Hin|Hin]; [inversion Hin | exact Hin].
  - intros p Hlast. unfold dedupePlaces. fold (placesMap [] places).
    apply list_elem_of_fmap. exists (placeKey p, p). split; [reflexivity|].
    by apply placesMap_last; [apply keyed_nil|].
  - intros p Hin.
    destruct (last (List.filter
                      (fun x => String.eqb (placeKey x) (placeKey p)) places))
      as [q|] eqn:Hlast.
    + assert (placeKey q = placeKey p) as Hq.
      { apply last_Some_elem_of in Hlast.
        apply list_elem_of_In, filter_In in Hlast as [_ Heq].
        by apply String.eqb_eq. }
      exists q. split; [|exact Hq].
      unfold dedupePlaces. fold (placesMap [] places).
      apply list_elem_of_fmap. exists (placeKey q, q). split; [reflexivity|].
      apply placesMap_last; [apply keyed_nil|]. by rewrite Hq.
    + apply last_None in Hlast.
      assert (p ∈ List.filter
                    (fun x => String.eqb (placeKey x) (placeKey p)) places)
        as Habs; [|rewrite Hlast in Habs; inversion Habs].
      apply list_elem_of_In, filter_In. split; [by apply list_elem_of_In|].
      apply String.eqb_refl.
  - apply dedupePlaces_distinct, dedupePlaces_NoDup.
Qed.
End Dedupe.

(** ** services/placeSeed.ts: what an accepted seed request is *)

Section SeedFacts.
Context `{Externals} `{JsRuntime}.

Lemma existsb_eqb_elem_of (x : string) (l : list string) :
  existsb (String.eqb x) l = true <-> x ∈ l.
Proof.
  rewrite existsb_exists. split.
  - intros (y & Hin & ->%String.eqb_eq). by apply list_elem_of_In.
  - intros Hin. exists x. split; [by apply list_elem_of_In | apply String.eqb_refl].
Qed.

Lemma setOf_elem_of seen values x :
  x ∈ setOf seen values <-> x ∈ seen \/ x ∈ values.
Proof.
  revert seen. induction values as [|v values IH]; intros seen; simpl.
  - split; [auto | intros [?|Hin]; [auto | inversion Hin]].
  - destruct (existsb (String.eqb v) seen) eqn:Hex.
    + apply existsb_eqb_elem_of in Hex. rewrite IH, elem_of_cons.
      split; [tauto|]. intros [?|[->|?]]; auto.
    + rewrite IH, elem_of_app, list_elem_of_singleton, elem_of_cons. tauto.
Qed.

Lemma setOf_NoDup seen values : NoDup seen -> NoDup (setOf seen values).
Proof.
  revert seen. induction values as [|v values IH]; intros seen Hnd; simpl; [exact Hnd|].
  destruct (existsb (String.eqb v) seen) eqn:Hex; [auto|].
  apply IH. apply NoDup_app. split; [exact Hnd|]. split; [|apply NoDup_singleton].
  intros x Hx ->%list_elem_of_singleton.
  apply existsb_eqb_elem_of in Hx. congruence.
Qed.

Lemma normalizeTypes_Ok input types :
  normalizeTypes input = Ok types ->
  NoDup types /\ types <> []
  /\ (forall type, type ∈ types -> type ∈ VALID_TYPES)
  /\ ((forall entries, input ≫= js_asArray <> Some entries \/ entries = []) ->
      types = ["bank"; "hospital"; "atm"]).
Proof.
  unfold normalizeTypes.
  assert (NoDup ["bank"; "hospital"; "atm"]
          /\ forall type, type ∈ ["bank"; "hospital"; "atm"] -> type ∈ VALID_TYPES)
    as [Hnd Hdef].
  { split.
    - repeat (apply NoDup_cons; split;
              [rewrite ?elem_of_cons, ?elem_of_nil; intuition discriminate|]).
      apply NoDup_nil_2.
    - unfold VALID_TYPES. intros type. rewrite !elem_of_cons. tauto. }
  assert (input ≫= js_asArray
          = match input with
            | Some v => js_asArray v
            | None => None
            end) as Harr by (by destruct input).
  destruct (match input with
            | Some v => js_asArray v
            | None => None
            end) as [[|entry entries]|]; cbv zeta.
  - intros [= <-]. repeat split; auto; discriminate.
  - destruct (existsb _ _) eqn:Hbad; [discriminate|]. intros [= <-].
    change (setOf [js_String entry] (list_fmap JsValue string js_String entries))
      with (setOf [] (js_String <$> entry :: entries)).
    split; [apply setOf_NoDup, NoDup_nil_2|]. split; [|split].
    + intros Hnil.
      assert (js_String entry ∈ setOf [] (js_String <$> entry :: entries))
        as Hin by (apply setOf_elem_of; right; apply list_elem_of_here).
      rewrite Hnil in Hin. inversion Hin.
    + intros type [Hin|Hin]%setOf_elem_of; [inversion Hin|].
      destruct (existsb (String.eqb type) VALID_TYPES) eqn:Hok;
        [by apply existsb_eqb_elem_of|].
      assert (existsb (fun type0 =>
                negb (existsb (String.eqb type0)
                        ["bank"; "hospital"; "atm"; "government";
                         "fuel_station"; "other"]))
                (js_String <$> entry :: entries) = true) as Habs; [|congruence].
      apply existsb_exists. exists type.
      split; [by apply list_elem_of_In|]. unfold VALID_TYPES in Hok.
      by rewrite Hok.
    + intros Hno. destruct (Hno (entry :: entries)) as [Hne|Hnil];
        [congruence | discriminate].
  - intros [= <-]. repeat split; auto; discriminate.
Qed.

(** X22. The types [normalizeTypes] returns are distinct, at least one, and
    all out of the six valid ones; for an input that is not an array, or is
    an empty one, they are bank, hospital and atm. *)
Theorem normalizeTypes_accepted :
  forall input types,
    normalizeTypes input = Ok types ->
    NoDup types /\ types <> []
    /\ (forall type, type ∈ types -> type ∈ VALID_TYPES)
    /\ ((forall entries, input ≫= js_asArray <> Some entries \/ entries = []) ->
        types = ["bank"; "hospital"; "atm"]).
Proof. exact normalizeTypes_Ok. Qed.

Lemma Q_clamp r lo hi :
  (lo <= hi)%Q ->
  (lo <= Q_min (Q_max r lo) hi)%Q /\ (Q_min (Q_max r lo) hi <= hi)%Q.
Proof.
  intros Hlh. unfold Q_min, Q_max.
  destruct (Qle_bool r lo) eqn:H1.
  - destruct (Qle_bool lo hi) eqn:H2.
    + split; [apply Qle_refl | exact Hlh].
    + split; [exact Hlh | apply Qle_refl].
  - assert (lo <= r)%Q as Hlr.
    { apply Qlt_le_weak, Qnot_le_lt. intros Hle.
      apply Qle_bool_iff in Hle. congruence. }
    destruct (Qle_bool r hi) eqn:H2.
    + apply Qle_bool_iff in H2. auto.
    + split; [exact Hlh | apply Qle_refl].
Qed.

(** X23. A seed request that [parseSeedRequest] accepts has a radius from 100
    to 50000, whatever radius was sent, a box whose south-west corner is
    strictly south and west of its north-east corner, both within latitudes
    [-90, 90] and longitudes [-180, 180], and distinct valid types. *)
Theorem parseSeedRequest_accepted :
  forall body request,
    parseSeedRequest body = Ok request ->
    (inject_Z 100 <= radiusInMeters request)%Q
    /\ (radiusInMeters request <= inject_Z 50000)%Q
    /\ (inject_Z (-90) <= swLat request)%Q /\ (swLat request < neLat request)%Q
    /\ (neLat request <= inject_Z 90)%Q
    /\ (inject_Z (-180) <= swLng request)%Q /\ (swLng request < neLng request)%Q
    /\ (neLng request <= inject_Z 180)%Q
    /\ NoDup (types request) /\ types request <> []
    /\ (forall type, type ∈ types request -> type ∈ VALID_TYPES).
Proof.
  intros body request. unfold parseSeedRequest, andThen.
  destruct (toNumber (b_neLat body) "neLat") as [nlat|]; [|discriminate].
  destruct (toNumber (b_neLng body) "neLng") as [nlng|]; [|discriminate].
  destruct (toNumber (b_swLat body) "swLat") as [slat|]; [|discriminate].
  destruct (toNumber (b_swLng body) "swLng") as [slng|]; [|discriminate].
  destruct (parseProvider (b_provider body)) as [prov|]; [|discriminate].
  destruct (normalizeTypes (b_types body)) as [tys|] eqn:Ht; [|discriminate].
  destruct (radiusOr5000 (b_radiusInMeters body)) as [radius|]; [|discriminate].
  destruct (validateBoundingBox nlat nlng slat slng) as [[]|] eqn:Hbox;
    [|discriminate].
  intros [= <-]. simpl.
  apply normalizeTypes_Ok in Ht as (Hnd & Hne & Hvalid & _).
  destruct (Q_clamp radius (inject_Z 100) (inject_Z 50000)) as [Hlo Hhi];
    [rewrite <- Zle_Qle; lia|].
  unfold validateBoundingBox in Hbox.
  destruct (Qltb nlat _) eqn:B1; simpl in Hbox; [discriminate|].
  destruct (Qltb _ nlat) eqn:B2; simpl in Hbox; [discriminate|].
  destruct (Qltb slat _) eqn:B3; simpl in Hbox; [discriminate|].
  destruct (Qltb _ slat) eqn:B4; simpl in Hbox; [discriminate|].
  destruct (Qltb nlng _) eqn:B5; simpl in Hbox; [discriminate|].
  destruct (Qltb _ nlng) eqn:B6; simpl in Hbox; [discriminate|].
  destruct (Qltb slng _) eqn:B7; simpl in Hbox; [discriminate|].
  destruct (Qltb _ slng) eqn:B8; simpl in Hbox; [discriminate|].
  destruct (Qleb nlat slat) eqn:B9; simpl in Hbox; [discriminate|].
  destruct (Qleb nlng slng) eqn:B10; [discriminate|].
  apply Qltb_false in B1, B2, B3, B4, B5, B6, B7, B8.
  apply Qleb_false in B9, B10.
  repeat split; auto.
Qed.
End SeedFacts.

(** ** StellarNetworkDiagnostics: the verdict and the alert counter *)

Section DiagnosticsFacts.
Implicit Types (diag : Diagnostics) (pairs : list Keypair).

Lemma charCodeSum_nonneg text : 0 <= charCodeSum text.
Proof. induction text as [|c text IH]; simpl; lia. Qed.

Lemma prefix_G pub :
  String.prefix "G" pub = true -> exists rest, pub = String "G"%char rest.
Proof.
  destruct pub as [|c rest]; [discriminate|]. cbn [String.prefix].
  destruct (ascii_dec "G"%char c) as [<-|]; intros Hp; [eauto | discriminate Hp].
Qed.

Lemma analyzeKeypairSecurity_verdict keypair diag :
  analyzeKeypairSecurity keypair diag
  = if wellFormed keypair then (diag, true)
    else (logDiagnostic "SECURITY_ALERT" 1 diag, false).
Proof.
  unfold analyzeKeypairSecurity, wellFormed.
  destruct (Nat.eqb _ 56); simpl; [|reflexivity].
  destruct (String.prefix "G" (kp_publicKey keypair)) eqn:Hp; simpl; [|reflexivity].
  apply prefix_G in Hp as [rest ->]. f_equal. apply Z.ltb_lt.
  cbn [charCodeSum].
  replace (Z.of_nat (nat_of_ascii "G")) with 71 by reflexivity.
  pose proof (charCodeSum_nonneg rest). lia.
Qed.

(** X24. [analyzeKeypairSecurity] accepts a key pair exactly when its secret
    has 56 characters and its public key starts with [G]; the checksum test
    that follows never rejects.  Over a run of analyses on one monitor the
    entry [SECURITY_ALERT] of the log grows by the number of key pairs
    rejected, and every other entry, [ENTROPY_INIT] among them, stays as it
    was. *)
Theorem analyzeAll_counts_alerts :
  forall pairs diag,
    let '(diag', verdicts) := analyzeAll pairs diag in
    verdicts = wellFormed <$> pairs
    /\ default 0 (diagnosticLog diag' !! "SECURITY_ALERT")
       = default 0 (diagnosticLog diag !! "SECURITY_ALERT")
         + Z.of_nat (length (List.filter negb verdicts))
    /\ (forall key, key <> "SECURITY_ALERT" ->
          diagnosticLog diag' !! key = diagnosticLog diag !! key)
    /\ isMonitoring diag' = isMonitoring diag.
Proof.
  induction pairs as [|keypair pairs IH]; intros diag; simpl.
  - repeat split; auto. lia.
  - rewrite analyzeKeypairSecurity_verdict.
    destruct (wellFormed keypair) eqn:Hw.
    + specialize (IH diag). destruct (analyzeAll pairs diag) as [diag' verdicts].
      destruct IH as (-> & Hcount & Hother & Hmon). simpl.
      repeat split; auto.
    + specialize (IH (logDiagnostic "SECURITY_ALERT" 1 diag)).
      destruct (analyzeAll pairs _) as [diag' verdicts].
      destruct IH as (-> & Hcount & Hother & Hmon). simpl.
      split; [reflexivity|]. split; [|split].
      * rewrite Hcount. unfold logDiagnostic. simpl.
        rewrite lookup_insert_eq. simpl. lia.
      * intros key Hkey. rewrite (Hother key Hkey). unfold logDiagnostic. simpl.
        by rewrite lookup_insert_ne.
      * exact Hmon.
Qed.
End DiagnosticsFacts.

(** ** The sample requests *)

Section Scenario3.
Import Reference Samples SampleRuntime.

Lemma readNumber_digits text :
  isDigits text = true ->
  match js_parseNumber text with
  | JsFinite q =>
      (decimal text <= 2 ^ 53 -> (q == inject_Z (decimal text))%Q)
      /\ (2 ^ 53 < decimal text -> (inject_Z (2 ^ 53) <= q)%Q)
  | JsPosInf => 2 ^ 53 < decimal text
  | _ => False
  end.
Proof.
  intros Hd. simpl. unfold readNumber. rewrite Hd.
  destruct (isEmpty text) eqn:He.
  - unfold isDigits in Hd. rewrite He in Hd. discriminate Hd.
  - split; [intros _; apply Qeq_refl|].
    intros Hbig. rewrite <- Zle_Qle. lia.
Qed.

Lemma validated_api_env_issues_tokens_witness :
  validateTargetEnv "api" apiEnv = None
  /\ exists issued, issueTokenPair (envOf apiEnv) 0 params1 = Ok issued.
Proof.
  assert (validateTargetEnv "api" apiEnv = None) as H1
    by (vm_compute; reflexivity).
  split; [exact H1|].
  exact (validated_api_env_issues_tokens apiEnv H1 0 params1).
Defined.

Lemma validated_api_port_witness :
  validateTargetEnv "api" apiEnv = None
  /\ exists port,
       apiEnv !! "API_PORT" = Some port
       /\ isDigits port = true
       /\ 1 <= decimal port <= 65535.
Proof.
  assert (validateTargetEnv "api" apiEnv = None) as H1
    by (vm_compute; reflexivity).
  split; [exact H1|].
  exact (validated_api_port apiEnv readNumber_digits H1).
Defined.

Lemma nearbyQuery_accepted_witness :
  nearbyQuery nearbyRequest = Ok nearbyAsked
  /\ (inject_Z 0 < maxDistance nearbyAsked)%Q
  /\ (maxDistance nearbyAsked <= inject_Z 50000)%Q
  /\ query_status nearbyAsked = "active".
Proof.
  assert (nearbyQuery nearbyRequest = Ok nearbyAsked) as H1
    by (vm_compute; reflexivity).
  split; [exact H1|].
  pose proof (nearbyQuery_accepted nearbyRequest nearbyAsked H1)
    as (_ & _ & _ & _ & Hpos & Hmax & _ & _ & _ & Hstatus & _).
  split; [exact Hpos|]. split; [exact Hmax | exact Hstatus].
Defined.

Lemma normalizeTypes_accepted_witness :
  normalizeTypes (Some (VTexts ["atm"; "bank"; "atm"])) = Ok ["atm"; "bank"]
  /\ NoDup ["atm"; "bank"]
  /\ forall type, type ∈ ["atm"; "bank"] -> type ∈ VALID_TYPES.
Proof.
  assert (normalizeTypes (Some (VTexts ["atm"; "bank"; "atm"]))
          = Ok ["atm"; "bank"]) as H1 by (vm_compute; reflexivity).
  split; [exact H1|].
  pose proof (normalizeTypes_accepted _ _ H1) as (Hnd & _ & Hvalid & _).
  split; [exact Hnd | exact Hvalid].
Defined.

Lemma parseSeedRequest_accepted_witness :
  parseSeedRequest seedBody = Ok seedAsked
  /\ (inject_Z 100 <= radiusInMeters seedAsked)%Q
  /\ (radiusInMeters seedAsked <= inject_Z 50000)%Q
  /\ NoDup (types seedAsked).
Proof.
  assert (parseSeedRequest seedBody = Ok seedAsked) as H1
    by (vm_compute; reflexivity).
  split; [exact H1|].
  pose proof (parseSeedRequest_accepted seedBody seedAsked H1)
    as (Hlo & Hhi & _ & _ & _ & _ & _ & _ & Hnd & _).
  split; [exact Hlo|]. split; [exact Hhi | exact Hnd].
Defined.
End Scenario3.
